(** * sahara: the container of [src/container.js]

    A shallow embedding of the dependency-injection container: the
    registration store, the dependency graph it feeds, the two resolve
    protocols ([resolveSync] / [resolve]) with their injection pipelines,
    the interception configurator and child containers.

    JavaScript objects that the container mutates (its [registrations]
    object, its [handlerConfigs] array, the [map] of its dependency graph
    with the arrays it holds, and the handler-config objects) live in an
    explicit store and are addressed by location, so that sharing between
    a container and its child is visible.  Objects supplied by the caller
    (lifetime policies, injections, factories, the object builder) are
    addressed by name and given their behaviour by an environment [Env];
    those that are handed the container may call it in turn and may
    throw. *)

From Stdlib Require Import ZArith String List Bool Lia DecimalString.
From stdpp Require Import base option gmap strings list fin_maps fin_sets.

Local Open Scope string_scope.

(** ** JavaScript values *)

Module JS.

(** The error objects the container creates itself ([new Error(msg)]),
    kept apart by the message they carry. *)
Inductive error :=
| UnregisteredKeyError (key : string)
| CyclicDependencyError (from to : string)
| MissingKeyError
| UnresolvedParameterError (position : nat) (type : string)
| FactoryKeyError.

Inductive value :=
| VUndefined
| VNull
| VBool (b : bool)
| VNum (n : Z)
| VStr (s : string)
| VObj (ctor : string) (ref : nat)   (* an object: [constructor.name], identity *)
| VErr (e : error)
| VTypeError (property : string).   (* raised by the engine: [undefined.property] *)

#[global] Instance error_eq_dec : EqDecision error.
Proof. solve_decision. Defined.
#[global] Instance value_eq_dec : EqDecision value.
Proof. solve_decision. Defined.

(** [if (v)], [!v], [v || w] *)
Definition truthy (v : value) : bool :=
  match v with
  | VUndefined | VNull => false
  | VBool b => b
  | VNum n => negb (n =? 0)%Z
  | VStr s => negb (String.eqb s EmptyString)
  | VObj _ _ | VErr _ | VTypeError _ => true
  end.

(** [a === b] *)
Definition strict_eq (a b : value) : bool := bool_decide (a = b).




(** What a synchronous call does: it returns or it throws. *)
Inductive outcome (A : Type) :=
| Return (a : A)
| Throw (e : value).
Arguments Return {A} a.
Arguments Throw {A} e.

(** What a call taking a node-style callback does.  [Delivered err r] is
    [callback(err, r)] with [err = None] for a [null] or missing error
    argument; [Thrown e] is an exception leaving the call itself. *)
Inductive completion :=
| Delivered (err : option value) (result : value)
| Thrown (e : value).

End JS.
Import JS.

(** ** Constructors and type information *)

(** A constructor function: its [name] (empty for an anonymous function),
    the type named by the doc comment of each parameter, and its
    identity. *)
Record ctor := Ctor {
  ctor_name : string;
  ctor_params : list (option string);
  ctor_ref : nat
}.

#[global] Instance ctor_eq_dec : EqDecision ctor.
Proof. solve_decision. Defined.

Record typeInfo := TypeInfo {
  ti_name : string;
  ti_args : list string;      (* the [type] of each entry of [args] *)
  ti_ctor : ctor
}.

#[global] Instance typeInfo_eq_dec : EqDecision typeInfo.
Proof. solve_decision. Defined.

(** ** Registrations *)

Definition loc := nat.

(** A lifetime policy: the container's own default, or an object supplied
    by the caller and known by its identity. *)
Inductive Lifetime :=
| Transient
| UserLifetime (l : nat).

#[global] Instance Lifetime_eq_dec : EqDecision Lifetime.
Proof. solve_decision. Defined.

(** The three kinds of registration.  Each carries the fields set by
    [Registration.call(this, name, lifetime, injections)] and its own
    payload; the constructor used is what [instanceof] tests. *)
Inductive Registration :=
| TypeReg (name : string) (lifetime : Lifetime) (injections : list nat) (typeInfo : typeInfo)
| InstanceReg (name : string) (lifetime : Lifetime) (injections : list nat) (instance : value)
| FactoryReg (name : string) (lifetime : Lifetime) (injections : list nat) (factory : nat).

#[global] Instance Registration_eq_dec : EqDecision Registration.
Proof. solve_decision. Defined.

Definition reg_name (r : Registration) : string :=
  match r with TypeReg n _ _ _ | InstanceReg n _ _ _ | FactoryReg n _ _ _ => n end.
Definition reg_lifetime (r : Registration) : Lifetime :=
  match r with TypeReg _ l _ _ | InstanceReg _ l _ _ | FactoryReg _ l _ _ => l end.
Definition reg_injections (r : Registration) : list nat :=
  match r with TypeReg _ _ i _ | InstanceReg _ _ i _ | FactoryReg _ _ i _ => i end.

(** [this.lifetime = lifetime || new lifetimes.Transient()] and
    [this.injections = injections || []] *)
Definition TypeRegistration name (lifetime : option Lifetime)
    (injections : option (list nat)) typeInfo : Registration :=
  TypeReg name (default Transient lifetime) (default [] injections) typeInfo.
Definition InstanceRegistration name (lifetime : option Lifetime)
    (injections : option (list nat)) instance : Registration :=
  InstanceReg name (default Transient lifetime) (default [] injections) instance.
Definition FactoryRegistration name (lifetime : option Lifetime)
    (injections : option (list nat)) factory : Registration :=
  FactoryReg name (default Transient lifetime) (default [] injections) factory.

(** ** Interception configuration *)

(** The closures [intercept] builds as [predicate]. *)
Inductive predicate :=
| ByName (matcher : string)
| ByType (type : ctor) (name : value)
| Constant (matcher : bool)
| Custom (f : nat).

Record HandlerConfig := mkHandlerConfig {
  hc_handlers : list nat;
  hc_matcher : predicate;
  hc_isAsync : option bool       (* unset until [sync()] or [async()] runs *)
}.

(** What a caller may pass as [matcher]. *)
Inductive matcherArg :=
| MValue (v : value)                         (* neither an array nor a function *)
| MArray (first : ctor) (second : value)     (* [[Type, name]]; [second] is [VUndefined] when absent *)
| MFunction (f : nat).

(** ** The container and the store *)

#[warnings="-register-all"]
Inductive Container := mkContainer {
  parent : option Container;
  registrations : loc;      (* the object [this.registrations] *)
  handlerConfigs : loc;     (* the array [this.handlerConfigs] *)
  graph : loc               (* the graph [this.graph] *)
}.

(** [graph.map] holds an array of dependency keys under each declaring
    key.  Such an array is created by [graph.add], for a key that the map
    lacks, and no entry is ever removed from a map; so an array is known
    by the graph that created it and the key it was created under.  A map
    holds, under a key, the graph that created the array it has there. *)
Record World {U : Type} := mkWorld {
  registrationObjs : gmap loc (gmap string Registration);
  arrays : gmap loc (list loc);                       (* the [handlerConfigs] arrays *)
  handlerConfigObjs : gmap loc HandlerConfig;
  graphs : gmap loc (gmap string loc);                (* [graph.map] *)
  edgeArrays : gmap (loc * string) (list string);     (* the arrays held in the maps *)
  next : loc;                                         (* next unused location *)
  user : U                                            (* the state of the caller's objects *)
}.
Arguments World U : clear implicits.
Arguments mkWorld {U}.

(** Calls the container makes on objects it does not own, in order.  The
    builder, a factory and an injection are handed the container (or
    functions bound to it) and may call it in turn: [inner] holds the
    calls the container made on their behalf while they ran. *)
#[warnings="-register-all"]
Inductive Event :=
| EFetch (l : Lifetime)
| EStore (l : Lifetime) (v : value)
| ENewInstance (ti : typeInfo) (inner : list Event)
| EFactory (f : nat) (inner : list Event)
| EInject (i : nat) (instance : value) (inner : list Event).

Record St {U : Type} := mkSt {
  world : World U;
  trace : list Event
}.
Arguments St U : clear implicits.
Arguments mkSt {U}.

(** The behaviour of the caller's objects and of [./builder].

    Modelled from the spec: a lifetime policy (one of [./lifetime], or an
    object of the caller's with the same interface) keeps to the contract
    [fetch() -> instance or absent], [store(instance) -> void]: a call of
    either returns, with its effect on the store.  A policy is not handed
    the container.

    An injection, a factory and the builder are handed the container, or
    functions bound to it ([new ObjectBuilder(this.resolve.bind(this),
    this.resolveSync.bind(this))]).  Each is run on the store as it is
    and gives the state it leaves, that is the store and the calls it made
    the container make, and what it returns or throws.  For an entry
    point taking a callback, [Return r] is the call of the callback with
    [r] (the error for an injection, [(err, result)] for a factory and
    the builder) and [Throw e] an exception leaving the entry point
    itself. *)
Record Env {U : Type} := mkEnv {
  lt_fetch : nat -> World U -> World U * value;
  lt_store : nat -> value -> World U -> World U;
  inj_injectSync : nat -> value -> Container -> World U -> St U * outcome unit;
  inj_inject : nat -> value -> Container -> World U -> St U * outcome value;
  fac_callSync : nat -> Container -> World U -> St U * outcome value;
  fac_call : nat -> Container -> World U -> St U * outcome (value * value);
  newInstanceSync : Container -> typeInfo -> loc -> World U -> St U * outcome value;
  newInstance : Container -> typeInfo -> loc -> World U -> St U * outcome (value * value);
  instanceOf : value -> ctor -> bool;
  fn_match : nat -> value -> string -> value
}.
Arguments Env U : clear implicits.

(** ** Collaborators that are not part of [container.js] *)

(** Modelled from the spec: the dependency graph ([dep-graph], of which
    the container uses [map], [add] and [getChain]).  It holds the edges
    [declaringKey -> dependencyKey]; the functions here work on the edges
    of one graph, given as the content of the array under each declaring
    key.  Validation computes the set reachable from the newly registered
    key and fails when an edge out of that set returns to the key, naming
    the two ends of that edge. *)
Module DepGraph.

Definition successors (map : gmap string (list string)) (id : string) : list string :=
  default [] (map !! id).

(** [edge map a b]: the graph holds the edge [a -> b]. *)
Definition edge (map : gmap string (list string)) (a b : string) : Prop :=
  b ∈@{list string} successors map a.

(** [R] contains every key its members depend on. *)
Definition closed (map : gmap string (list string)) (R : gset string) : Prop :=
  ∀ a b, a ∈ R → edge map a b → b ∈ R.

(** Modelled from the spec: what [graph.add(id, depId)] of [dep-graph]
    does to the edges of the graph it is called on: it records the edge
    [id -> depId] in the edge set.  (What it does to the store is
    [graphAdd] below.) *)
Definition add (id depId : string) (map : gmap string (list string))
    : gmap string (list string) :=
  if bool_decide (depId ∈@{list string} successors map id) then map
  else <[id := (successors map id ++ [depId])%list]> map.

(** one more step along the edges *)
Definition expand (map : gmap string (list string)) (R : gset string) : gset string :=
  R ∪ set_bind (fun n => list_to_set (successors map n)) R.

(** every key that an edge points to *)
Definition targets (map : gmap string (list string)) : gset string :=
  ⋃ ((fun kv => list_to_set kv.2) <$> map_to_list map).

Fixpoint iterate (n : nat) (map : gmap string (list string)) (R : gset string) : gset string :=
  match n with
  | O => R
  | S n => iterate n map (expand map R)
  end.

Definition reachable (map : gmap string (list string)) (id : string) : gset string :=
  iterate (S (size (targets map))) map {[id]}.

Definition closes (map : gmap string (list string)) (id n : string) : bool :=
  bool_decide (id ∈@{list string} successors map n).

(** Modelled from the spec: [graph.getChain(id)] of [dep-graph], the
    cycle validation: the reachable set of [id], and the failure on the
    first edge found that leads from it back to [id]. *)
Definition getChain (map : gmap string (list string)) (id : string)
    : outcome (list string) :=
  let R := reachable map id in
  match List.filter (closes map id) (elements R) with
  | n :: _ => Throw (VErr (CyclicDependencyError n id))
  | [] => Return (elements (R ∖ {[id]}))
  end.

End DepGraph.

(** Modelled from the spec: the type-info extractor ([./util],
    [getTypeInfo]).  The resolution key is the override when one is given
    and the constructor's name otherwise; with neither it fails with the
    missing-key error.  A parameter whose type cannot be determined fails
    with the error naming its position (from 1) and the owning type. *)
Fixpoint paramTypes (typeName : string) (position : nat) (params : list (option string))
    : outcome (list string) :=
  match params with
  | [] => Return []
  | None :: _ => Throw (VErr (UnresolvedParameterError position typeName))
  | Some t :: rest =>
      match paramTypes typeName (S position) rest with
      | Return ts => Return (t :: ts)
      | Throw e => Throw e
      end
  end.

(** [a || b] on strings, with [None] for [undefined] *)
Definition str_or (a : option string) (b : string) : string :=
  match a with
  | Some s => if String.eqb s EmptyString then b else s
  | None => b
  end.

(** Modelled from the spec: [util.getTypeInfo(ctor, key)] of [./util]. *)
Definition getTypeInfo (c : ctor) (key : option string) : outcome typeInfo :=
  let name := str_or key (ctor_name c) in
  if String.eqb name EmptyString then Throw (VErr MissingKeyError)
  else match paramTypes name 1 (ctor_params c) with
       | Return args => Return (TypeInfo name args c)
       | Throw e => Throw e
       end.

(** ** Helpers of [container.js] *)

Definition createUnregisteredError (key : string) : value :=
  VErr (UnregisteredKeyError key).

Definition getKeyFromCtor (c : ctor) : string := ctor_name c.

(** [instance && instance.constructor && instance.constructor.name], as
    the property key it is then used for. *)
Definition getKeyFromInstance (instance : value) : string :=
  match instance with
  | VUndefined => "undefined"
  | VNull => "null"
  | VBool b => if b then "Boolean" else "false"
  | VNum n => if (n =? 0)%Z then "0" else "Number"
  | VStr s => if String.eqb s EmptyString then EmptyString else "String"
  | VObj c _ => c
  | VErr _ => "Error"
  | VTypeError _ => "TypeError"
  end.

(** The options object: each field may be missing. *)
Record Options := mkOptions {
  opt_key : option string;
  opt_lifetime : option Lifetime;
  opt_injections : option (list nat)
}.

(** What follows the first argument of a [register*] call. *)
Inductive signature :=
| SigNone
| SigOptions (o : Options)
| SigPositional (key : option string) (lifetime : option Lifetime) (injections : list nat).

Definition resolveSignatureToOptions (args : signature) : Options :=
  match args with
  | SigNone => mkOptions None None None
  | SigOptions o => o
  | SigPositional key lifetime injections => mkOptions key lifetime (Some injections)
  end.

(** A resolution key as passed to [resolve]: a string or a constructor. *)
Inductive keyArg :=
| KeyStr (s : string)
| KeyCtor (c : ctor).

Definition normalizeKey (key : keyArg) : string :=
  match key with
  | KeyStr s => s
  | KeyCtor c => getKeyFromCtor c
  end.


(** ** The store *)

(** The names that every object inherits from [Object.prototype]:
    [obj[name]] finds a member of the prototype (a function, or the
    prototype itself for [__proto__]) when [obj] has no property of its
    own under that name. *)
Definition objectPrototype : list string :=
  ["constructor"; "toString"; "toLocaleString"; "valueOf"; "hasOwnProperty";
   "isPrototypeOf"; "propertyIsEnumerable"; "__defineGetter__"; "__defineSetter__";
   "__lookupGetter__"; "__lookupSetter__"; "__proto__"].

(** What [this.registrations[key]] finds.  [this.registrations] is a plain
    object ([{}]), so the lookup goes on to [Object.prototype] for a key
    the object has no property under.  A member of the prototype is
    truthy and has neither [lifetime] nor [injections]. *)
Inductive property :=
| Own (registration : Registration)
| Inherited
| Missing.

Section Store.
Context {U : Type}.

Definition with_registrationObjs (f : gmap loc (gmap string Registration) ->
    gmap loc (gmap string Registration)) (w : World U) : World U :=
  mkWorld (f (registrationObjs w)) (arrays w) (handlerConfigObjs w) (graphs w)
          (edgeArrays w) (next w) (user w).
Definition with_arrays (f : gmap loc (list loc) -> gmap loc (list loc))
    (w : World U) : World U :=
  mkWorld (registrationObjs w) (f (arrays w)) (handlerConfigObjs w) (graphs w)
          (edgeArrays w) (next w) (user w).
Definition with_handlerConfigObjs (f : gmap loc HandlerConfig -> gmap loc HandlerConfig)
    (w : World U) : World U :=
  mkWorld (registrationObjs w) (arrays w) (f (handlerConfigObjs w)) (graphs w)
          (edgeArrays w) (next w) (user w).
Definition with_graphs (f : gmap loc (gmap string loc) -> gmap loc (gmap string loc))
    (w : World U) : World U :=
  mkWorld (registrationObjs w) (arrays w) (handlerConfigObjs w) (f (graphs w))
          (edgeArrays w) (next w) (user w).
Definition with_edgeArrays (f : gmap (loc * string) (list string) ->
    gmap (loc * string) (list string)) (w : World U) : World U :=
  mkWorld (registrationObjs w) (arrays w) (handlerConfigObjs w) (graphs w)
          (f (edgeArrays w)) (next w) (user w).
Definition with_next (n : loc) (w : World U) : World U :=
  mkWorld (registrationObjs w) (arrays w) (handlerConfigObjs w) (graphs w)
          (edgeArrays w) n (user w).

(** The properties [C.registrations] has of its own, and
    [C.handlerConfigs], as they are now. *)
Definition registrationsOf (w : World U) (C : Container) : gmap string Registration :=
  default ∅ (registrationObjs w !! registrations C).
Definition handlerConfigsOf (w : World U) (C : Container) : list loc :=
  default [] (arrays w !! handlerConfigs C).

(** [C.registrations[key]] *)
Definition getRegistration (w : World U) (C : Container) (key : string) : property :=
  match registrationsOf w C !! key with
  | Some registration => Own registration
  | None => if bool_decide (key ∈@{list string} objectPrototype) then Inherited else Missing
  end.

(** [C.registrations] still has the prototype it was created with:
    nothing has been assigned to it under [__proto__].  (Such an
    assignment makes the assigned object the prototype, and its members
    are then found under their names; the properties below that rest on
    a key being absent are stated for objects of which this holds.) *)
Definition plain (w : World U) (C : Container) : Prop :=
  registrationsOf w C !! "__proto__" = None.

(** [C.graph.map], as the array each key holds, and the content of an
    array. *)
Definition graphMapOf (w : World U) (C : Container) : gmap string loc :=
  default ∅ (graphs w !! graph C).
Definition arrayOf (w : World U) (creator : loc) (key : string) : list string :=
  default [] (edgeArrays w !! (creator, key)).

(** The edges of [C.graph] as they are now: under each key of [map], the
    content of the array it holds. *)
Definition graphOf (w : World U) (C : Container) : gmap string (list string) :=
  map_imap (fun key creator => Some (arrayOf w creator key)) (graphMapOf w C).

(** [C.registrations[key] = r] *)
Definition putRegistration (C : Container) (key : string) (r : Registration)
    (w : World U) : World U :=
  with_registrationObjs <[registrations C := <[key := r]> (registrationsOf w C)]> w.

(** [C.handlerConfigs.push(config)] *)
Definition pushHandlerConfig (C : Container) (config : loc) (w : World U) : World U :=
  with_arrays <[handlerConfigs C := (handlerConfigsOf w C ++ [config])%list]> w.

(** Modelled from the spec: [C.graph.add(id, depId)] of [dep-graph], on
    the store.  The array under [id] is created, empty, when the map has
    none; [depId] is pushed on the array under [id] unless it is in it. *)
Definition graphAdd (C : Container) (id depId : string) (w : World U) : World U :=
  match graphMapOf w C !! id with
  | Some creator =>
      if bool_decide (depId ∈@{list string} arrayOf w creator id) then w
      else with_edgeArrays <[(creator, id) := (arrayOf w creator id ++ [depId])%list]> w
  | None =>
      with_graphs <[graph C := <[id := graph C]> (graphMapOf w C)]>
        (with_edgeArrays <[(graph C, id) := [depId]]> w)
  end.

(** [C.graph.map[key] = array], for an array that exists *)
Definition putGraphEntry (C : Container) (key : string) (creator : loc)
    (w : World U) : World U :=
  with_graphs <[graph C := <[key := creator]> (graphMapOf w C)]> w.

(** [new Container(parent)]: a fresh [{}], a fresh [[]] and a fresh graph.
    (The builder it also creates is bound to the new container and is
    reached through [Env].) *)
Definition newContainer (parent : option Container) (w : World U)
    : World U * Container :=
  let l := next w in
  let C := mkContainer parent l (S l) (S (S l)) in
  (with_next (S (S (S l)))
     (with_graphs <[graph C := ∅]>
        (with_arrays <[handlerConfigs C := []]>
           (with_registrationObjs <[registrations C := ∅]> w))),
   C).

Definition on_world (f : World U -> World U) (s : St U) : St U :=
  mkSt (f (world s)) (trace s).

Definition log (e : Event) (w : World U) (s : St U) : St U :=
  mkSt w (trace s ++ [e])%list.

(** A call of an object that is handed the container: it runs on the
    store as it is, and the call is recorded with the calls the container
    made while it ran. *)
Definition call {A : Type} (e : list Event -> Event)
    (f : World U -> St U * outcome A) (s : St U) : St U * outcome A :=
  let '(r, o) := f (world s) in
  (mkSt (world r) (trace s ++ [e (trace r)])%list, o).

End Store.

(** Modelled from the spec: the default lifetime policy
    ([lifetimes.Transient] of [./lifetime]), which always reports absent
    and ignores what it is asked to store. *)
Definition Transient_fetch : value := VUndefined.

(** Modelled from the spec: [store] of [lifetimes.Transient], which
    ignores the instance. *)
Definition Transient_store {U : Type} (instance : value) (w : World U) : World U := w.

(** ** [Container.prototype] *)

Section ContainerPrototype.
Context {U : Type} (E : Env U).

(** *** Registration *)

Definition registerType (this : Container) (ctor : ctor) (args : signature)
    (s : St U) : St U * outcome Container :=
  let options := resolveSignatureToOptions args in
  match getTypeInfo ctor (opt_key options) with
  | Throw e => (s, Throw e)
  | Return typeInfo =>
      let typeName := ti_name typeInfo in
      let s1 := on_world (putRegistration this typeName
                  (TypeRegistration typeName (opt_lifetime options)
                     (opt_injections options) typeInfo)) s in
      let s2 := fold_left (fun s arg => on_world (graphAdd this typeName arg) s)
                  (ti_args typeInfo) s1 in
      match DepGraph.getChain (graphOf (world s2) this) typeName with
      | Throw e => (s2, Throw e)
      | Return _ => (s2, Return this)
      end
  end.

Definition registerInstance (this : Container) (instance : value) (args : signature)
    (s : St U) : St U * outcome Container :=
  let options := resolveSignatureToOptions args in
  let key := str_or (opt_key options) (getKeyFromInstance instance) in
  (on_world (putRegistration this key
     (InstanceRegistration key (opt_lifetime options) (opt_injections options)
        instance)) s,
   Return this).

Definition registerFactory (this : Container) (factory : nat) (args : signature)
    (s : St U) : St U * outcome Container :=
  let options := resolveSignatureToOptions args in
  let key := str_or (opt_key options) EmptyString in
  if String.eqb key EmptyString then (s, Throw (VErr FactoryKeyError))
  else
    (on_world (putRegistration this key
       (FactoryRegistration key (opt_lifetime options) (opt_injections options)
          factory)) s,
     Return this).

(** [!!this.registrations[key]] *)
Definition isRegistered (this : Container) (key : keyArg) (s : St U) : bool :=
  match getRegistration (world s) this (normalizeKey key) with
  | Own _ | Inherited => true
  | Missing => false
  end.

(** *** Lifetime policies *)

Definition fetch (l : Lifetime) (s : St U) : St U * value :=
  match l with
  | Transient => (log (EFetch l) (world s) s, Transient_fetch)
  | UserLifetime n =>
      let '(w, v) := lt_fetch E n (world s) in (log (EFetch l) w s, v)
  end.

Definition store (l : Lifetime) (instance : value) (s : St U) : St U :=
  match l with
  | Transient => log (EStore l instance) (Transient_store instance (world s)) s
  | UserLifetime n => log (EStore l instance) (lt_store E n instance (world s)) s
  end.

(** *** Injection *)

(** [registration.injections.forEach(...)]: in order, the first
    [injectSync] that throws ends the loop. *)
Fixpoint injectEachSync (this : Container) (instance : value) (injections : list nat)
    (s : St U) : St U * outcome unit :=
  match injections with
  | [] => (s, Return tt)
  | injection :: rest =>
      let '(s1, o) := call (EInject injection instance)
                        (inj_injectSync E injection instance this) s in
      match o with
      | Throw e => (s1, Throw e)
      | Return _ => injectEachSync this instance rest s1
      end
  end.

(** For a key inherited from [Object.prototype], [registration.injections]
    is [undefined] and the call of its [forEach] raises. *)
Definition injectSync (this : Container) (instance : value) (key : option string)
    (s : St U) : St U * outcome unit :=
  let key := str_or key (getKeyFromInstance instance) in
  match getRegistration (world s) this key with
  | Missing => (s, Throw (createUnregisteredError key))
  | Inherited => (s, Throw (VTypeError "forEach"))
  | Own registration =>
      injectEachSync this instance (reg_injections registration) s
  end.

(** Modelled from the spec: [async.forEach(registration.injections, ...,
    callback)] of the [async] package.  Every injection is started, in
    order, whether or not an earlier one failed; each reports on a later
    tick, the first error reported reaches the callback and later
    reports are dropped.  [reported] is the error already on its way.  An
    exception thrown by an injection as it is started leaves the loop. *)
Fixpoint injectEach (this : Container) (instance : value) (injections : list nat)
    (reported : option value) (s : St U) : St U * outcome (option value) :=
  match injections with
  | [] => (s, Return reported)
  | injection :: rest =>
      let '(s1, o) := call (EInject injection instance)
                        (inj_inject E injection instance this) s in
      match o with
      | Throw e => (s1, Throw e)
      | Return err =>
          let reported :=
            match reported with
            | Some e => Some e
            | None => if truthy err then Some err else None
            end in
          injectEach this instance rest reported s1
      end
  end.

(** [inject]: [Return err] is the call of the callback with the error
    [err], [None] for none.  For a key inherited from [Object.prototype],
    [async.forEach] is handed [undefined] for the list and raises on
    reading its [length]. *)
Definition inject (this : Container) (instance : value) (key : option string)
    (s : St U) : St U * outcome (option value) :=
  let key := str_or key (getKeyFromInstance instance) in
  match getRegistration (world s) this key with
  | Missing => (s, Return (Some (createUnregisteredError key)))
  | Inherited => (s, Throw (VTypeError "length"))
  | Own registration =>
      injectEach this instance (reg_injections registration) None s
  end.

(** *** Resolution *)

(** The three branches on the kind of registration in [resolveSync]. *)
Definition constructSync (this : Container) (registration : Registration)
    (s : St U) : St U * outcome value :=
  match registration with
  | InstanceReg _ _ _ instance => (s, Return instance)
  | TypeReg _ _ _ typeInfo =>
      call (ENewInstance typeInfo)
        (newInstanceSync E this typeInfo (handlerConfigs this)) s
  | FactoryReg _ _ _ factory =>
      call (EFactory factory) (fac_callSync E factory this) s
  end.

(** [resolveSync] from [var instance;] on: construction, injection,
    [store]. *)
Definition buildSync (this : Container) (key : string) (registration : Registration)
    (s : St U) : St U * outcome value :=
  let '(s2, o) := constructSync this registration s in
  match o with
  | Throw e => (s2, Throw e)
  | Return instance =>
      let '(s3, o) := injectSync this instance (Some key) s2 in
      match o with
      | Throw e => (s3, Throw e)
      | Return _ => (store (reg_lifetime registration) instance s3, Return instance)
      end
  end.

(** [resolveSync] once [registration] has been looked up. *)
Definition resolveRegistrationSync (this : Container) (key : string)
    (registration : Registration) (s : St U) : St U * outcome value :=
  let '(s1, existing) := fetch (reg_lifetime registration) s in
  if truthy existing then (s1, Return existing)
  else buildSync this key registration s1.

(** For a key inherited from [Object.prototype], [registration.lifetime]
    is [undefined] and the call of its [fetch] raises. *)
Definition resolveSync (this : Container) (key : keyArg) (s : St U)
    : St U * outcome value :=
  let key := normalizeKey key in
  match getRegistration (world s) this key with
  | Missing => (s, Throw (createUnregisteredError key))
  | Inherited => (s, Throw (VTypeError "fetch"))
  | Own registration => resolveRegistrationSync this key registration s
  end.

Definition tryResolveSync (this : Container) (key : keyArg) (s : St U)
    : St U * value :=
  match resolveSync this key s with
  | (s', Return instance) => (s', instance)
  | (s', Throw _) => (s', VUndefined)
  end.

(** The three branches on the kind of registration in [resolve]: the
    [(err, instance)] that reaches [injectAndReturn], or the exception
    that leaves the builder or the factory. *)
Definition construct (this : Container) (registration : Registration)
    (s : St U) : St U * outcome (value * value) :=
  match registration with
  | InstanceReg _ _ _ instance => (s, Return (VNull, instance))
  | TypeReg _ _ _ typeInfo =>
      call (ENewInstance typeInfo)
        (newInstance E this typeInfo (handlerConfigs this)) s
  | FactoryReg _ _ _ factory =>
      call (EFactory factory) (fac_call E factory this) s
  end.

(** [injectAndReturn(err, instance)], ending in the call of [callback];
    nothing catches what [inject] throws. *)
Definition injectAndReturn (this : Container) (key : string)
    (registration : Registration) (err instance : value) (s : St U)
    : St U * completion :=
  if truthy err then (s, Delivered (Some err) VUndefined)
  else
    let '(s3, o) := inject this instance (Some key) s in
    match o with
    | Throw e => (s3, Thrown e)
    | Return None =>
        (store (reg_lifetime registration) instance s3, Delivered None instance)
    | Return (Some e) => (s3, Delivered (Some e) instance)
    end.

(** Nothing catches what the builder or the factory throws. *)
Definition build (this : Container) (key : string) (registration : Registration)
    (s : St U) : St U * completion :=
  let '(s2, o) := construct this registration s in
  match o with
  | Throw e => (s2, Thrown e)
  | Return (err, instance) => injectAndReturn this key registration err instance s2
  end.

Definition resolveRegistration (this : Container) (key : string)
    (registration : Registration) (s : St U) : St U * completion :=
  let '(s1, existing) := fetch (reg_lifetime registration) s in
  if truthy existing then (s1, Delivered None existing)
  else build this key registration s1.

Definition resolve (this : Container) (key : keyArg) (s : St U)
    : St U * completion :=
  let key := normalizeKey key in
  match getRegistration (world s) this key with
  | Missing => (s, Delivered (Some (createUnregisteredError key)) VUndefined)
  | Inherited => (s, Thrown (VTypeError "fetch"))
  | Own registration => resolveRegistration this key registration s
  end.

(** *** Interception *)

(** The object [intercept] returns: its two functions close over the
    handler config and the container. *)
Record Interception := mkInterception {
  ic_handlerConfig : loc;
  ic_container : Container
}.

Definition intercept (this : Container) (matcher : matcherArg) (handlers : list nat)
    (s : St U) : St U * Interception :=
  let predicate :=
    match matcher with
    | MValue (VStr m) => ByName m
    | MArray first second => ByType first second
    | MFunction f => Custom f
    | MValue v => Constant (truthy v)
    end in
  let l := next (world s) in
  (on_world (fun w => with_next (S l)
      (with_handlerConfigObjs <[l := mkHandlerConfig handlers predicate None]> w)) s,
   mkInterception l this).

(** [handlerConfig.isAsync = b; container.handlerConfigs.push(handlerConfig);
    return container] *)
Definition commit (b : bool) (i : Interception) (s : St U) : St U * Container :=
  let setIsAsync hc := mkHandlerConfig (hc_handlers hc) (hc_matcher hc) (Some b) in
  (on_world (fun w => pushHandlerConfig (ic_container i) (ic_handlerConfig i)
      (with_handlerConfigObjs (alter setIsAsync (ic_handlerConfig i)) w)) s,
   ic_container i).

Definition sync : Interception -> St U -> St U * Container := commit false.
Definition async : Interception -> St U -> St U * Container := commit true.

(** Calling a [predicate] closure. *)
Definition matches (p : predicate) (instance : value) (methodName : string) : value :=
  match p with
  | ByName matcher => VBool (String.eqb methodName matcher)
  | ByType type name =>
      VBool (instanceOf E instance type
             && (negb (truthy name) || strict_eq name (VStr methodName)))
  | Constant matcher => VBool matcher
  | Custom f => fn_match E f instance methodName
  end.

(** *** Child containers *)

Definition copyRegistration (self childContainer : Container) (w : World U)
    (key : string) : World U :=
  match registrationsOf w self !! key with
  | Some r => putRegistration childContainer key r w
  | None => w
  end.

(** [childContainer.graph.map[key] = self.graph.map[key]]: the child's map
    gets the array the parent's map holds, not a copy of it. *)
Definition copyGraphEntry (self childContainer : Container) (w : World U)
    (key : string) : World U :=
  match graphMapOf w self !! key with
  | Some creator => putGraphEntry childContainer key creator w
  | None => w
  end.

Definition createChildContainer (this : Container) (s : St U) : St U * Container :=
  let '(w0, childContainer) := newContainer (Some this) (world s) in
  let w1 := fold_left (copyRegistration this childContainer)
              (elements (dom (registrationsOf w0 this))) w0 in
  let w2 := fold_left (copyGraphEntry this childContainer)
              (elements (dom (graphMapOf w1 this))) w1 in
  let w3 := fold_left (fun w config => pushHandlerConfig childContainer config w)
              (handlerConfigsOf w2 this) w2 in
  (mkSt w3 (trace s), childContainer).

End ContainerPrototype.

(** ** Observing containers *)

Section Observation.
Context {U : Type}.

(** What a container holds: its registrations, its handler configs (the
    objects, not their addresses) and the edges of its graph. *)
Record View := mkView {
  v_registrations : gmap string Registration;
  v_handlerConfigs : list (option HandlerConfig);
  v_graph : gmap string (list string)
}.

Definition view (w : World U) (C : Container) : View :=
  mkView (registrationsOf w C)
         ((fun l => handlerConfigObjs w !! l) <$> handlerConfigsOf w C)
         (graphOf w C).

(** The objects of [C] were created in [w]. *)
Definition allocated (w : World U) (C : Container) : Prop :=
  registrations C < next w ∧ handlerConfigs C < next w ∧ graph C < next w ∧
  Forall (fun l => l < next w) (handlerConfigsOf w C).

(** Two containers that share none of their objects. *)
Definition separate (A B : Container) : Prop :=
  registrations A ≠ registrations B ∧ handlerConfigs A ≠ handlerConfigs B ∧
  graph A ≠ graph B.

(** The calls that change a container. *)
Inductive mutation :=
| RegisterType (c : ctor) (args : signature)
| RegisterInstance (instance : value) (args : signature)
| RegisterFactory (factory : nat) (args : signature)
| InterceptSync (matcher : matcherArg) (handlers : list nat)     (* [intercept(...).sync()] *)
| InterceptAsync (matcher : matcherArg) (handlers : list nat).   (* [intercept(...).async()] *)

(** The state a call leaves behind, whether it returns or throws. *)
Definition mutate (C : Container) (m : mutation) (s : St U) : St U :=
  match m with
  | RegisterType c args => (registerType C c args s).1
  | RegisterInstance instance args => (registerInstance C instance args s).1
  | RegisterFactory factory args => (registerFactory C factory args s).1
  | InterceptSync matcher handlers =>
      let '(s1, i) := intercept C matcher handlers s in (sync i s1).1
  | InterceptAsync matcher handlers =>
      let '(s1, i) := intercept C matcher handlers s in (async i s1).1
  end.

(** What can be done with a container after a fork: one of the calls
    above, an [intercept(...)] whose result is kept for later, or a call
    of [sync()] ([false]) or [async()] ([true]) of an interception made
    earlier, known by its handler config. *)
Inductive action :=
| Call (m : mutation)
| Make (matcher : matcherArg) (handlers : list nat)
| Again (isAsync : bool) (handlerConfig : loc).

Definition act (C : Container) (a : action) (s : St U) : St U :=
  match a with
  | Call m => mutate C m s
  | Make matcher handlers => (intercept C matcher handlers s).1
  | Again isAsync handlerConfig =>
      (commit isAsync (mkInterception handlerConfig C) s).1
  end.

(** A run of actions, each on the child ([true]) or on its parent. *)
Definition actEither (this childContainer : Container)
    (actions : list (bool * action)) (s : St U) : St U :=
  fold_left (fun s (a : bool * action) =>
               act (if a.1 then childContainer else this) a.2 s) actions s.

(** Every interception that the run calls again was made before that
    call. *)
Fixpoint made (this childContainer : Container) (actions : list (bool * action))
    (s : St U) : Prop :=
  match actions with
  | [] => True
  | a :: rest =>
      match a.2 with
      | Again _ handlerConfig => handlerConfig < next (world s)
      | _ => True
      end ∧
      made this childContainer rest
        (act (if a.1 then childContainer else this) a.2 s)
  end.

(** A container and a child forked from it when the map of its graph was
    [fork]: the objects of both were created in the store, the two share
    none of their own, under each key of [fork] both maps hold the array
    that [fork] holds there, and under any other key each holds nothing
    or an array that it has created itself. *)
Definition forked (this childContainer : Container) (fork : gmap string loc)
    (w : World U) : Prop :=
  allocated w this ∧ allocated w childContainer ∧ separate this childContainer ∧
  (∀ key, is_Some (fork !! key) →
          graphMapOf w this !! key = fork !! key ∧
          graphMapOf w childContainer !! key = fork !! key) ∧
  (∀ key, fork !! key = None →
          (graphMapOf w this !! key = None ∨
           graphMapOf w this !! key = Some (graph this)) ∧
          (graphMapOf w childContainer !! key = None ∨
           graphMapOf w childContainer !! key = Some (graph childContainer))).

(** The entry a [register*] call writes, if it gets that far. *)
Definition written (m : mutation) : option (string * Registration) :=
  match m with
  | RegisterType c args =>
      let options := resolveSignatureToOptions args in
      match getTypeInfo c (opt_key options) with
      | Return typeInfo =>
          Some (ti_name typeInfo,
                TypeRegistration (ti_name typeInfo) (opt_lifetime options)
                  (opt_injections options) typeInfo)
      | Throw _ => None
      end
  | RegisterInstance instance args =>
      let options := resolveSignatureToOptions args in
      let key := str_or (opt_key options) (getKeyFromInstance instance) in
      Some (key, InstanceRegistration key (opt_lifetime options)
                   (opt_injections options) instance)
  | RegisterFactory factory args =>
      let options := resolveSignatureToOptions args in
      let key := str_or (opt_key options) EmptyString in
      if String.eqb key EmptyString then None
      else Some (key, FactoryRegistration key (opt_lifetime options)
                        (opt_injections options) factory)
  | InterceptSync _ _ | InterceptAsync _ _ => None
  end.

(** The arguments of a [register*] call after the first. *)
Definition signatureOf (m : mutation) : option signature :=
  match m with
  | RegisterType _ args | RegisterInstance _ args | RegisterFactory _ args => Some args
  | InterceptSync _ _ | InterceptAsync _ _ => None
  end.

(** [intercept(matcher, ...handlers).sync()] for [isAsync = false],
    [.async()] for [true]. *)
Definition interceptCommit (this : Container) (matcher : matcherArg)
    (handlers : list nat) (isAsync : bool) (s : St U) : St U * Container :=
  let '(s1, i) := intercept this matcher handlers s in
  if isAsync then async i s1 else sync i s1.

(** The handler config last pushed on [C.handlerConfigs]. *)
Definition lastHandlerConfig (w : World U) (C : Container) : option HandlerConfig :=
  last (handlerConfigsOf w C) ≫= fun l => handlerConfigObjs w !! l.

(** What a [register*] call returns or throws. *)
Definition registered (C : Container) (m : mutation) (s : St U)
    : option (outcome Container) :=
  match m with
  | RegisterType c args => Some (registerType C c args s).2
  | RegisterInstance instance args => Some (registerInstance C instance args s).2
  | RegisterFactory factory args => Some (registerFactory C factory args s).2
  | InterceptSync _ _ | InterceptAsync _ _ => None
  end.

End Observation.

(** ** Observing a resolution *)

(** The instance a blocking call hands to its caller: none when it throws. *)
Definition returned (o : outcome value) : option value :=
  match o with
  | Return instance => Some instance
  | Throw _ => None
  end.

(** The instance a callback receives: the second argument, when one was
    passed. *)
Definition delivered (c : completion) : option value :=
  match c with
  | Delivered _ VUndefined => None
  | Delivered _ instance => Some instance
  | Thrown _ => None
  end.

Definition is_fetch (e : Event) : bool :=
  match e with EFetch _ => true | _ => false end.

Definition is_store (e : Event) : bool :=
  match e with EStore _ _ => true | _ => false end.

Definition is_inject (e : Event) : bool :=
  match e with EInject _ _ _ => true | _ => false end.

(** A call without the calls made inside it. *)
Definition outline (e : Event) : Event :=
  match e with
  | EFetch l => EFetch l
  | EStore l v => EStore l v
  | ENewInstance ti _ => ENewInstance ti []
  | EFactory f _ => EFactory f []
  | EInject i instance _ => EInject i instance []
  end.

(** The call that constructs the instance of a registration: the builder
    for a type, the factory for a factory, none for an instance. *)
Definition construction (registration : Registration) : list Event :=
  match registration with
  | TypeReg _ _ _ typeInfo => [ENewInstance typeInfo []]
  | InstanceReg _ _ _ _ => []
  | FactoryReg _ _ _ factory => [EFactory factory []]
  end.

(** The calls of [injection.injectSync] / [injection.inject] for a list of
    injections, in order. *)
Definition injections_of (instance : value) (injections : list nat) : list Event :=
  (fun i => EInject i instance []) <$> injections.

Section FurtherObservation.
Context {U : Type} (E : Env U).

(** A run of calls that change one container. *)
Definition mutateAll (this : Container) (ms : list mutation) (s : St U) : St U :=
  fold_left (fun s m => mutate this m s) ms s.

(** Injection [i] succeeds on [instance] in both protocols, with the same
    effect on the store and the same calls of the container:
    [injectSync] returns, [inject] reports no error. *)
Definition injection_agrees (this : Container) (instance : value) (i : nat) : Prop :=
  ∀ w, ∃ r err,
    inj_injectSync E i instance this w = (r, Return tt) ∧
    inj_inject E i instance this w = (r, Return err) ∧
    truthy err = false.

(** Every call into the caller's objects and into the builder takes the
    store to one related to it by [R]. *)
Definition respects (R : relation (World U)) : Prop :=
  (∀ n w, R w (lt_fetch E n w).1) ∧
  (∀ n instance w, R w (lt_store E n instance w)) ∧
  (∀ i instance this w, R w (world (inj_injectSync E i instance this w).1)) ∧
  (∀ i instance this w, R w (world (inj_inject E i instance this w).1)) ∧
  (∀ f this w, R w (world (fac_callSync E f this w).1)) ∧
  (∀ f this w, R w (world (fac_call E f this w).1)) ∧
  (∀ this typeInfo handlerConfigs w,
      R w (world (newInstanceSync E this typeInfo handlerConfigs w).1)) ∧
  (∀ this typeInfo handlerConfigs w,
      R w (world (newInstance E this typeInfo handlerConfigs w).1)).

(** The container [C] holds in [w'] what it held in [w]. *)
Definition unchanged (C : Container) (w w' : World U) : Prop :=
  view w' C = view w C.


(** [args.map(resolveSync)] as a builder does it: the constructor
    arguments are resolved through the container, in order, up to the
    first that fails. *)
Fixpoint resolveEachSync (this : Container) (types : list string) (s : St U)
    : St U * outcome (list value) :=
  match types with
  | [] => (s, Return [])
  | type :: rest =>
      match resolveSync E this (KeyStr type) s with
      | (s1, Throw e) => (s1, Throw e)
      | (s1, Return v) =>
          match resolveEachSync this rest s1 with
          | (s2, Throw e) => (s2, Throw e)
          | (s2, Return vs) => (s2, Return (v :: vs))
          end
      end
  end.

End FurtherObservation.

(** ** A concrete caller *)

Module Example.

(** The caller's state: what each caching lifetime policy holds, and a
    mark left by each injection that ran. *)
Record state := mkState {
  cached : gmap nat value;
  injected : list (nat * value)
}.

Definition with_user (f : state -> state) (w : World state) : World state :=
  mkWorld (registrationObjs w) (arrays w) (handlerConfigObjs w) (graphs w)
          (edgeArrays w) (next w) (f (user w)).

Definition quiet {A : Type} (w : World state) (o : outcome A)
    : St state * outcome A := (mkSt w [], o).

(** Lifetime [n] hands back what it was last given.  Injection [0]
    succeeds, injection [1] fails with ['fail'] after leaving its mark,
    any other throws ['boom'] in either protocol.  Factory [0] makes an
    object, factory [1] fails with ['fail'], any other throws ['boom'] in
    either protocol.  The builder makes an object named after the type.
    None of them calls the container. *)
Definition env : Env state := {|
  lt_fetch n w := (w, default VUndefined (cached (user w) !! n));
  lt_store n v w :=
    with_user (fun u => mkState (<[n := v]> (cached u)) (injected u)) w;
  inj_injectSync i instance C w :=
    quiet (with_user (fun u => mkState (cached u)
                                 (injected u ++ [(i, instance)])%list) w)
      (if (i =? 0)%nat then Return tt
       else if (i =? 1)%nat then Throw (VStr "fail") else Throw (VStr "boom"));
  inj_inject i instance C w :=
    quiet (with_user (fun u => mkState (cached u)
                                 (injected u ++ [(i, instance)])%list) w)
      (if (i =? 0)%nat then Return VNull
       else if (i =? 1)%nat then Return (VStr "fail") else Throw (VStr "boom"));
  fac_callSync f C w :=
    quiet w (if (f =? 0)%nat then Return (VObj "Made" 0)
             else if (f =? 1)%nat then Throw (VStr "fail") else Throw (VStr "boom"));
  fac_call f C w :=
    quiet w (if (f =? 0)%nat then Return (VNull, VObj "Made" 0)
             else if (f =? 1)%nat then Return (VStr "fail", VUndefined)
             else Throw (VStr "boom"));
  newInstanceSync C ti hcs w := quiet w (Return (VObj (ti_name ti) 0));
  newInstance C ti hcs w := quiet w (Return (VNull, VObj (ti_name ti) 0));
  instanceOf v c :=
    match v with VObj n _ => String.eqb n (ctor_name c) | _ => false end;
  fn_match f instance methodName := VBool true
|}.

(** The same caller with a builder that resolves the constructor
    arguments of the type through the container before it makes the
    object, to the depth [depth] of nested constructions. *)
Fixpoint nesting (depth : nat) : Env state :=
  match depth with
  | O => env
  | S depth =>
      {| lt_fetch := lt_fetch env;
         lt_store := lt_store env;
         inj_injectSync := inj_injectSync env;
         inj_inject := inj_inject env;
         fac_callSync := fac_callSync env;
         fac_call := fac_call env;
         newInstanceSync C ti hcs w :=
           match resolveEachSync (nesting depth) C (ti_args ti) (mkSt w []) with
           | (s, Throw e) => (s, Throw e)
           | (s, Return _) => (s, Return (VObj (ti_name ti) 0))
           end;
         newInstance := newInstance env;
         instanceOf := instanceOf env;
         fn_match := fn_match env |}
  end.

Definition empty : World state := mkWorld ∅ ∅ ∅ ∅ ∅ 0 (mkState ∅ []).

(** [new Container()] *)
Definition container : Container := (newContainer None empty).2.
Definition start : St state := mkSt (newContainer None empty).1 [].

(** [function Foo(/** Bar */bar) {}] and [function Bar(/** Foo */foo) {}] *)
Definition Foo : ctor := Ctor "Foo" [Some "Bar"] 1.
Definition Bar : ctor := Ctor "Bar" [Some "Foo"] 2.

(** another [function Foo() {}], and a [function Foo(/** Baz */baz) {}] *)
Definition plainFoo : ctor := Ctor "Foo" [] 3.
Definition FooBaz : ctor := Ctor "Foo" [Some "Baz"] 4.

(** [function Baz(/** Foo */foo) {}] *)
Definition BazFoo : ctor := Ctor "Baz" [Some "Foo"] 7.

(** [function Top(/** Leaf */leaf) {}] and [function Leaf() {}] *)
Definition Top : ctor := Ctor "Top" [Some "Leaf"] 5.
Definition Leaf : ctor := Ctor "Leaf" [] 6.

Definition foo : value := VObj "Foo" 10.
Definition other : value := VObj "Foo" 11.

Definition options (lifetime : option Lifetime) (injections : list nat) : signature :=
  SigOptions (mkOptions None lifetime (Some injections)).

(** after [container.registerType(Foo)] *)
Definition withFooType : St state :=
  (registerType container Foo SigNone start).1.

(** after [container.registerType(Leaf, { lifetime })] and
    [container.registerType(Top, { lifetime })], each with a caching
    lifetime of its own *)
Definition withTop : St state :=
  (registerType container Top (options (Some (UserLifetime 1)) [])
     (registerType container Leaf (options (Some (UserLifetime 2)) []) start).1).1.

(** after [container.registerInstance(foo, { lifetime, injections })],
    which registers under the key ["Foo"] *)
Definition withFoo (lifetime : option Lifetime) (injections : list nat) : St state :=
  (registerInstance container foo (options lifetime injections) start).1.

(** the registration that call writes *)
Definition fooRegistration (lifetime : option Lifetime) (injections : list nat)
    : Registration :=
  InstanceRegistration "Foo" lifetime (Some injections) foo.

(** after [container.registerFactory(f, { key: 'made' })] *)
Definition withFactory (f : nat) : St state :=
  (registerFactory container f (SigOptions (mkOptions (Some "made") None None)) start).1.

(** [s], with lifetime [n] holding [v] *)
Definition holding (n : nat) (v : value) (s : St state) : St state :=
  mkSt (with_user (fun u => mkState (<[n := v]> (cached u)) (injected u)) (world s))
       (trace s).

End Example.

(** * Properties *)

(** ** The dependency graph *)

Module DepGraphFacts.
Import DepGraph.

Lemma elem_of_expand map R b :
  b ∈ expand map R ↔ b ∈ R ∨ ∃ a, a ∈ R ∧ edge map a b.
Proof.
  unfold expand, edge. rewrite elem_of_union, elem_of_set_bind.
  setoid_rewrite elem_of_list_to_set. reflexivity.
Qed.

Lemma expand_incl map R : R ⊆ expand map R.
Proof. intros x Hx. apply elem_of_expand. by left. Qed.

Lemma expand_fixed_closed map R : expand map R = R → closed map R.
Proof.
  intros Heq a b Ha Hab. rewrite <- Heq. apply elem_of_expand. right. eauto.
Qed.

Lemma iterate_incl n map R : R ⊆ iterate n map R.
Proof.
  revert R. induction n as [|n IH]; intros R; simpl; [done|].
  etrans; [apply expand_incl | apply IH].
Qed.

Lemma iterate_fixed n map R : expand map R = R → iterate n map R = R.
Proof. intros Heq. induction n as [|n IH]; simpl; [done|]. by rewrite Heq. Qed.

Lemma edge_target map a b : edge map a b → b ∈ targets map.
Proof.
  unfold edge, successors, targets. intros Hb.
  destruct (map !! a) as [deps|] eqn:Hdeps; simpl in Hb; [|by apply elem_of_nil in Hb].
  apply elem_of_union_list. exists (list_to_set deps). split.
  - apply list_elem_of_fmap. exists (a, deps). split; [done|].
    by apply elem_of_map_to_list.
  - by apply elem_of_list_to_set.
Qed.

Lemma expand_bounded map id R :
  R ⊆ {[id]} ∪ targets map → expand map R ⊆ {[id]} ∪ targets map.
Proof.
  intros HR b [Hb|(a & _ & Hab)]%elem_of_expand; [by apply HR|].
  apply elem_of_union. right. by eapply edge_target.
Qed.

(** Within as many steps as the bound has room for, the iteration has
    stopped growing. *)
Lemma iterate_closed map (B : gset string) n R :
  (∀ R', R' ⊆ B → expand map R' ⊆ B) →
  R ⊆ B → size B < n + size R → closed map (iterate n map R).
Proof.
  intros HB. revert R. induction n as [|n IH]; intros R HR Hsize; simpl.
  - apply subseteq_size in HR. lia.
  - destruct (decide (expand map R = R)) as [Heq|Hne].
    + rewrite Heq. rewrite iterate_fixed by done. by apply expand_fixed_closed.
    + apply IH; [by apply HB|].
      assert (R ⊂ expand map R) as Hlt%subset_size.
      { split; [apply expand_incl|]. intros Hsub. apply Hne.
        apply (anti_symm (⊆)); [done | apply expand_incl]. }
      lia.
Qed.

Lemma reachable_closed map id : closed map (reachable map id).
Proof.
  unfold reachable. apply (iterate_closed map ({[id]} ∪ targets map)).
  - intros R' HR'. by apply expand_bounded.
  - apply union_subseteq_l.
  - rewrite size_singleton.
    pose proof (size_union_alt ({[id]} : gset string) (targets map)) as Hu.
    rewrite size_singleton in Hu.
    assert (size (targets map ∖ {[id]}) ≤ size (targets map))%nat as Hle.
    { apply subseteq_size. apply subseteq_difference_l. done. }
    lia.
Qed.

Lemma reachable_start map id : id ∈ reachable map id.
Proof. apply iterate_incl. by apply elem_of_singleton. Qed.

(** Every key that [id] depends on, directly or not, is in the set. *)
Lemma reachable_complete map id n :
  rtc (edge map) id n → n ∈ reachable map id.
Proof.
  revert n. apply rtc_ind_r.
  - apply reachable_start.
  - intros y z _ Hyz Hy. by eapply reachable_closed.
Qed.

Lemma getChain_cyclic map id :
  tc (edge map) id id →
  ∃ n, getChain map id = Throw (VErr (CyclicDependencyError n id)) ∧ edge map n id.
Proof.
  intros Htc.
  assert (∃ n, rtc (edge map) id n ∧ edge map n id) as (n & Hn & Hedge).
  { revert Htc. generalize id at 2 4. apply tc_ind_r.
    - intros y Hy. exists id. split; [apply rtc_refl | done].
    - intros y z Hy Hyz _. exists y. split; [by apply tc_rtc | done]. }
  unfold getChain.
  destruct (List.filter (closes map id) (elements (reachable map id)))
    as [|m rest] eqn:Hf.
  - exfalso. assert (In n (List.filter (closes map id) (elements (reachable map id)))) as Hin.
    { apply filter_In. split.
      - apply list_elem_of_In, elem_of_elements. by apply reachable_complete.
      - unfold closes. by apply bool_decide_eq_true. }
    rewrite Hf in Hin. destruct Hin.
  - exists m. split; [done|].
    assert (In m (List.filter (closes map id) (elements (reachable map id)))) as Hin
      by (rewrite Hf; by left).
    apply filter_In in Hin as [_ Hc]. unfold closes in Hc.
    by apply bool_decide_eq_true in Hc.
Qed.

(** [getChain] fails with nothing but the cycle error, and only on an
    edge back into [id]. *)
Lemma getChain_Throw map id e :
  getChain map id = Throw e →
  ∃ n, e = VErr (CyclicDependencyError n id) ∧ edge map n id.
Proof.
  unfold getChain.
  destruct (List.filter (closes map id) (elements (reachable map id)))
    as [|m rest] eqn:Hf; [done|].
  intros [= <-]. exists m. split; [done|].
  assert (In m (List.filter (closes map id) (elements (reachable map id)))) as Hin
    by (rewrite Hf; by left).
  apply filter_In in Hin as [_ Hc]. unfold closes in Hc.
  by apply bool_decide_eq_true in Hc.
Qed.

Lemma successors_add id depId map x :
  successors (add id depId map) x =
    if decide (x = id)
    then (if bool_decide (depId ∈@{list string} successors map id)
          then successors map id else (successors map id ++ [depId])%list)
    else successors map x.
Proof.
  unfold add. case_bool_decide as Hin.
  - by destruct (decide (x = id)) as [->|].
  - unfold successors at 1. destruct (decide (x = id)) as [->|Hne].
    + by rewrite lookup_insert_eq.
    + by rewrite lookup_insert_ne.
Qed.

Lemma edge_add id depId map a b :
  edge (add id depId map) a b ↔ edge map a b ∨ (a = id ∧ b = depId).
Proof.
  unfold edge. rewrite successors_add.
  destruct (decide (a = id)) as [->|Hne].
  - case_bool_decide as Hin.
    + split; [by left | intros [?|[_ ->]]; done].
    + rewrite elem_of_app, list_elem_of_singleton. intuition congruence.
  - intuition congruence.
Qed.

(** The edges after [graph.add(id, a)] for each [a] of [args]. *)
Lemma edge_add_all id args map a b :
  edge (fold_left (fun m arg => add id arg m) args map) a b ↔
  edge map a b ∨ (a = id ∧ b ∈ args).
Proof.
  revert map. induction args as [|arg args IH]; intros map; simpl.
  - split; [by left | intros [?|[_ ?%elem_of_nil]]; done].
  - rewrite IH, edge_add, elem_of_cons. tauto.
Qed.

End DepGraphFacts.


(** ** The store *)

Section StoreFacts.
Context {U : Type}.
Implicit Types (w : World U) (s : St U) (C : Container).

Lemma registrationsOf_putRegistration C k r w C' :
  registrationsOf (putRegistration C k r w) C' =
    if decide (registrations C' = registrations C)
    then <[k := r]> (registrationsOf w C)
    else registrationsOf w C'.
Proof.
  unfold registrationsOf, putRegistration; simpl. case_decide as Heq.
  - by rewrite Heq, lookup_insert_eq.
  - by rewrite lookup_insert_ne.
Qed.

Lemma handlerConfigsOf_pushHandlerConfig C config w C' :
  handlerConfigsOf (pushHandlerConfig C config w) C' =
    if decide (handlerConfigs C' = handlerConfigs C)
    then (handlerConfigsOf w C ++ [config])%list
    else handlerConfigsOf w C'.
Proof.
  unfold handlerConfigsOf, pushHandlerConfig; simpl. case_decide as Heq.
  - by rewrite Heq, lookup_insert_eq.
  - by rewrite lookup_insert_ne.
Qed.

(** An own property is found before the prototype is looked at. *)
Lemma getRegistration_Own w C key registration :
  registrationsOf w C !! key = Some registration →
  getRegistration w C key = Own registration.
Proof. unfold getRegistration. by intros ->. Qed.


Lemma getRegistration_Missing w C key :
  getRegistration w C key = Missing ↔
  registrationsOf w C !! key = None ∧ key ∉ objectPrototype.
Proof.
  unfold getRegistration.
  destruct (registrationsOf w C !! key); [by split; [|intros []]|].
  case_bool_decide; split; try done; by intros [].
Qed.

Lemma getRegistration_Inherited w C key :
  getRegistration w C key = Inherited ↔
  registrationsOf w C !! key = None ∧ key ∈ objectPrototype.
Proof.
  unfold getRegistration.
  destruct (registrationsOf w C !! key); [by split; [|intros []]|].
  case_bool_decide; split; try done; by intros [].
Qed.


(** The edges under a key: the content of the array the map holds there. *)
Lemma graphOf_lookup w C key :
  graphOf w C !! key = (fun creator => arrayOf w creator key) <$> graphMapOf w C !! key.
Proof.
  unfold graphOf. rewrite map_lookup_imap. by destruct (graphMapOf w C !! key).
Qed.

Lemma graphOf_dom w C : dom (graphOf w C) = dom (graphMapOf w C).
Proof.
  apply set_eq. intros key. rewrite !elem_of_dom, graphOf_lookup.
  destruct (graphMapOf w C !! key); simpl; split; intros [? ?]; by eauto.
Qed.

(** What [graph.add] writes: at most one entry of the map of its graph,
    and the one array under [id] that this map holds or gets. *)
Lemma graphMapOf_graphAdd C id depId w C' :
  graphMapOf (graphAdd C id depId w) C' =
    if decide (graph C' = graph C)
    then match graphMapOf w C !! id with
         | Some _ => graphMapOf w C
         | None => <[id := graph C]> (graphMapOf w C)
         end
    else graphMapOf w C'.
Proof.
  unfold graphAdd.
  destruct (graphMapOf w C !! id) as [creator|] eqn:Hid.
  - assert (graphMapOf (if bool_decide (depId ∈@{list string} arrayOf w creator id)
                        then w
                        else with_edgeArrays
                               <[(creator, id) := (arrayOf w creator id ++ [depId])%list]> w)
              C' = graphMapOf w C') as -> by (by case_bool_decide).
    case_decide as Heq; [|done]. unfold graphMapOf. by rewrite Heq.
  - unfold graphMapOf at 1. simpl. case_decide as Heq.
    + by rewrite Heq, lookup_insert_eq.
    + by rewrite lookup_insert_ne.
Qed.

(** The array that [graph.add(id, ...)] on [C] pushes on: the one the map
    of [C] holds under [id], or the one it creates there. *)
Lemma arrayOf_graphAdd C id depId w creator key :
  arrayOf (graphAdd C id depId w) creator key =
    if decide (creator = default (graph C) (graphMapOf w C !! id) ∧ key = id)
    then if bool_decide (depId ∈@{list string} DepGraph.successors (graphOf w C) id)
         then DepGraph.successors (graphOf w C) id
         else (DepGraph.successors (graphOf w C) id ++ [depId])%list
    else arrayOf w creator key.
Proof.
  unfold graphAdd, DepGraph.successors. rewrite graphOf_lookup.
  destruct (graphMapOf w C !! id) as [c|] eqn:Hid;
    cbn [default from_option Datatypes.id fmap option_fmap option_map].
  - case_bool_decide as Hin.
    + case_decide as Heq; [|done]. by destruct Heq as [-> ->].
    + unfold arrayOf at 1. cbn [edgeArrays with_edgeArrays].
      case_decide as Heq.
      * destruct Heq as [-> ->]. by rewrite lookup_insert_eq.
      * rewrite lookup_insert_ne; [done|]. intros [= <- <-]. by apply Heq.
  - rewrite bool_decide_false by apply not_elem_of_nil.
    unfold arrayOf at 1. cbn [edgeArrays with_edgeArrays with_graphs].
    case_decide as Heq.
    + destruct Heq as [-> ->]. by rewrite lookup_insert_eq.
    + rewrite lookup_insert_ne; [done|]. intros [= <- <-]. by apply Heq.
Qed.

Lemma graphAdd_frame C id depId w :
  registrationObjs (graphAdd C id depId w) = registrationObjs w ∧
  arrays (graphAdd C id depId w) = arrays w ∧
  handlerConfigObjs (graphAdd C id depId w) = handlerConfigObjs w ∧
  next (graphAdd C id depId w) = next w ∧
  user (graphAdd C id depId w) = user w.
Proof.
  unfold graphAdd. destruct (graphMapOf w C !! id) as [c|]; [|done].
  by case_bool_decide.
Qed.

(** On the graph it is called on, [graph.add] records the edge. *)
Lemma graphOf_graphAdd C id depId w :
  graphOf (graphAdd C id depId w) C = DepGraph.add id depId (graphOf w C).
Proof.
  apply map_eq. intros key.
  rewrite graphOf_lookup, graphMapOf_graphAdd, decide_True by done.
  assert (DepGraph.successors (graphOf w C) id =
          match graphMapOf w C !! id with Some c => arrayOf w c id | None => [] end)
    as Hs.
  { unfold DepGraph.successors. rewrite graphOf_lookup.
    by destruct (graphMapOf w C !! id). }
  assert (∀ c, arrayOf (graphAdd C id depId w) c key =
               if decide (c = default (graph C) (graphMapOf w C !! id) ∧ key = id)
               then if bool_decide (depId ∈@{list string}
                                      DepGraph.successors (graphOf w C) id)
                    then DepGraph.successors (graphOf w C) id
                    else (DepGraph.successors (graphOf w C) id ++ [depId])%list
               else arrayOf w c key) as Harr
    by (intros c; apply arrayOf_graphAdd).
  unfold DepGraph.add.
  destruct (decide (key = id)) as [->|Hne].
  - destruct (graphMapOf w C !! id) as [c|] eqn:Hid.
    + rewrite Hid. cbn [fmap option_fmap option_map]. rewrite Harr.
      cbn [default from_option Datatypes.id]. rewrite decide_True by done.
      case_bool_decide as Hin.
      * by rewrite graphOf_lookup, Hid, Hs.
      * by rewrite lookup_insert_eq.
    + rewrite lookup_insert_eq. cbn [fmap option_fmap option_map]. rewrite Harr.
      cbn [default from_option Datatypes.id]. rewrite decide_True by done.
      rewrite Hs. rewrite bool_decide_false by apply not_elem_of_nil.
      by rewrite lookup_insert_eq.
  - assert (graphOf w C !! key =
            (if bool_decide (depId ∈@{list string} DepGraph.successors (graphOf w C) id)
             then graphOf w C
             else <[id := (DepGraph.successors (graphOf w C) id ++ [depId])%list]>
                    (graphOf w C)) !! key) as <-.
    { case_bool_decide; [done|]. by rewrite lookup_insert_ne. }
    rewrite graphOf_lookup.
    assert (match graphMapOf w C !! id with
            | Some _ => graphMapOf w C
            | None => <[id := graph C]> (graphMapOf w C)
            end !! key = graphMapOf w C !! key) as ->.
    { destruct (graphMapOf w C !! id); [done|]. by rewrite lookup_insert_ne. }
    destruct (graphMapOf w C !! key) as [c'|]; [|done].
    cbn [fmap option_fmap option_map]. rewrite Harr.
    rewrite decide_False; [done|]. by intros [_ ?].
Qed.

(** The loop of [registerType] that feeds the graph writes to the graph
    and its arrays, and to nothing else. *)
Lemma addEdges_frame C id args s :
  let s' := fold_left (fun s arg => on_world (graphAdd C id arg) s) args s in
  trace s' = trace s ∧
  registrationObjs (world s') = registrationObjs (world s) ∧
  arrays (world s') = arrays (world s) ∧
  handlerConfigObjs (world s') = handlerConfigObjs (world s) ∧
  next (world s') = next (world s) ∧
  user (world s') = user (world s).
Proof.
  cbv zeta. revert s. induction args as [|arg args IH]; intros s; simpl.
  - repeat split.
  - destruct (IH (on_world (graphAdd C id arg) s)) as (H1 & H2 & H3 & H4 & H5 & H6).
    rewrite H1, H2, H3, H4, H5, H6. cbn [on_world world trace].
    destruct (graphAdd_frame C id arg (world s)) as (-> & -> & -> & -> & ->).
    repeat split.
Qed.

Lemma addEdges_graphOf C id args s :
  graphOf (world (fold_left (fun s arg => on_world (graphAdd C id arg) s) args s)) C =
    fold_left (fun m arg => DepGraph.add id arg m) args (graphOf (world s) C).
Proof.
  revert s. induction args as [|arg args IH]; intros s; simpl; [done|].
  rewrite IH. cbn [on_world world]. by rewrite graphOf_graphAdd.
Qed.

Lemma addEdges_registrationsOf C id args s C' :
  registrationsOf
    (world (fold_left (fun s arg => on_world (graphAdd C id arg) s) args s)) C' =
  registrationsOf (world s) C'.
Proof.
  unfold registrationsOf.
  by destruct (addEdges_frame C id args s) as (_ & -> & _).
Qed.

(** The maps after the loop: that of [C] has got an entry under [id], for
    an array of its own, when it had none and the loop ran at all; no
    other entry of any map has changed. *)
Lemma addEdges_graphMapOf C id args s C' key :
  graphMapOf (world (fold_left (fun s arg => on_world (graphAdd C id arg) s) args s)) C'
    !! key =
  if decide (graph C' = graph C ∧ key = id ∧ graphMapOf (world s) C !! id = None
             ∧ args ≠ [])
  then Some (graph C)
  else graphMapOf (world s) C' !! key.
Proof.
  revert s. induction args as [|arg args IH]; intros s; simpl.
  - rewrite decide_False; [done|]. by intros (_ & _ & _ & ?).
  - rewrite IH. cbn [on_world world]. rewrite !graphMapOf_graphAdd.
    rewrite (decide_True (P := graph C = graph C)) by done.
    destruct (decide (graph C' = graph C)) as [HC|HC].
    + assert (graphMapOf (world s) C' = graphMapOf (world s) C) as HCC
        by (unfold graphMapOf; by rewrite HC).
      rewrite HCC.
      destruct (graphMapOf (world s) C !! id) as [c|] eqn:Hid.
      * rewrite Hid. rewrite !decide_False; [done| |]; by intros (_ & _ & ? & _).
      * rewrite lookup_insert_eq.
        rewrite decide_False by (by intros (_ & _ & ? & _)).
        destruct (decide (key = id)) as [->|Hne].
        -- rewrite lookup_insert_eq. by rewrite decide_True.
        -- rewrite lookup_insert_ne by done. rewrite decide_False; [done|].
           by intros (_ & ? & _).
    + rewrite !decide_False; [done| |]; by intros (? & _).
Qed.

(** The arrays after the loop: none has changed but the one under [id]
    that the map of [C] holds, or has got. *)
Lemma addEdges_arrayOf C id args s creator key :
  ¬ (creator = default (graph C) (graphMapOf (world s) C !! id) ∧ key = id) →
  arrayOf (world (fold_left (fun s arg => on_world (graphAdd C id arg) s) args s))
    creator key = arrayOf (world s) creator key.
Proof.
  revert s. induction args as [|arg args IH]; intros s Hne; simpl; [done|].
  rewrite IH; cbn [on_world world].
  - rewrite arrayOf_graphAdd. by rewrite decide_False.
  - rewrite graphMapOf_graphAdd, decide_True by done.
    destruct (graphMapOf (world s) C !! id) as [c|] eqn:Hid.
    + by rewrite Hid.
    + by rewrite lookup_insert_eq.
Qed.

End StoreFacts.

(** ** Registration and the dependency graph *)

Section RegisterType.
Context {U : Type}.
Implicit Types (s : St U) (C this : Container).

(** The graph of [this] when [registerType] validates it. *)
Lemma registerType_graph this typeName args s r :
  graphOf (world (fold_left (fun s arg => on_world (graphAdd this typeName arg) s) args
                    (on_world (putRegistration this typeName r) s))) this =
  fold_left (fun m arg => DepGraph.add typeName arg m) args (graphOf (world s) this).
Proof. by rewrite addEdges_graphOf. Qed.

Lemma registerType_registrations this typeName args s r C :
  registrationsOf
    (world (fold_left (fun s arg => on_world (graphAdd this typeName arg) s) args
              (on_world (putRegistration this typeName r) s))) C =
  if decide (registrations C = registrations this)
  then <[typeName := r]> (registrationsOf (world s) this)
  else registrationsOf (world s) C.
Proof.
  rewrite addEdges_registrationsOf. simpl. apply registrationsOf_putRegistration.
Qed.

(** C1 (as amended).  When [registerType] fails in the type-info
    extraction (no key, or a parameter of unknown type), nothing has
    changed.  When it fails in the cycle validation, the error is the
    cyclic-dependency error, the new type registration is already in the
    store under its key, in place of whatever was there, and the entries
    under other keys and of other containers are as before. *)
Theorem registerType_failure_store this c args s s' e :
  registerType this c args s = (s', Throw e) →
  let options := resolveSignatureToOptions args in
  (getTypeInfo c (opt_key options) = Throw e ∧ s' = s) ∨
  (∃ typeInfo n,
      getTypeInfo c (opt_key options) = Return typeInfo ∧
      e = VErr (CyclicDependencyError n (ti_name typeInfo)) ∧
      registrationsOf (world s') this =
        <[ti_name typeInfo :=
            TypeRegistration (ti_name typeInfo) (opt_lifetime options)
              (opt_injections options) typeInfo]>
          (registrationsOf (world s) this) ∧
      (∀ key, key ≠ ti_name typeInfo →
              registrationsOf (world s') this !! key =
              registrationsOf (world s) this !! key) ∧
      (∀ C, registrations C ≠ registrations this →
            registrationsOf (world s') C = registrationsOf (world s) C)).
Proof.
  unfold registerType. intros Hrun.
  set (options := resolveSignatureToOptions args) in *.
  destruct (getTypeInfo c (opt_key options)) as [typeInfo|e'] eqn:Hti.
  - right. rewrite registerType_graph in Hrun. revert Hrun.
    destruct (DepGraph.getChain _ _) as [chain|e'] eqn:Hchain; [done|].
    intros [= <- <-].
    apply DepGraphFacts.getChain_Throw in Hchain as (n & -> & _).
    exists typeInfo, n. split; [done|]. split; [done|].
    split; [|split].
    + rewrite registerType_registrations. by rewrite decide_True.
    + intros key Hkey. rewrite registerType_registrations.
      rewrite decide_True by done. by rewrite lookup_insert_ne.
    + intros C HC. rewrite registerType_registrations. by rewrite decide_False.
  - left. by injection Hrun as <- <-.
Qed.

(** C7.  A type whose constructor names the type itself, or names a key
    from which the graph leads back to the type, is refused by
    [registerType] with the cyclic-dependency error; the call reaches
    neither the builder nor a factory and leaves the caller's objects
    as they were. *)
Theorem registerType_rejects_cycles this c args s typeInfo :
  getTypeInfo c (opt_key (resolveSignatureToOptions args)) = Return typeInfo →
  (ti_name typeInfo ∈ ti_args typeInfo ∨
   ∃ d, d ∈ ti_args typeInfo ∧
        rtc (DepGraph.edge (graphOf (world s) this)) d (ti_name typeInfo)) →
  ∃ n s',
    registerType this c args s =
      (s', Throw (VErr (CyclicDependencyError n (ti_name typeInfo)))) ∧
    trace s' = trace s ∧
    user (world s') = user (world s).
Proof.
  intros Hti Hdep. unfold registerType. rewrite Hti.
  rewrite registerType_graph.
  set (g := fold_left _ (ti_args typeInfo) (graphOf (world s) this)).
  assert (tc (DepGraph.edge g) (ti_name typeInfo) (ti_name typeInfo)) as Hcycle.
  { assert (∀ a b, DepGraph.edge (graphOf (world s) this) a b → DepGraph.edge g a b)
      as Hold by (intros a b Hab; apply DepGraphFacts.edge_add_all; by left).
    assert (∀ d, d ∈ ti_args typeInfo → DepGraph.edge g (ti_name typeInfo) d)
      as Hnew by (intros d Hd; apply DepGraphFacts.edge_add_all; by right).
    destruct Hdep as [Hself|(d & Hd & Hback)].
    - apply tc_once. by apply Hnew.
    - eapply tc_rtc_r; [apply tc_once, Hnew, Hd|].
      eapply rtc_subrel; [|exact Hback]. exact Hold. }
  apply DepGraphFacts.getChain_cyclic in Hcycle as (n & -> & _).
  eexists n, _. split; [done|].
  destruct (addEdges_frame this (ti_name typeInfo) (ti_args typeInfo)
              (on_world (putRegistration this (ti_name typeInfo)
                 (TypeRegistration (ti_name typeInfo)
                    (opt_lifetime (resolveSignatureToOptions args))
                    (opt_injections (resolveSignatureToOptions args)) typeInfo)) s))
    as (Htrace & _ & _ & _ & _ & Huser).
  split; [exact Htrace | exact Huser].
Qed.

End RegisterType.

(** C1 does not hold as stated.  In [new Container().registerType(Foo)
    .registerType(Bar)], with [Foo] depending on [Bar] and [Bar] on [Foo],
    the second call throws the cyclic-dependency error, and [Bar], absent
    before the call, is in the store after it. *)
Lemma registerType_cycle_commits :
  let s1 := Example.withFooType in
  let r := registerType Example.container Example.Bar SigNone s1 in
  r.2 = Throw (VErr (CyclicDependencyError "Foo" "Bar")) ∧
  registrationsOf (world s1) Example.container !! "Bar" = None ∧
  registrationsOf (world r.1) Example.container !! "Bar" =
    Some (TypeReg "Bar" Transient [] (TypeInfo "Bar" ["Foo"] Example.Bar)) ∧
  registrationsOf (world r.1) Example.container ≠
    registrationsOf (world s1) Example.container.
Proof.
  cbv zeta.
  assert (registrationsOf
            (world Example.withFooType)
            Example.container !! "Bar" = None) as Hbefore by (vm_compute; reflexivity).
  assert (registrationsOf
            (world (registerType Example.container Example.Bar SigNone
               Example.withFooType).1)
            Example.container !! "Bar" =
          Some (TypeReg "Bar" Transient [] (TypeInfo "Bar" ["Foo"] Example.Bar)))
    as Hafter by (vm_compute; reflexivity).
  split; [vm_compute; reflexivity|]. split; [exact Hbefore|]. split; [exact Hafter|].
  intros Heq. rewrite Heq, Hbefore in Hafter. discriminate Hafter.
Qed.

(** [registerType(Bar)] after [registerType(Foo)], which fails in the
    validation, and [registerType(function() {})], which fails in the
    extraction. *)
Lemma registerType_failure_store_witness :
  let s1 := Example.withFooType in
  let s2 := (registerType Example.container Example.Bar SigNone s1).1 in
  let anonymous := Ctor EmptyString [] 4 in
  registerType Example.container Example.Bar SigNone s1 =
    (s2, Throw (VErr (CyclicDependencyError "Foo" "Bar"))) ∧
  (∃ typeInfo,
      getTypeInfo Example.Bar None = Return typeInfo ∧
      registrationsOf (world s2) Example.container =
        <[ti_name typeInfo := TypeRegistration (ti_name typeInfo) None None typeInfo]>
          (registrationsOf (world s1) Example.container)) ∧
  registerType Example.container anonymous SigNone s1 =
    (s1, Throw (VErr MissingKeyError)) ∧
  getTypeInfo anonymous None = Throw (VErr MissingKeyError).
Proof.
  cbv zeta.
  assert (registerType Example.container Example.Bar SigNone Example.withFooType =
          ((registerType Example.container Example.Bar SigNone Example.withFooType).1,
           Throw (VErr (CyclicDependencyError "Foo" "Bar")))) as Hcycle
    by (vm_compute; reflexivity).
  assert (registerType Example.container (Ctor EmptyString [] 4) SigNone
            Example.withFooType =
          (Example.withFooType, Throw (VErr MissingKeyError))) as Hmissing
    by reflexivity.
  split; [exact Hcycle|]. split; [|split; [exact Hmissing|]].
  - destruct (registerType_failure_store _ _ _ _ _ _ Hcycle)
      as [[Hti _]|(typeInfo & n & Hti & _ & Hstore & _)].
    + discriminate Hti.
    + exists typeInfo. split; [exact Hti | exact Hstore].
  - destruct (registerType_failure_store _ _ _ _ _ _ Hmissing)
      as [[Hti _]|(typeInfo & n & Hti & _)].
    + exact Hti.
    + discriminate Hti.
Defined.

(** [Bar], which depends on [Foo], registered after [Foo], which depends
    on [Bar]. *)
Lemma registerType_rejects_cycles_witness :
  getTypeInfo Example.Bar None = Return (TypeInfo "Bar" ["Foo"] Example.Bar) ∧
  ∃ n s',
    registerType Example.container Example.Bar SigNone
      Example.withFooType =
      (s', Throw (VErr (CyclicDependencyError n "Bar"))) ∧
    trace s' = trace Example.withFooType ∧
    user (world s') =
      user (world Example.withFooType).
Proof.
  split; [reflexivity|].
  apply (registerType_rejects_cycles Example.container Example.Bar SigNone
           Example.withFooType
           (TypeInfo "Bar" ["Foo"] Example.Bar)).
  - reflexivity.
  - right. exists "Foo". split.
    + simpl. apply list_elem_of_here.
    + apply rtc_once. unfold DepGraph.edge. vm_compute.
      apply list_elem_of_here.
Defined.
(** ** Resolution *)

Section Resolve.
Context {U : Type} (E : Env U).
Implicit Types (s : St U) (this : Container) (registration : Registration).

Lemma fetch_trace l s :
  trace (fetch E l s).1 = (trace s ++ [EFetch l])%list.
Proof. unfold fetch. destruct l as [|n]; [done|]. by destruct (lt_fetch E n (world s)). Qed.

Lemma store_trace l instance s :
  trace (store E l instance s) = (trace s ++ [EStore l instance])%list.
Proof. by destruct l. Qed.

(** A call of an object that is handed the container is one entry of the
    trace, whatever was called inside it. *)
Lemma call_trace {A : Type} (e : list Event → Event) (f : World U → St U * outcome A) s :
  trace (call e f s).1 = (trace s ++ [e (trace (f (world s)).1)])%list ∧
  world (call e f s).1 = world (f (world s)).1 ∧
  (call e f s).2 = (f (world s)).2.
Proof. unfold call. by destruct (f (world s)). Qed.

Lemma constructSync_trace this registration s :
  ∃ built, trace (constructSync E this registration s).1 = (trace s ++ built)%list ∧
           outline <$> built = construction registration.
Proof.
  destruct registration as [? ? ? ti|? ? ? v|? ? ? f]; cbn [constructSync construction].
  - eexists. split; [apply call_trace|done].
  - exists []. by rewrite app_nil_r.
  - eexists. split; [apply call_trace|done].
Qed.

Lemma construct_trace this registration s :
  ∃ built, trace (construct E this registration s).1 = (trace s ++ built)%list ∧
           outline <$> built = construction registration.
Proof.
  destruct registration as [? ? ? ti|? ? ? v|? ? ? f]; cbn [construct construction].
  - eexists. split; [apply call_trace|done].
  - exists []. by rewrite app_nil_r.
  - eexists. split; [apply call_trace|done].
Qed.

(** The loop of [injectSync]: the injections are called in list order, up
    to the first that throws. *)
Lemma injectEachSync_in_order this instance injections s s' o :
  injectEachSync E this instance injections s = (s', o) →
  ∃ injected,
    trace s' = (trace s ++ injected)%list ∧
    match o with
    | Return _ => outline <$> injected = injections_of instance injections
    | Throw e =>
        ∃ pre i post w,
          injections = (pre ++ i :: post)%list ∧
          outline <$> injected = injections_of instance (pre ++ [i]) ∧
          (inj_injectSync E i instance this w).2 = Throw e
    end.
Proof.
  revert s. induction injections as [|i rest IH]; intros s; cbn [injectEachSync].
  - intros [= <- <-]. exists []. by rewrite app_nil_r.
  - destruct (call_trace (EInject i instance) (inj_injectSync E i instance this) s)
      as (Htrace & _ & Hout).
    destruct (call (EInject i instance) (inj_injectSync E i instance this) s)
      as [s1 [[]|e]]; cbn [fst snd] in Htrace, Hout.
    + intros Hrest. destruct (IH _ Hrest) as (injected & Ht & Ho).
      eexists (_ :: injected). split.
      { rewrite Ht, Htrace. by rewrite <- app_assoc. }
      destruct o as [[]|e].
      * cbn [fmap list_fmap outline injections_of]. by rewrite Ho.
      * destruct Ho as (pre & j & post & w & -> & Ho & Hthrow).
        exists (i :: pre), j, post, w. split; [done|]. split; [|done].
        cbn [fmap list_fmap outline injections_of app]. by rewrite Ho.
    + intros [= <- <-]. eexists [_]. split; [exact Htrace|].
      exists [], i, rest, (world s). by split.
Qed.

(** The loop of [inject]: the injections are started in list order; one
    that throws ends the loop, one that reports an error does not. *)
Lemma injectEach_in_order this instance injections reported s s' o :
  injectEach E this instance injections reported s = (s', o) →
  ∃ injected,
    trace s' = (trace s ++ injected)%list ∧
    match o with
    | Return r =>
        outline <$> injected = injections_of instance injections ∧
        (∀ e, r = Some e →
              reported = Some e ∨
              (reported = None ∧ truthy e = true ∧
               ∃ pre i post w,
                 injections = (pre ++ i :: post)%list ∧
                 (inj_inject E i instance this w).2 = Return e)) ∧
        (r = None → reported = None)
    | Throw e =>
        ∃ pre i post w,
          injections = (pre ++ i :: post)%list ∧
          outline <$> injected = injections_of instance (pre ++ [i]) ∧
          (inj_inject E i instance this w).2 = Throw e
    end.
Proof.
  revert s reported. induction injections as [|i rest IH]; intros s reported;
    cbn [injectEach].
  - intros [= <- <-]. exists []. rewrite app_nil_r. split; [done|].
    split; [done|]. split; [by left|done].
  - destruct (call_trace (EInject i instance) (inj_inject E i instance this) s)
      as (Htrace & _ & Hout).
    destruct (call (EInject i instance) (inj_inject E i instance this) s)
      as [s1 [err|e]]; cbn [fst snd] in Htrace, Hout.
    + intros Hrest. destruct (IH _ _ Hrest) as (injected & Ht & Ho).
      eexists (_ :: injected). split.
      { rewrite Ht, Htrace. by rewrite <- app_assoc. }
      destruct o as [r|e].
      * destruct Ho as (Ho & Herr & Hnone). split; [|split].
        -- cbn [fmap list_fmap outline injections_of]. by rewrite Ho.
        -- intros e Hr. destruct (Herr e Hr) as [Hrep|(Hrep & He & Hin)].
           ++ destruct reported as [e'|]; [by left|].
              destruct (truthy err) eqn:Htruthy; [|done].
              injection Hrep as <-. right. split; [done|]. split; [done|].
              exists [], i, rest, (world s). by split.
           ++ destruct reported as [e'|]; [done|].
              destruct (truthy err); [done|].
              right. split; [done|]. split; [done|].
              destruct Hin as (pre & j & post & w & -> & Hj).
              by exists (i :: pre), j, post, w.
        -- intros Hr. specialize (Hnone Hr). destruct reported as [e'|]; [done|done].
      * destruct Ho as (pre & j & post & w & -> & Ho & Hthrow).
        exists (i :: pre), j, post, w. split; [done|]. split; [|done].
        cbn [fmap list_fmap outline injections_of app]. by rewrite Ho.
    + intros [= <- <-]. eexists [_]. split; [exact Htrace|].
      exists [], i, rest, (world s). by split.
Qed.

(** Calls of injections and nothing else. *)
Lemma outline_injections injected instance injections :
  outline <$> injected = injections_of instance injections →
  forallb is_inject injected = true.
Proof.
  revert injections. induction injected as [|e injected IH]; intros injections; [done|].
  destruct injections as [|i rest]; [done|].
  cbn [fmap list_fmap injections_of]. intros [= He Hrest].
  cbn [forallb]. rewrite (IH rest Hrest). by destruct e.
Qed.

Lemma injectEachSync_trace this instance injections s :
  ∃ evs, trace (injectEachSync E this instance injections s).1 = (trace s ++ evs)%list ∧
         forallb is_inject evs = true.
Proof.
  destruct (injectEachSync E this instance injections s) as [s' o] eqn:Hrun.
  destruct (injectEachSync_in_order _ _ _ _ _ _ Hrun) as (injected & Ht & Ho).
  exists injected. split; [done|]. destruct o as [[]|e].
  - by eapply outline_injections.
  - destruct Ho as (pre & i & post & w & _ & Ho & _). by eapply outline_injections.
Qed.

Lemma injectSync_trace this instance key s :
  ∃ evs, trace (injectSync E this instance key s).1 = (trace s ++ evs)%list ∧
         forallb is_inject evs = true.
Proof.
  unfold injectSync. destruct (getRegistration _ _ _).
  - apply injectEachSync_trace.
  - exists []. by rewrite app_nil_r.
  - exists []. by rewrite app_nil_r.
Qed.

Lemma injectEach_trace this instance injections reported s :
  ∃ evs, trace (injectEach E this instance injections reported s).1 = (trace s ++ evs)%list ∧
         forallb is_inject evs = true.
Proof.
  destruct (injectEach E this instance injections reported s) as [s' o] eqn:Hrun.
  destruct (injectEach_in_order _ _ _ _ _ _ _ Hrun) as (injected & Ht & Ho).
  exists injected. split; [done|]. destruct o as [r|e].
  - destruct Ho as (Ho & _). by eapply outline_injections.
  - destruct Ho as (pre & i & post & w & _ & Ho & _). by eapply outline_injections.
Qed.

Lemma inject_trace this instance key s :
  ∃ evs, trace (inject E this instance key s).1 = (trace s ++ evs)%list ∧
         forallb is_inject evs = true.
Proof.
  unfold inject. destruct (getRegistration _ _ _).
  - apply injectEach_trace.
  - exists []. by rewrite app_nil_r.
  - exists []. by rewrite app_nil_r.
Qed.





(** C6.  When [fetch()] hands back an instance, [resolveSync] returns it
    and [resolve] passes it to the callback at once: the call of
    [fetch] is the only call made, so neither the builder (which does
    the interception wrapping) nor a factory nor an injection runs. *)
Theorem cache_hit this key registration s s1 existing :
  registrationsOf (world s) this !! normalizeKey key = Some registration →
  fetch E (reg_lifetime registration) s = (s1, existing) →
  truthy existing = true →
  resolveSync E this key s = (s1, Return existing) ∧
  resolve E this key s = (s1, Delivered None existing) ∧
  trace s1 = (trace s ++ [EFetch (reg_lifetime registration)])%list.
Proof.
  intros Hreg%getRegistration_Own Hfetch Htruthy.
  unfold resolveSync, resolve, resolveRegistrationSync, resolveRegistration.
  rewrite Hreg, Hfetch, Htruthy. repeat split.
  pose proof (fetch_trace (reg_lifetime registration) s) as Ht.
  by rewrite Hfetch in Ht.
Qed.


(** C2 (as amended).  On a miss, after a construction that succeeded:
    when an injection fails, [resolve] passes the instance to the
    callback together with the error, while [resolveSync] throws the
    error and hands over no instance; in neither protocol is [store]
    called.  When the injections succeed, both protocols call [store]
    with the instance and hand it over. *)
Theorem injection_outcome this key registration s s1 existing :
  registrationsOf (world s) this !! normalizeKey key = Some registration →
  fetch E (reg_lifetime registration) s = (s1, existing) →
  truthy existing = false →
  (∀ s2 err instance s3 r,
      construct E this registration s1 = (s2, Return (err, instance)) →
      truthy err = false →
      inject E this instance (Some (normalizeKey key)) s2 = (s3, Return r) →
      ∃ evs, trace s3 = (trace s ++ evs)%list ∧ forallb (negb ∘ is_store) evs = true ∧
        match r with
        | Some e =>
            resolve E this key s = (s3, Delivered (Some e) instance)
        | None =>
            resolve E this key s =
              (store E (reg_lifetime registration) instance s3, Delivered None instance) ∧
            trace (store E (reg_lifetime registration) instance s3) =
              (trace s3 ++ [EStore (reg_lifetime registration) instance])%list
        end) ∧
  (∀ s2 instance s3 o,
      constructSync E this registration s1 = (s2, Return instance) →
      injectSync E this instance (Some (normalizeKey key)) s2 = (s3, o) →
      ∃ evs, trace s3 = (trace s ++ evs)%list ∧ forallb (negb ∘ is_store) evs = true ∧
        match o with
        | Throw e =>
            resolveSync E this key s = (s3, Throw e) ∧
            returned (resolveSync E this key s).2 = None
        | Return _ =>
            resolveSync E this key s =
              (store E (reg_lifetime registration) instance s3, Return instance) ∧
            trace (store E (reg_lifetime registration) instance s3) =
              (trace s3 ++ [EStore (reg_lifetime registration) instance])%list
        end).
Proof.
  intros Hreg%getRegistration_Own Hfetch Hfalsy.
  assert (trace s1 = (trace s ++ [EFetch (reg_lifetime registration)])%list) as Ht1.
  { pose proof (fetch_trace (reg_lifetime registration) s) as Ht.
    by rewrite Hfetch in Ht. }
  assert (∀ evs, forallb is_inject evs = true → forallb (negb ∘ is_store) evs = true)
    as Hinj.
  { intros evs. rewrite !forallb_forall. intros H x Hx. specialize (H x Hx).
    by destruct x. }
  assert (∀ built, outline <$> built = construction registration →
                   forallb (negb ∘ is_store) built = true) as Hcons.
  { intros built Hb. apply forallb_forall. intros x Hx.
    assert (In (outline x) (construction registration)) as Hin.
    { rewrite <- Hb. apply list_elem_of_In, list_elem_of_fmap_2.
      by apply list_elem_of_In. }
    destruct registration, x; cbn in Hin |- *; try done; intuition congruence. }
  split.
  - intros s2 err instance s3 r Hc Herr Hi.
    destruct (construct_trace this registration s1) as (built & Htc & Hb).
    rewrite Hc in Htc.
    pose proof (inject_trace this instance (Some (normalizeKey key)) s2)
      as (evs & Hti & Hevs). rewrite Hi in Hti. cbn [fst] in Htc, Hti.
    exists (EFetch (reg_lifetime registration) :: built ++ evs)%list.
    split; [rewrite Hti, Htc, Ht1; by rewrite <- !app_assoc|].
    split; [cbn [forallb]; rewrite forallb_app, (Hcons _ Hb); by apply Hinj|].
    unfold resolve, resolveRegistration, build, injectAndReturn.
    rewrite Hreg, Hfetch, Hfalsy, Hc, Herr, Hi.
    destruct r as [e|]; [done|]. split; [done|apply store_trace].
  - intros s2 instance s3 o Hc Hi.
    destruct (constructSync_trace this registration s1) as (built & Htc & Hb).
    rewrite Hc in Htc.
    pose proof (injectSync_trace this instance (Some (normalizeKey key)) s2)
      as (evs & Hti & Hevs). rewrite Hi in Hti. cbn [fst] in Htc, Hti.
    exists (EFetch (reg_lifetime registration) :: built ++ evs)%list.
    split; [rewrite Hti, Htc, Ht1; by rewrite <- !app_assoc|].
    split; [cbn [forallb]; rewrite forallb_app, (Hcons _ Hb); by apply Hinj|].
    unfold resolveSync, resolveRegistrationSync, buildSync.
    rewrite Hreg, Hfetch, Hfalsy, Hc, Hi.
    destruct o as [[]|e]; [split; [done|apply store_trace]|done].
Qed.




End Resolve.

(** *** On the concrete caller *)

(** C2 does not hold as stated.  [foo] is registered with an injection
    that fails: on [resolveSync('Foo')] the lifetime reports a miss, the
    construction yields [foo], the injection throws ['fail'], and the
    caller gets the exception and no instance; [resolve] does pass [foo]
    to its callback. *)
Lemma resolveSync_withholds_instance :
  let s := Example.withFoo None [1] in
  let registration := Example.fooRegistration None [1] in
  let s1 := (fetch Example.env (reg_lifetime registration) s).1 in
  let s2 := (constructSync Example.env Example.container registration s1).1 in
  registrationsOf (world s) Example.container !! "Foo" = Some registration ∧
  truthy (fetch Example.env (reg_lifetime registration) s).2 = false ∧
  (constructSync Example.env Example.container registration s1).2 = Return Example.foo ∧
  (injectSync Example.env Example.container Example.foo (Some "Foo") s2).2 =
    Throw (VStr "fail") ∧
  (resolveSync Example.env Example.container (KeyStr "Foo") s).2 = Throw (VStr "fail") ∧
  returned (resolveSync Example.env Example.container (KeyStr "Foo") s).2 ≠
    Some Example.foo ∧
  (resolve Example.env Example.container (KeyStr "Foo") s).2 =
    Delivered (Some (VStr "fail")) Example.foo ∧
  delivered (resolve Example.env Example.container (KeyStr "Foo") s).2 =
    Some Example.foo.
Proof.
  cbv zeta. repeat split; try (vm_compute; reflexivity).
  vm_compute. intros H; discriminate H.
Qed.




(** [foo] is registered with a lifetime that already holds [other]. *)
Lemma cache_hit_witness :
  let s := Example.holding 0 Example.other
             (Example.withFoo (Some (UserLifetime 0)) [0; 1]) in
  registrationsOf (world s) Example.container !! normalizeKey (KeyStr "Foo") =
    Some (Example.fooRegistration (Some (UserLifetime 0)) [0; 1]) ∧
  (fetch Example.env (UserLifetime 0) s).2 = Example.other ∧
  truthy Example.other = true ∧
  (resolveSync Example.env Example.container (KeyStr "Foo") s).2 = Return Example.other ∧
  (resolve Example.env Example.container (KeyStr "Foo") s).2 =
    Delivered None Example.other ∧
  trace (resolveSync Example.env Example.container (KeyStr "Foo") s).1 =
    [EFetch (UserLifetime 0)].
Proof.
  cbv zeta.
  set (s := Example.holding 0 Example.other
              (Example.withFoo (Some (UserLifetime 0)) [0; 1])).
  assert (registrationsOf (world s) Example.container !! normalizeKey (KeyStr "Foo") =
            Some (Example.fooRegistration (Some (UserLifetime 0)) [0; 1])) as Hreg
    by (vm_compute; reflexivity).
  assert (fetch Example.env
            (reg_lifetime (Example.fooRegistration (Some (UserLifetime 0)) [0; 1])) s =
          ((fetch Example.env (UserLifetime 0) s).1, Example.other)) as Hfetch
    by (vm_compute; reflexivity).
  assert (truthy Example.other = true) as Htruthy by reflexivity.
  split; [exact Hreg|]. split; [vm_compute; reflexivity|]. split; [exact Htruthy|].
  destruct (cache_hit Example.env Example.container (KeyStr "Foo") _ s _ _
              Hreg Hfetch Htruthy) as (Hsync & Hasync & Htrace).
  rewrite Hsync, Hasync. split; [reflexivity|]. split; [reflexivity|].
  etrans; [exact Htrace | vm_compute; reflexivity].
Defined.


(** [foo] is registered with a caching lifetime and two injections, the
    second of which fails. *)
Lemma injection_outcome_witness :
  let s := Example.withFoo (Some (UserLifetime 0)) [0; 1] in
  let registration := Example.fooRegistration (Some (UserLifetime 0)) [0; 1] in
  let s1 := (fetch Example.env (UserLifetime 0) s).1 in
  registrationsOf (world s) Example.container !! normalizeKey (KeyStr "Foo") =
    Some registration ∧
  truthy (fetch Example.env (UserLifetime 0) s).2 = false ∧
  construct Example.env Example.container registration s1 =
    (s1, Return (VNull, Example.foo)) ∧
  (inject Example.env Example.container Example.foo (Some "Foo") s1).2 =
    Return (Some (VStr "fail")) ∧
  constructSync Example.env Example.container registration s1 = (s1, Return Example.foo) ∧
  (injectSync Example.env Example.container Example.foo (Some "Foo") s1).2 =
    Throw (VStr "fail") ∧
  (resolve Example.env Example.container (KeyStr "Foo") s).2 =
    Delivered (Some (VStr "fail")) Example.foo ∧
  (resolveSync Example.env Example.container (KeyStr "Foo") s).2 = Throw (VStr "fail") ∧
  Example.cached (user (world (resolve Example.env Example.container (KeyStr "Foo") s).1))
    !! 0 = None ∧
  Example.cached (user (world (resolveSync Example.env Example.container (KeyStr "Foo") s).1))
    !! 0 = None.
Proof.
  cbv zeta.
  set (s := Example.withFoo (Some (UserLifetime 0)) [0; 1]).
  set (registration := Example.fooRegistration (Some (UserLifetime 0)) [0; 1]).
  set (s1 := (fetch Example.env (UserLifetime 0) s).1).
  assert (registrationsOf (world s) Example.container !! normalizeKey (KeyStr "Foo") =
            Some registration) as Hreg by (vm_compute; reflexivity).
  assert (fetch Example.env (reg_lifetime registration) s = (s1, VUndefined)) as Hfetch
    by (vm_compute; reflexivity).
  assert (truthy VUndefined = false) as Hfalsy by reflexivity.
  assert (construct Example.env Example.container registration s1 =
            (s1, Return (VNull, Example.foo))) as Hc by (vm_compute; reflexivity).
  assert (inject Example.env Example.container Example.foo
            (Some (normalizeKey (KeyStr "Foo"))) s1 =
          ((inject Example.env Example.container Example.foo (Some "Foo") s1).1,
           Return (Some (VStr "fail")))) as Hi by (vm_compute; reflexivity).
  assert (constructSync Example.env Example.container registration s1 =
            (s1, Return Example.foo)) as Hcs by (vm_compute; reflexivity).
  assert (injectSync Example.env Example.container Example.foo
            (Some (normalizeKey (KeyStr "Foo"))) s1 =
          ((injectSync Example.env Example.container Example.foo (Some "Foo") s1).1,
           Throw (VStr "fail"))) as His by (vm_compute; reflexivity).
  split; [exact Hreg|]. split; [vm_compute; reflexivity|]. split; [exact Hc|].
  split; [vm_compute; reflexivity|]. split; [exact Hcs|].
  split; [vm_compute; reflexivity|].
  destruct (injection_outcome Example.env Example.container (KeyStr "Foo") registration
              s s1 VUndefined Hreg Hfetch Hfalsy) as [Hasync Hsync].
  destruct (Hasync _ _ _ _ _ Hc eq_refl Hi) as (_ & _ & _ & ->).
  destruct (Hsync _ _ _ _ Hcs His) as (_ & _ & _ & -> & _).
  repeat split; vm_compute; reflexivity.
Defined.

(** ** Interception *)

Section Intercept.
Context {U : Type} (E : Env U).
Implicit Types (s : St U) (this C : Container).

Lemma intercept_handlerConfigsOf this matcher handlers s C :
  handlerConfigsOf (world (intercept this matcher handlers s).1) C =
  handlerConfigsOf (world s) C.
Proof. reflexivity. Qed.

(** What a [register*] call leaves alone: the trace, the handler configs,
    the caller's objects, and the registrations of every container that
    does not share its registrations object. *)
Lemma register_frame this m s :
  is_Some (signatureOf m) →
  trace (mutate this m s) = trace s ∧
  arrays (world (mutate this m s)) = arrays (world s) ∧
  handlerConfigObjs (world (mutate this m s)) = handlerConfigObjs (world s) ∧
  next (world (mutate this m s)) = next (world s) ∧
  user (world (mutate this m s)) = user (world s) ∧
  (∀ C, registrations C ≠ registrations this →
        registrationsOf (world (mutate this m s)) C = registrationsOf (world s) C).
Proof.
  intros Hm.
  destruct m as [c args|instance args|factory args|? ?|? ?]; simpl;
    try (by destruct Hm).
  - unfold registerType.
    destruct (getTypeInfo c _) as [typeInfo|e]; [|done].
    match goal with |- context [fold_left ?f ?l ?s0] =>
      destruct (addEdges_frame this (ti_name typeInfo) l s0)
        as (Ht & Hr & Ha & Hh & Hn & Hu);
      pose proof (fun C => addEdges_registrationsOf this (ti_name typeInfo) l s0 C) as Hrs
    end.
    destruct (DepGraph.getChain _ _); simpl;
      (split; [exact Ht|]; split; [exact Ha|]; split; [exact Hh|];
       split; [exact Hn|]; split; [exact Hu|];
       intros C HC; rewrite Hrs; simpl; rewrite registrationsOf_putRegistration;
        by rewrite decide_False).
  - repeat split; try done.
    intros C HC. rewrite registrationsOf_putRegistration. by rewrite decide_False.
  - unfold registerFactory. destruct (String.eqb _ _); simpl; repeat split; try done.
    intros C HC. rewrite registrationsOf_putRegistration. by rewrite decide_False.
Qed.

Lemma register_handlerConfigsOf this m s C :
  is_Some (signatureOf m) →
  handlerConfigsOf (world (mutate this m s)) C = handlerConfigsOf (world s) C.
Proof.
  intros Hm. unfold handlerConfigsOf.
  by destruct (register_frame this m s Hm) as (_ & -> & _).
Qed.

(** C9.  [intercept] leaves the handler-config list of every container as
    it is, and so do the [register*] calls.  [sync()] and [async()] on
    what [intercept] returned push one handler config, holding the
    handlers and [isAsync] set to [false] and [true], and return the
    container.  Its matcher compares the method name with a string
    matcher; tests [instanceof] the first element and, when the second is
    truthy, equality of the method name with it for an array matcher; is
    the boolean coercion of any other matcher that is not a function; and
    is the function itself for a function matcher.  Whenever later one of
    the two functions is called, it pushes that config, with [isAsync]
    set by the call, and returns the container. *)
Theorem intercept_commit this matcher handlers s :
  (∀ C, handlerConfigsOf (world (intercept this matcher handlers s).1) C =
        handlerConfigsOf (world s) C) ∧
  (∀ m C, is_Some (signatureOf m) →
          handlerConfigsOf (world (mutate this m s)) C = handlerConfigsOf (world s) C) ∧
  (∀ isAsync,
      let r := interceptCommit this matcher handlers isAsync s in
      r.2 = this ∧
      r = (if isAsync then async else sync)
            (intercept this matcher handlers s).2 (intercept this matcher handlers s).1 ∧
      (∃ config,
          handlerConfigsOf (world r.1) this =
            (handlerConfigsOf (world s) this ++ [config])%list ∧
          ∃ predicate,
            handlerConfigObjs (world r.1) !! config =
              Some (mkHandlerConfig handlers predicate (Some isAsync)) ∧
            lastHandlerConfig (world r.1) this =
              Some (mkHandlerConfig handlers predicate (Some isAsync)) ∧
            ∀ instance methodName,
              match matcher with
              | MValue (VStr name) =>
                  matches E predicate instance methodName =
                    VBool (String.eqb methodName name)
              | MArray first second =>
                  matches E predicate instance methodName =
                    VBool (instanceOf E instance first
                           && (negb (truthy second)
                               || strict_eq second (VStr methodName)))
              | MValue v =>
                  matches E predicate instance methodName = VBool (truthy v)
              | MFunction f =>
                  predicate = Custom f ∧
                  matches E predicate instance methodName =
                    fn_match E f instance methodName
              end) ∧
      (∀ C, handlerConfigs C ≠ handlerConfigs this →
            handlerConfigsOf (world r.1) C = handlerConfigsOf (world s) C)) ∧
  (∀ isAsync s' hc,
      let i := (intercept this matcher handlers s).2 in
      handlerConfigObjs (world s') !! ic_handlerConfig i = Some hc →
      (commit isAsync i s').2 = this ∧
      handlerConfigsOf (world (commit isAsync i s').1) this =
        (handlerConfigsOf (world s') this ++ [ic_handlerConfig i])%list ∧
      handlerConfigObjs (world (commit isAsync i s').1) !! ic_handlerConfig i =
        Some (mkHandlerConfig (hc_handlers hc) (hc_matcher hc) (Some isAsync))).
Proof.
  split; [intros C; apply intercept_handlerConfigsOf|].
  split; [intros m C; apply register_handlerConfigsOf|].
  split; [|intros isAsync s' hc i Hhc; unfold commit; cbn [fst snd world on_world];
           split; [done|]; split;
           [rewrite handlerConfigsOf_pushHandlerConfig; by rewrite decide_True
           |cbn; rewrite lookup_alter_eq; cbn in Hhc; by rewrite Hhc]].
  intros isAsync. cbv zeta. unfold interceptCommit, intercept, sync, async.
  destruct isAsync;
    (split; [done|]; split; [done|]; unfold commit; simpl; split;
     [exists (next (world s)); split;
      [rewrite handlerConfigsOf_pushHandlerConfig; by rewrite decide_True|];
      eexists; split; [|split];
      [rewrite lookup_alter_eq, lookup_insert_eq; reflexivity
      |unfold lastHandlerConfig; rewrite handlerConfigsOf_pushHandlerConfig;
       rewrite decide_True by done; rewrite last_snoc; simpl;
       rewrite lookup_alter_eq, lookup_insert_eq; reflexivity
      |intros instance methodName;
       destruct matcher as [v|first second|f]; [by destruct v|done|done]]
     |intros C HC; rewrite handlerConfigsOf_pushHandlerConfig;
      by rewrite decide_False]).
Qed.

End Intercept.

(** ** Registering again *)

Section Reregistration.
Context {U : Type} (E : Env U).
Implicit Types (s : St U) (this C : Container).

(** A [register*] call that gets as far as its assignment leaves the
    store with that entry written over whatever the key held. *)
Lemma register_written this m key r s :
  written m = Some (key, r) →
  registrationsOf (world (mutate this m s)) this =
    <[key := r]> (registrationsOf (world s) this).
Proof.
  destruct m as [c args|instance args|factory args|? ?|? ?]; simpl; [| | |done|done].
  - unfold registerType.
    destruct (getTypeInfo c _) as [typeInfo|e]; [|done]. intros [= <- <-].
    assert (∀ (o : outcome (list string)) (x : St U) (a : outcome Container)
              (b : value → outcome Container),
              (match o with Return _ => (x, a) | Throw e => (x, b e) end).1 = x)
      as Hfst by (by intros []).
    rewrite Hfst, registerType_registrations. by rewrite decide_True.
  - intros [= <- <-]. rewrite registrationsOf_putRegistration. by rewrite decide_True.
  - unfold registerFactory. destruct (String.eqb _ _); [done|]. intros [= <- <-].
    simpl. rewrite registrationsOf_putRegistration. by rewrite decide_True.
Qed.

(** No [register*] call looks at what is registered. *)
Lemma registered_independent this m f s :
  registered this m (on_world (with_registrationObjs f) s) = registered this m s.
Proof.
  destruct m as [c args|instance args|factory args|? ?|? ?]; simpl; [|done| |done|done].
  - f_equal. unfold registerType.
    destruct (getTypeInfo c _) as [typeInfo|e]; [|done].
    rewrite !registerType_graph.
    by destruct (DepGraph.getChain _ _).
  - f_equal. unfold registerFactory. by destruct (String.eqb _ _).
Qed.

(** C8 (as amended).  When a [register*] call writes under a key that an
    earlier [register*] call wrote under, the registrations are as if
    the earlier call had not been made: the key holds the new
    registration, with the lifetime and the injections of the new call
    (or their defaults).  The call does not consult the registrations,
    so the entry already there raises nothing: [registerInstance] and
    [registerFactory] return the container.  [registerType] can still
    throw, after it has written the entry, the cycle error of its own
    validation; the graph keeps the edges of the registration replaced,
    so the error can come from those.  [resolveSync] and [resolve] of the
    key then work from the new registration. *)
Theorem reregistration_replaces this first second key r1 r2 args s :
  written first = Some (key, r1) →
  written second = Some (key, r2) →
  signatureOf second = Some args →
  let s1 := mutate this first s in
  let s2 := mutate this second s1 in
  registrationsOf (world s2) this = <[key := r2]> (registrationsOf (world s) this) ∧
  registrationsOf (world s2) this !! key = Some r2 ∧
  reg_name r2 = key ∧
  reg_lifetime r2 = default Transient (opt_lifetime (resolveSignatureToOptions args)) ∧
  reg_injections r2 = default [] (opt_injections (resolveSignatureToOptions args)) ∧
  (∀ f, registered this second (on_world (with_registrationObjs f) s1) =
        registered this second s1) ∧
  (registered this second s1 = Some (Return this) ∨
   ∃ c n, second = RegisterType c args ∧
          registered this second s1 = Some (Throw (VErr (CyclicDependencyError n key)))) ∧
  resolveSync E this (KeyStr key) s2 = resolveRegistrationSync E this key r2 s2 ∧
  resolve E this (KeyStr key) s2 = resolveRegistration E this key r2 s2.
Proof.
  intros Hfirst Hsecond Hargs s1 s2.
  assert (registrationsOf (world s2) this = <[key := r2]> (registrationsOf (world s) this))
    as Hstore.
  { unfold s2, s1. rewrite (register_written _ _ _ _ _ Hsecond).
    rewrite (register_written _ _ _ _ _ Hfirst). apply insert_insert_eq. }
  assert (registrationsOf (world s2) this !! key = Some r2) as Hkey
    by (rewrite Hstore; apply lookup_insert_eq).
  split; [exact Hstore|]. split; [exact Hkey|].
  split; [|split; [|split; [|split; [|split; [|split]]]]].
  - destruct second as [c a|instance a|factory a|? ?|? ?]; simpl in *;
      try discriminate.
    + destruct (getTypeInfo c _); [|done]. by injection Hsecond as <- <-.
    + by injection Hsecond as <- <-.
    + destruct (String.eqb _ _); [done|]. by injection Hsecond as <- <-.
  - destruct second as [c a|instance a|factory a|? ?|? ?]; simpl in *;
      try discriminate; injection Hargs as ->.
    + destruct (getTypeInfo c _); [|done]. by injection Hsecond as <- <-.
    + by injection Hsecond as <- <-.
    + destruct (String.eqb _ _); [done|]. by injection Hsecond as <- <-.
  - destruct second as [c a|instance a|factory a|? ?|? ?]; simpl in *;
      try discriminate; injection Hargs as ->.
    + destruct (getTypeInfo c _); [|done]. by injection Hsecond as <- <-.
    + by injection Hsecond as <- <-.
    + destruct (String.eqb _ _); [done|]. by injection Hsecond as <- <-.
  - intros f. apply registered_independent.
  - destruct second as [c a|instance a|factory a|? ?|? ?]; simpl in *;
      try discriminate; injection Hargs as ->.
    + unfold registerType.
      destruct (getTypeInfo c _) as [typeInfo|e] eqn:Hti; [|done].
      injection Hsecond as <- <-.
      destruct (DepGraph.getChain _ _) as [chain|e] eqn:Hchain; [by left|].
      right. apply DepGraphFacts.getChain_Throw in Hchain as (n & -> & _).
      by exists c, n.
    + by left.
    + left. unfold registerFactory. by destruct (String.eqb _ _).
  - unfold resolveSync. cbn [normalizeKey].
    by rewrite (getRegistration_Own _ _ _ _ Hkey).
  - unfold resolve. cbn [normalizeKey].
    by rewrite (getRegistration_Own _ _ _ _ Hkey).
Qed.

End Reregistration.

(** ** Child containers *)

Section CopyLoops.
Context {A : Type}.
Implicit Types (M m : gmap string A).

(** The body of a copy loop, on the object written to: [m[key] = M[key]]. *)
Lemma copy_fold_lookup M keys m k :
  fold_left (fun m key => match M !! key with
                          | Some x => <[key := x]> m
                          | None => m
                          end) keys m !! k =
  if decide (k ∈ keys)
  then match M !! k with Some x => Some x | None => m !! k end
  else m !! k.
Proof.
  revert m. induction keys as [|key keys IH]; intros m; cbn [fold_left].
  - rewrite decide_False; [done|]. apply not_elem_of_nil.
  - rewrite IH. destruct (decide (k ∈ keys)) as [Hin|Hnin].
    + rewrite decide_True by (by apply list_elem_of_further).
      destruct (M !! k) as [x|] eqn:HMk; [done|].
      destruct (M !! key) as [y|] eqn:HMkey; [|done].
      rewrite lookup_insert_ne; [done|]. intros ->. congruence.
    + destruct (decide (k = key)) as [->|Hne].
      * rewrite decide_True by apply list_elem_of_here.
        destruct (M !! key) as [y|]; [by rewrite lookup_insert_eq|done].
      * rewrite decide_False by (intros [?|?]%elem_of_cons; done).
        destruct (M !! key) as [y|]; [by rewrite lookup_insert_ne|done].
Qed.

(** Copying every key of [M] into an empty object yields [M]. *)
Lemma copy_fold_all M :
  fold_left (fun m key => match M !! key with
                          | Some x => <[key := x]> m
                          | None => m
                          end) (elements (dom M)) ∅ = M.
Proof.
  apply map_eq. intros k. rewrite copy_fold_lookup, lookup_empty.
  destruct (decide (k ∈ elements (dom M))) as [Hin|Hnin].
  - by destruct (M !! k).
  - symmetry. apply not_elem_of_dom. by rewrite <- elem_of_elements.
Qed.

End CopyLoops.

Section ChildContainer.
Context {U : Type} (E : Env U).
Implicit Types (w : World U) (s : St U) (this child A B C : Container).

Lemma graphMapOf_putGraphEntry C key creator w C' :
  graphMapOf (putGraphEntry C key creator w) C' =
    if decide (graph C' = graph C)
    then <[key := creator]> (graphMapOf w C)
    else graphMapOf w C'.
Proof.
  unfold graphMapOf, putGraphEntry; simpl. case_decide as Heq.
  - by rewrite Heq, lookup_insert_eq.
  - by rewrite lookup_insert_ne.
Qed.

(** The edges of a graph are read off its map and the arrays. *)
Lemma graphOf_ext w w' C C' :
  graphMapOf w' C' = graphMapOf w C → edgeArrays w' = edgeArrays w →
  graphOf w' C' = graphOf w C.
Proof. unfold graphOf, arrayOf. by intros -> ->. Qed.

Lemma copyRegistration_fold this child keys w :
  registrations this ≠ registrations child →
  (∀ C, registrationsOf (fold_left (copyRegistration this child) keys w) C =
        if decide (registrations C = registrations child)
        then fold_left (fun m key => match registrationsOf w this !! key with
                                     | Some x => <[key := x]> m
                                     | None => m
                                     end) keys (registrationsOf w child)
        else registrationsOf w C) ∧
  arrays (fold_left (copyRegistration this child) keys w) = arrays w ∧
  handlerConfigObjs (fold_left (copyRegistration this child) keys w) =
    handlerConfigObjs w ∧
  graphs (fold_left (copyRegistration this child) keys w) = graphs w ∧
  edgeArrays (fold_left (copyRegistration this child) keys w) = edgeArrays w ∧
  next (fold_left (copyRegistration this child) keys w) = next w ∧
  user (fold_left (copyRegistration this child) keys w) = user w.
Proof.
  intros Hsep. revert w. induction keys as [|key keys IH]; intros w; simpl.
  - split; [|done]. intros C. case_decide as HC; [|done].
    unfold registrationsOf. by rewrite HC.
  - destruct (IH (copyRegistration this child w key))
      as (Hr & -> & -> & -> & -> & -> & ->).
    assert (registrationsOf (copyRegistration this child w key) this =
            registrationsOf w this) as Hthis.
    { unfold copyRegistration. destruct (registrationsOf w this !! key); [|done].
      rewrite registrationsOf_putRegistration. by rewrite decide_False. }
    split.
    + intros C. rewrite Hr, Hthis. unfold copyRegistration.
      destruct (registrationsOf w this !! key) as [x|] eqn:Hx.
      * rewrite !registrationsOf_putRegistration.
        rewrite (decide_True (P := registrations child = registrations child)) by done.
        by case_decide.
      * done.
    + unfold copyRegistration. by destruct (registrationsOf w this !! key).
Qed.

Lemma copyGraphEntry_fold this child keys w :
  graph this ≠ graph child →
  (∀ C, graphMapOf (fold_left (copyGraphEntry this child) keys w) C =
        if decide (graph C = graph child)
        then fold_left (fun m key => match graphMapOf w this !! key with
                                     | Some x => <[key := x]> m
                                     | None => m
                                     end) keys (graphMapOf w child)
        else graphMapOf w C) ∧
  registrationObjs (fold_left (copyGraphEntry this child) keys w) = registrationObjs w ∧
  arrays (fold_left (copyGraphEntry this child) keys w) = arrays w ∧
  handlerConfigObjs (fold_left (copyGraphEntry this child) keys w) =
    handlerConfigObjs w ∧
  edgeArrays (fold_left (copyGraphEntry this child) keys w) = edgeArrays w ∧
  next (fold_left (copyGraphEntry this child) keys w) = next w ∧
  user (fold_left (copyGraphEntry this child) keys w) = user w.
Proof.
  intros Hsep. revert w. induction keys as [|key keys IH]; intros w; simpl.
  - split; [|done]. intros C. case_decide as HC; [|done].
    unfold graphMapOf. by rewrite HC.
  - destruct (IH (copyGraphEntry this child w key))
      as (Hr & -> & -> & -> & -> & -> & ->).
    assert (graphMapOf (copyGraphEntry this child w key) this = graphMapOf w this)
      as Hthis.
    { unfold copyGraphEntry. destruct (graphMapOf w this !! key); [|done].
      rewrite graphMapOf_putGraphEntry. by rewrite decide_False. }
    split.
    + intros C. rewrite Hr, Hthis. unfold copyGraphEntry.
      destruct (graphMapOf w this !! key) as [x|] eqn:Hx.
      * rewrite !graphMapOf_putGraphEntry.
        rewrite (decide_True (P := graph child = graph child)) by done.
        by case_decide.
      * done.
    + unfold copyGraphEntry. by destruct (graphMapOf w this !! key).
Qed.

Lemma pushHandlerConfig_fold child configs w :
  (∀ C, handlerConfigsOf
          (fold_left (fun w config => pushHandlerConfig child config w) configs w) C =
        if decide (handlerConfigs C = handlerConfigs child)
        then (handlerConfigsOf w child ++ configs)%list
        else handlerConfigsOf w C) ∧
  registrationObjs
    (fold_left (fun w config => pushHandlerConfig child config w) configs w) =
    registrationObjs w ∧
  handlerConfigObjs
    (fold_left (fun w config => pushHandlerConfig child config w) configs w) =
    handlerConfigObjs w ∧
  graphs (fold_left (fun w config => pushHandlerConfig child config w) configs w) =
    graphs w ∧
  edgeArrays (fold_left (fun w config => pushHandlerConfig child config w) configs w) =
    edgeArrays w ∧
  next (fold_left (fun w config => pushHandlerConfig child config w) configs w) = next w ∧
  user (fold_left (fun w config => pushHandlerConfig child config w) configs w) = user w.
Proof.
  revert w. induction configs as [|config configs IH]; intros w; simpl.
  - split; [|done]. intros C. rewrite app_nil_r. case_decide as HC; [|done].
    unfold handlerConfigsOf. by rewrite HC.
  - destruct (IH (pushHandlerConfig child config w))
      as (Hr & -> & -> & -> & -> & -> & ->).
    split; [|done]. intros C. rewrite Hr, !handlerConfigsOf_pushHandlerConfig.
    rewrite (decide_True (P := handlerConfigs child = handlerConfigs child)) by done.
    case_decide; [|done]. by rewrite <- app_assoc.
Qed.

(** The store right after [new Container(parent)]. *)
Lemma newContainer_effect parent w :
  (newContainer parent w).2 =
    mkContainer parent (next w) (S (next w)) (S (S (next w))) ∧
  (∀ C, registrationsOf (newContainer parent w).1 C =
        if decide (registrations C = next w) then ∅ else registrationsOf w C) ∧
  (∀ C, handlerConfigsOf (newContainer parent w).1 C =
        if decide (handlerConfigs C = S (next w)) then [] else handlerConfigsOf w C) ∧
  (∀ C, graphMapOf (newContainer parent w).1 C =
        if decide (graph C = S (S (next w))) then ∅ else graphMapOf w C) ∧
  handlerConfigObjs (newContainer parent w).1 = handlerConfigObjs w ∧
  next (newContainer parent w).1 = S (S (S (next w))) ∧
  user (newContainer parent w).1 = user w ∧
  edgeArrays (newContainer parent w).1 = edgeArrays w.
Proof.
  unfold newContainer, registrationsOf, handlerConfigsOf, graphMapOf; simpl.
  split; [done|]. split; [|split; [|split; [|done]]]; intros C; case_decide as HC.
  - by rewrite HC, lookup_insert_eq.
  - by rewrite lookup_insert_ne.
  - by rewrite HC, lookup_insert_eq.
  - by rewrite lookup_insert_ne.
  - by rewrite HC, lookup_insert_eq.
  - by rewrite lookup_insert_ne.
Qed.

(** What [createChildContainer] does to the store: three fresh objects
    that hold what the objects of [this] hold (for the map of the graph:
    the arrays that the map of [this] holds), everything else as it
    was. *)
Lemma createChildContainer_effect this s :
  registrations this < next (world s) →
  handlerConfigs this < next (world s) →
  graph this < next (world s) →
  (createChildContainer this s).2 =
    mkContainer (Some this) (next (world s)) (S (next (world s)))
      (S (S (next (world s)))) ∧
  (∀ C, registrationsOf (world (createChildContainer this s).1) C =
        if decide (registrations C = next (world s))
        then registrationsOf (world s) this else registrationsOf (world s) C) ∧
  (∀ C, handlerConfigsOf (world (createChildContainer this s).1) C =
        if decide (handlerConfigs C = S (next (world s)))
        then handlerConfigsOf (world s) this else handlerConfigsOf (world s) C) ∧
  (∀ C, graphMapOf (world (createChildContainer this s).1) C =
        if decide (graph C = S (S (next (world s))))
        then graphMapOf (world s) this else graphMapOf (world s) C) ∧
  handlerConfigObjs (world (createChildContainer this s).1) =
    handlerConfigObjs (world s) ∧
  next (world (createChildContainer this s).1) = S (S (S (next (world s)))) ∧
  user (world (createChildContainer this s).1) = user (world s) ∧
  trace (createChildContainer this s).1 = trace s ∧
  edgeArrays (world (createChildContainer this s).1) = edgeArrays (world s).
Proof.
  intros Hr Hh Hg. unfold createChildContainer.
  destruct (newContainer_effect (Some this) (world s))
    as (Hchild & Hr0 & Hh0 & Hg0 & Ho0 & Hn0 & Hu0 & He0).
  rewrite (surjective_pairing (newContainer (Some this) (world s))).
  cbv beta iota. rewrite Hchild. clear Hchild.
  set (w0 := (newContainer (Some this) (world s)).1) in *.
  set (child := mkContainer (Some this) (next (world s)) (S (next (world s)))
                  (S (S (next (world s))))) in *.
  assert (registrationsOf w0 this = registrationsOf (world s) this) as Hr0this
    by (rewrite Hr0, decide_False; [done|lia]).
  assert (handlerConfigsOf w0 this = handlerConfigsOf (world s) this) as Hh0this
    by (rewrite Hh0, decide_False; [done|lia]).
  assert (graphMapOf w0 this = graphMapOf (world s) this) as Hg0this
    by (rewrite Hg0, decide_False; [done|lia]).
  set (w1 := fold_left (copyRegistration this child) _ w0).
  destruct (copyRegistration_fold this child (elements (dom (registrationsOf w0 this))) w0)
    as (Hr1 & Ha1 & Ho1 & Hgs1 & He1 & Hn1 & Hu1); [cbn [registrations child]; lia|].
  fold w1 in Hr1, Ha1, Ho1, Hgs1, He1, Hn1, Hu1.
  assert (∀ C, graphMapOf w1 C = graphMapOf w0 C) as Hg1
    by (intros C; unfold graphMapOf; by rewrite Hgs1).
  assert (∀ C, handlerConfigsOf w1 C = handlerConfigsOf w0 C) as Hh1
    by (intros C; unfold handlerConfigsOf; by rewrite Ha1).
  set (w2 := fold_left (copyGraphEntry this child) _ w1).
  destruct (copyGraphEntry_fold this child (elements (dom (graphMapOf w1 this))) w1)
    as (Hg2 & Hrs2 & Ha2 & Ho2 & He2 & Hn2 & Hu2); [cbn [graph child]; lia|].
  fold w2 in Hg2, Hrs2, Ha2, Ho2, He2, Hn2, Hu2.
  assert (∀ C, registrationsOf w2 C = registrationsOf w1 C) as Hr2
    by (intros C; unfold registrationsOf; by rewrite Hrs2).
  assert (∀ C, handlerConfigsOf w2 C = handlerConfigsOf w1 C) as Hh2
    by (intros C; unfold handlerConfigsOf; by rewrite Ha2).
  set (w3 := fold_left _ (handlerConfigsOf w2 this) w2).
  destruct (pushHandlerConfig_fold child (handlerConfigsOf w2 this) w2)
    as (Hh3 & Hrs3 & Ho3 & Hgs3 & He3 & Hn3 & Hu3).
  fold w3 in Hh3, Hrs3, Ho3, Hgs3, He3, Hn3, Hu3.
  cbn [fst snd world trace]. split; [done|].
  split; [|split; [|split; [|split; [|split; [|split; [|split]]]]]].
  - intros C. unfold registrationsOf at 1. rewrite Hrs3.
    change (registrationsOf w2 C = if decide (registrations C = next (world s))
                                   then registrationsOf (world s) this
                                   else registrationsOf (world s) C).
    rewrite Hr2, Hr1. cbn [registrations child]. case_decide as HC.
    + rewrite (Hr0 child), decide_True by done. rewrite Hr0this. apply copy_fold_all.
    + rewrite Hr0. by rewrite decide_False.
  - intros C. rewrite Hh3. cbn [handlerConfigs child]. case_decide as HC.
    + rewrite !Hh2, !Hh1, (Hh0 child), decide_True by done. by rewrite Hh0this.
    + rewrite Hh2, Hh1, Hh0. by rewrite decide_False.
  - intros C. unfold graphMapOf at 1. rewrite Hgs3.
    change (graphMapOf w2 C = if decide (graph C = S (S (next (world s))))
                              then graphMapOf (world s) this else graphMapOf (world s) C).
    rewrite Hg2. cbn [graph child]. case_decide as HC.
    + rewrite !Hg1, (Hg0 child), decide_True by done. rewrite Hg0this.
      apply copy_fold_all.
    + rewrite Hg1, Hg0. by rewrite decide_False.
  - by rewrite Ho3, Ho2, Ho1.
  - by rewrite Hn3, Hn2, Hn1.
  - by rewrite Hu3, Hu2, Hu1.
  - done.
  - by rewrite He3, He2, He1.
Qed.

(** The child holds the arrays of its parent, so it has the edges of its
    parent; no other graph has changed. *)
Lemma createChildContainer_graphOf this s C :
  registrations this < next (world s) →
  handlerConfigs this < next (world s) →
  graph this < next (world s) →
  graphOf (world (createChildContainer this s).1) C =
    if decide (graph C = S (S (next (world s))))
    then graphOf (world s) this else graphOf (world s) C.
Proof.
  intros Hr Hh Hg.
  destruct (createChildContainer_effect this s Hr Hh Hg)
    as (_ & _ & _ & Hgs & _ & _ & _ & _ & He).
  case_decide as HC.
  - apply graphOf_ext; [|done]. by rewrite Hgs, decide_True.
  - apply graphOf_ext; [|done]. by rewrite Hgs, decide_False.
Qed.

(** What [intercept(...)] followed by [sync()] or [async()] does to the
    store: one new handler-config object, pushed on the array of [this]. *)
Lemma interceptCommit_effect this matcher handlers isAsync s :
  registrationObjs (world (interceptCommit this matcher handlers isAsync s).1) =
    registrationObjs (world s) ∧
  graphs (world (interceptCommit this matcher handlers isAsync s).1) = graphs (world s) ∧
  user (world (interceptCommit this matcher handlers isAsync s).1) = user (world s) ∧
  trace (interceptCommit this matcher handlers isAsync s).1 = trace s ∧
  next (world (interceptCommit this matcher handlers isAsync s).1) = S (next (world s)) ∧
  (∀ C, handlerConfigsOf (world (interceptCommit this matcher handlers isAsync s).1) C =
        if decide (handlerConfigs C = handlerConfigs this)
        then (handlerConfigsOf (world s) this ++ [next (world s)])%list
        else handlerConfigsOf (world s) C) ∧
  (∀ l, l ≠ next (world s) →
        handlerConfigObjs (world (interceptCommit this matcher handlers isAsync s).1) !! l =
        handlerConfigObjs (world s) !! l) ∧
  edgeArrays (world (interceptCommit this matcher handlers isAsync s).1) =
    edgeArrays (world s).
Proof.
  unfold interceptCommit, intercept, sync, async.
  destruct isAsync; unfold commit; cbn [fst snd world trace on_world ic_container
    ic_handlerConfig]; (repeat split; try done;
    [intros C; rewrite handlerConfigsOf_pushHandlerConfig; reflexivity
    |intros l Hl; cbn; rewrite lookup_alter_ne, lookup_insert_ne; done]).
Qed.

Lemma mutate_intercept this m s :
  signatureOf m = None →
  ∃ matcher handlers isAsync,
    mutate this m s = (interceptCommit this matcher handlers isAsync s).1.
Proof.
  destruct m as [| | |matcher handlers|matcher handlers]; try done; intros _.
  - by exists matcher, handlers, false.
  - by exists matcher, handlers, true.
Qed.

(** What [sync()] or [async()] of an interception does to the store: the
    handler config is pushed on the array of its container, with
    [isAsync] set. *)
Lemma commit_effect_all (b : bool) (i : Interception) s :
  registrationObjs (world (commit b i s).1) = registrationObjs (world s) ∧
  graphs (world (commit b i s).1) = graphs (world s) ∧
  edgeArrays (world (commit b i s).1) = edgeArrays (world s) ∧
  next (world (commit b i s).1) = next (world s) ∧
  (∀ C, handlerConfigsOf (world (commit b i s).1) C =
        if decide (handlerConfigs C = handlerConfigs (ic_container i))
        then (handlerConfigsOf (world s) (ic_container i) ++ [ic_handlerConfig i])%list
        else handlerConfigsOf (world s) C) ∧
  (∀ l, l ≠ ic_handlerConfig i →
        handlerConfigObjs (world (commit b i s).1) !! l = handlerConfigObjs (world s) !! l).
Proof.
  unfold commit. cbn [fst world on_world]. repeat split; try done.
  - intros C. by rewrite handlerConfigsOf_pushHandlerConfig.
  - intros l Hl. cbn. by rewrite lookup_alter_ne.
Qed.

(** What a [register*] call does to the graphs: the map of [this] may get
    an entry, for an array of its own, under a key it had none under; and
    the only array written to is one that the map of [this] holds, or has
    got, under the key it is written under. *)
Lemma register_graph this m s :
  is_Some (signatureOf m) →
  (∀ C key,
      graphMapOf (world (mutate this m s)) C !! key = graphMapOf (world s) C !! key ∨
      (graph C = graph this ∧ graphMapOf (world s) this !! key = None ∧
       graphMapOf (world (mutate this m s)) C !! key = Some (graph this))) ∧
  (∀ creator key,
      arrayOf (world (mutate this m s)) creator key = arrayOf (world s) creator key ∨
      creator = default (graph this) (graphMapOf (world s) this !! key)).
Proof.
  intros Hm.
  destruct m as [c args|instance args|factory args|? ?|? ?]; cbn [mutate];
    try (by destruct Hm).
  - unfold registerType.
    destruct (getTypeInfo c _) as [typeInfo|e]; [|by split; intros; left].
    match goal with |- context [fold_left ?f ?l ?s0] =>
      pose proof (fun C key => addEdges_graphMapOf this (ti_name typeInfo) l s0 C key)
        as Hmap;
      pose proof (fun creator key =>
                    addEdges_arrayOf this (ti_name typeInfo) l s0 creator key) as Harr;
      set (s2 := fold_left f l s0) in *
    end.
    assert (∀ (o : outcome (list string)) (x : St U) (a : outcome Container)
              (b : value → outcome Container),
              (match o with Return _ => (x, a) | Throw e => (x, b e) end).1 = x)
      as Hfst by (by intros []).
    rewrite Hfst. split.
    + intros C key. rewrite Hmap. case_decide as Hnew; [|by left].
      destruct Hnew as (HC & -> & Hnone & _). right. by repeat split.
    + intros creator key.
      destruct (decide (creator = default (graph this)
                                    (graphMapOf (world s) this !! key)))
        as [Heq|Hne]; [by right|].
      left. apply Harr. intros [Hc ->]. by apply Hne.
  - split; intros; by left.
  - unfold registerFactory. destruct (String.eqb _ _); split; intros; by left.
Qed.

(** A change made through [A] keeps the objects of [A] allocated. *)
Lemma mutate_allocated A m s :
  allocated (world s) A → allocated (world (mutate A m s)) A.
Proof.
  intros (Hr & Hh & Hg & Hl). unfold allocated.
  destruct (signatureOf m) as [args|] eqn:Hm.
  - destruct (register_frame A m s) as (_ & Ha & _ & Hn & _); [by rewrite Hm|].
    unfold handlerConfigsOf. by rewrite Ha, Hn.
  - destruct (mutate_intercept A m s Hm) as (matcher & handlers & isAsync & ->).
    destruct (interceptCommit_effect A matcher handlers isAsync s)
      as (_ & _ & _ & _ & Hn & Hhs & _).
    rewrite Hn, Hhs, decide_True by done.
    split; [lia|]. split; [lia|]. split; [lia|].
    apply Forall_app. split; [|apply Forall_singleton; lia].
    eapply Forall_impl; [exact Hl|]. simpl. lia.
Qed.

Lemma separate_sym A B : separate A B → separate B A.
Proof. intros (? & ? & ?). by repeat split. Qed.

Lemma forked_sym A B fork w : forked A B fork w → forked B A fork w.
Proof.
  intros (HA & HB & Hsep & Hshared & Hown).
  split; [done|]. split; [done|]. split; [by apply separate_sym|]. split.
  - intros key Hkey. destruct (Hshared key Hkey). by split.
  - intros key Hkey. destruct (Hown key Hkey). by split.
Qed.

(** One action on one of the two containers: what it leaves alone in the
    other, and what the two go on sharing. *)
Lemma act_frame A B fork a s :
  forked A B fork (world s) →
  match a with Again _ l => l < next (world s) | _ => True end →
  forked A B fork (world (act A a s)) ∧
  registrationsOf (world (act A a s)) B = registrationsOf (world s) B ∧
  handlerConfigsOf (world (act A a s)) B = handlerConfigsOf (world s) B ∧
  match a with
  | Again _ l =>
      ∀ l', l' ≠ l →
        handlerConfigObjs (world (act A a s)) !! l' = handlerConfigObjs (world s) !! l'
  | _ =>
      (fun l => handlerConfigObjs (world (act A a s)) !! l)
        <$> handlerConfigsOf (world s) B =
      (fun l => handlerConfigObjs (world s) !! l) <$> handlerConfigsOf (world s) B
  end ∧
  (∀ key, fork !! key = None →
          graphOf (world (act A a s)) B !! key = graphOf (world s) B !! key) ∧
  (∀ key, is_Some (fork !! key) →
          graphOf (world (act A a s)) B !! key = graphOf (world (act A a s)) A !! key).
Proof.
  intros (HA & HB & Hsep & Hshared & Hown) Hmade.
  pose proof HA as (HAr & HAh & HAg & HAl).
  pose proof HB as (HBr & HBh & HBg & HBl).
  pose proof Hsep as (Hsr & Hsh & Hsg).
  assert (∀ w', (∀ key, is_Some (fork !! key) →
                   graphMapOf w' A !! key = fork !! key ∧
                   graphMapOf w' B !! key = fork !! key) →
                ∀ key, is_Some (fork !! key) →
                  graphOf w' B !! key = graphOf w' A !! key) as Hcommon.
  { intros w' Hs key Hkey. destruct (Hs key Hkey) as [HkA HkB].
    by rewrite !graphOf_lookup, HkA, HkB. }
  destruct a as [m|matcher handlers|isAsync l]; cbn [act].
  - destruct (signatureOf m) as [args|] eqn:Hm.
    + destruct (register_frame A m s) as (_ & Ha & Ho & Hn & _ & Hrs);
        [by rewrite Hm|].
      destruct (register_graph A m s) as [Hmap Harr]; [by rewrite Hm|].
      assert (∀ C, handlerConfigsOf (world (mutate A m s)) C =
                   handlerConfigsOf (world s) C) as Hhs
        by (intros C; unfold handlerConfigsOf; by rewrite Ha).
      assert (∀ key, is_Some (fork !! key) →
                graphMapOf (world (mutate A m s)) A !! key = fork !! key ∧
                graphMapOf (world (mutate A m s)) B !! key = fork !! key) as Hshared'.
      { intros key Hkey. destruct (Hshared key Hkey) as [HkA HkB]. split.
        - destruct (Hmap A key) as [->|(_ & Hnone & _)]; [done|].
          rewrite HkA in Hnone. rewrite Hnone in Hkey. by destruct Hkey.
        - destruct (Hmap B key) as [->|(Hg & _)]; [done|]. by destruct Hsg. }
      assert (∀ key, graphMapOf (world (mutate A m s)) B !! key =
                     graphMapOf (world s) B !! key) as HmapB.
      { intros key. destruct (Hmap B key) as [->|(Hg & _)]; [done|]. by destruct Hsg. }
      split; [|split; [|split; [|split; [|split]]]].
      * split; [|split; [|split; [|split]]].
        -- unfold allocated. by rewrite Hn, Hhs.
        -- unfold allocated. by rewrite Hn, Hhs.
        -- done.
        -- exact Hshared'.
        -- intros key Hkey. destruct (Hown key Hkey) as [HkA HkB]. split.
           ++ destruct (Hmap A key) as [->|(_ & _ & ->)]; [done|by right].
           ++ by rewrite HmapB.
      * apply Hrs. by intros ?.
      * apply Hhs.
      * by rewrite Ho.
      * intros key Hkey. rewrite !graphOf_lookup, HmapB.
        destruct (Hown key Hkey) as [HkA HkB].
        destruct (graphMapOf (world s) B !! key) as [creator|] eqn:HB'; [|done].
        cbn [fmap option_fmap option_map]. f_equal.
        destruct (Harr creator key) as [->|Hc]; [done|].
        exfalso. destruct HkB as [?|[= ->]]; [done|].
        destruct HkA as [HkA|HkA]; rewrite HkA in Hc; cbn in Hc; by apply Hsg.
      * by apply Hcommon.
    + destruct (mutate_intercept A m s Hm) as (matcher & handlers & b & ->).
      destruct (interceptCommit_effect A matcher handlers b s)
        as (Hrs & Hgs & _ & _ & Hn & Hhs & Hos & He).
      assert (∀ C, graphMapOf (world (interceptCommit A matcher handlers b s).1) C =
                   graphMapOf (world s) C) as Hmap
        by (intros C; unfold graphMapOf; by rewrite Hgs).
      assert (∀ C, graphOf (world (interceptCommit A matcher handlers b s).1) C =
                   graphOf (world s) C) as Hgraph
        by (intros C; by apply graphOf_ext).
      split; [|split; [|split; [|split; [|split]]]].
      * split; [|split; [|split; [|split]]].
        -- unfold allocated. rewrite Hn, Hhs, decide_True by done.
           split; [lia|]. split; [lia|]. split; [lia|].
           apply Forall_app. split; [|apply Forall_singleton; lia].
           eapply Forall_impl; [exact HAl|]. simpl. lia.
        -- unfold allocated. rewrite Hn, Hhs, decide_False by (by intros ?).
           split; [lia|]. split; [lia|]. split; [lia|].
           eapply Forall_impl; [exact HBl|]. simpl. lia.
        -- done.
        -- intros key Hkey. rewrite !Hmap. by apply Hshared.
        -- intros key Hkey. rewrite !Hmap. by apply Hown.
      * unfold registrationsOf. by rewrite Hrs.
      * rewrite Hhs, decide_False; [done|]. by intros ?.
      * apply Forall_fmap_ext. eapply Forall_impl; [exact HBl|].
        simpl. intros l Hlt. apply Hos. lia.
      * intros key _. by rewrite Hgraph.
      * intros key Hkey. by rewrite !Hgraph, (Hcommon (world s) Hshared).
  - assert (∀ C, graphMapOf (world (intercept A matcher handlers s).1) C =
                 graphMapOf (world s) C) as Hmap by done.
    assert (∀ C, graphOf (world (intercept A matcher handlers s).1) C =
                 graphOf (world s) C) as Hgraph
      by (intros C; by apply graphOf_ext).
    assert (∀ C, handlerConfigsOf (world (intercept A matcher handlers s).1) C =
                 handlerConfigsOf (world s) C) as Hhs by done.
    assert (next (world (intercept A matcher handlers s).1) = S (next (world s)))
      as Hn by done.
    split; [|split; [|split; [|split; [|split]]]].
    + split; [|split; [|split; [|split]]].
      * unfold allocated. rewrite Hn, Hhs.
        split; [lia|]. split; [lia|]. split; [lia|].
        eapply Forall_impl; [exact HAl|]. simpl. lia.
      * unfold allocated. rewrite Hn, Hhs.
        split; [lia|]. split; [lia|]. split; [lia|].
        eapply Forall_impl; [exact HBl|]. simpl. lia.
      * done.
      * intros key Hkey. rewrite !Hmap. by apply Hshared.
      * intros key Hkey. rewrite !Hmap. by apply Hown.
    + done.
    + done.
    + apply Forall_fmap_ext. eapply Forall_impl; [exact HBl|].
      simpl. intros l Hlt. unfold intercept. cbn [fst world on_world].
      cbn. rewrite lookup_insert_ne; [done|lia].
    + intros key _. by rewrite Hgraph.
    + intros key Hkey. by rewrite !Hgraph, (Hcommon (world s) Hshared).
  - destruct (commit_effect_all isAsync (mkInterception l A) s)
      as (Hrs & Hgs & He & Hn & Hhs & Hos).
    cbn [ic_container ic_handlerConfig] in Hhs, Hos.
    assert (∀ C, graphMapOf (world (commit isAsync (mkInterception l A) s).1) C =
                 graphMapOf (world s) C) as Hmap
      by (intros C; unfold graphMapOf; by rewrite Hgs).
    assert (∀ C, graphOf (world (commit isAsync (mkInterception l A) s).1) C =
                 graphOf (world s) C) as Hgraph
      by (intros C; by apply graphOf_ext).
    split; [|split; [|split; [|split; [|split]]]].
    + split; [|split; [|split; [|split]]].
      * unfold allocated. rewrite Hn, Hhs, decide_True by done.
        split; [lia|]. split; [lia|]. split; [lia|].
        apply Forall_app. split; [done|]. by apply Forall_singleton.
      * unfold allocated. rewrite Hn, Hhs, decide_False by (by intros ?). done.
      * done.
      * intros key Hkey. rewrite !Hmap. by apply Hshared.
      * intros key Hkey. rewrite !Hmap. by apply Hown.
    + unfold registrationsOf. by rewrite Hrs.
    + rewrite Hhs, decide_False; [done|]. by intros ?.
    + intros l' Hl'. by apply Hos.
    + intros key _. by rewrite Hgraph.
    + intros key Hkey. by rewrite !Hgraph, (Hcommon (world s) Hshared).
Qed.

Lemma made_app this child actions actions' s :
  made this child (actions ++ actions') s ↔
  made this child actions s ∧ made this child actions' (actEither this child actions s).
Proof.
  revert s. induction actions as [|a actions IH]; intros s; cbn [made app].
  - unfold actEither. cbn [fold_left]. tauto.
  - rewrite IH. unfold actEither. cbn [fold_left]. tauto.
Qed.

(** However the two containers are changed after the fork, they stay as
    the fork has left them towards one another. *)
Lemma actEither_forked this child fork actions s :
  forked this child fork (world s) → made this child actions s →
  forked this child fork (world (actEither this child actions s)).
Proof.
  unfold actEither. revert s.
  induction actions as [|[onChild a] actions IH]; intros s Hf Hmade;
    cbn [fold_left fst snd made] in *; [done|].
  destruct Hmade as [Ha Hrest]. apply IH; [|done].
  destruct onChild.
  - apply forked_sym. by apply (act_frame child this fork a s); [apply forked_sym|].
  - by apply (act_frame this child fork a s).
Qed.

(** [resolveSync] and [resolve] of an instance registered with the
    default lifetime and no injections. *)
Lemma resolve_plain_instance C key instance s :
  key ≠ EmptyString →
  registrationsOf (world s) C !! key = Some (InstanceReg key Transient [] instance) →
  (resolveSync E C (KeyStr key) s).2 = Return instance ∧
  (resolve E C (KeyStr key) s).2 = Delivered None instance.
Proof.
  intros Hkey Hreg.
  assert (str_or (Some key) (getKeyFromInstance instance) = key) as Hor.
  { unfold str_or. by apply String.eqb_neq in Hkey as ->. }
  pose proof (getRegistration_Own _ _ _ _ Hreg) as Hown.
  unfold resolveSync, resolve. cbn [normalizeKey]. rewrite Hown.
  unfold resolveRegistrationSync, resolveRegistration, buildSync, build, injectAndReturn.
  cbn [reg_lifetime fetch constructSync construct Transient_fetch truthy].
  unfold injectSync, inject. rewrite Hor. cbn [world log]. rewrite Hown.
  cbn [reg_injections injectEachSync injectEach]. by split.
Qed.

(** The fork: the child holds what its parent holds, the parent is as it
    was, and the two stand towards one another as [forked] says. *)
Lemma createChildContainer_forked this s :
  allocated (world s) this →
  parent (createChildContainer this s).2 = Some this ∧
  view (world (createChildContainer this s).1) (createChildContainer this s).2 =
    view (world s) this ∧
  view (world (createChildContainer this s).1) this = view (world s) this ∧
  forked this (createChildContainer this s).2 (graphMapOf (world s) this)
    (world (createChildContainer this s).1).
Proof.
  intros (Hr & Hh & Hg & Hl).
  pose proof (fun C => createChildContainer_graphOf this s C Hr Hh Hg) as Hgraph.
  destruct (createChildContainer_effect this s Hr Hh Hg)
    as (-> & Hrs & Hhs & Hgs & Ho & Hn & _ & _ & He).
  unfold view, forked, allocated, separate. rewrite !Hrs, !Hhs, !Hgraph, Ho, Hn.
  cbn [parent registrations handlerConfigs graph].
  rewrite !(decide_True (P := _ = _)) by done.
  rewrite !decide_False by lia.
  split; [done|]. split; [done|]. split; [done|].
  split; [|split; [|split; [|split]]].
  - split; [lia|]. split; [lia|]. split; [lia|].
    eapply Forall_impl; [exact Hl|]. simpl. lia.
  - split; [lia|]. split; [lia|]. split; [lia|].
    eapply Forall_impl; [exact Hl|]. simpl. lia.
  - split; [lia|]. split; lia.
  - intros key Hkey. rewrite !Hgs. cbn [graph].
    rewrite decide_False by lia. rewrite decide_True by done. done.
  - intros key Hkey. rewrite !Hgs. cbn [graph].
    rewrite decide_False by lia. rewrite decide_True by done.
    rewrite Hkey. split; by left.
Qed.

(** C4 (as amended).  For a container whose objects were created in the
    store (and whose registrations object has its original prototype):
    the child made by [createChildContainer] holds what its parent holds
    at that moment (registrations, handler configs, graph edges) and
    keeps a reference to the parent, which is left as it was.  From then
    on, whatever is done with the two ([register*] calls,
    [intercept(...)] with or without its [.sync()] / [.async()],
    [sync()] / [async()] of an interception made earlier), what is done
    with one changes neither the registrations nor the list of handler
    configs of the other, and a [register*] or [intercept] call on one
    changes no handler config that the other holds.  The copy is shallow, though.  The handler configs
    are shared objects: [sync()] or [async()] of an interception sets
    [isAsync] on its config for every container that holds it.  The
    arrays of graph edges are shared: under a key that had edges at the
    fork, the two graphs have the same edges ever after, whichever of
    the two adds one; only under the other keys does each keep its
    edges to itself.  In particular, when the parent has something
    registered under a key and the child then registers something else
    under that key, the parent resolves the key from its own registration
    and the child from the new one: for two plain values, the parent
    yields the first and the child the second. *)
Theorem child_container_isolated this s :
  allocated (world s) this →
  plain (world s) this →
  let child := (createChildContainer this s).2 in
  let s1 := (createChildContainer this s).1 in
  parent child = Some this ∧
  view (world s1) child = view (world s) this ∧
  view (world s1) this = view (world s) this ∧
  (∀ actions (onChild : bool) a,
      made this child (actions ++ [(onChild, a)]) s1 →
      let s' := actEither this child actions s1 in
      let acting := if onChild then child else this in
      let other := if onChild then this else child in
      let s'' := act acting a s' in
      registrationsOf (world s'') other = registrationsOf (world s') other ∧
      handlerConfigsOf (world s'') other = handlerConfigsOf (world s') other ∧
      match a with
      | Again _ l =>
          ∀ l', l' ≠ l →
            handlerConfigObjs (world s'') !! l' = handlerConfigObjs (world s') !! l'
      | _ =>
          (fun l => handlerConfigObjs (world s'') !! l)
            <$> handlerConfigsOf (world s'') other =
          (fun l => handlerConfigObjs (world s') !! l)
            <$> handlerConfigsOf (world s') other
      end ∧
      (∀ key, graphOf (world s) this !! key = None →
              graphOf (world s'') other !! key = graphOf (world s') other !! key) ∧
      (∀ key, is_Some (graphOf (world s) this !! key) →
              graphOf (world s'') child !! key = graphOf (world s'') this !! key)) ∧
  (∀ m1 m2 key r1 r2,
      written m1 = Some (key, r1) →
      written m2 = Some (key, r2) →
      let s0 := mutate this m1 s in
      let child := (createChildContainer this s0).2 in
      let s2 := mutate child m2 (createChildContainer this s0).1 in
      resolveSync E this (KeyStr key) s2 = resolveRegistrationSync E this key r1 s2 ∧
      resolve E this (KeyStr key) s2 = resolveRegistration E this key r1 s2 ∧
      resolveSync E child (KeyStr key) s2 = resolveRegistrationSync E child key r2 s2 ∧
      resolve E child (KeyStr key) s2 = resolveRegistration E child key r2 s2 ∧
      (∀ a b,
          key ≠ EmptyString →
          r1 = InstanceReg key Transient [] a →
          r2 = InstanceReg key Transient [] b →
          (resolveSync E this (KeyStr key) s2).2 = Return a ∧
          (resolve E this (KeyStr key) s2).2 = Delivered None a ∧
          (resolveSync E child (KeyStr key) s2).2 = Return b ∧
          (resolve E child (KeyStr key) s2).2 = Delivered None b)).
Proof.
  intros Halloc _. cbv zeta.
  destruct (createChildContainer_forked this s Halloc) as (Hparent & Hcopy & Hthis & Hf).
  split; [exact Hparent|]. split; [exact Hcopy|]. split; [exact Hthis|]. split.
  - intros actions onChild a [Hrun Hlast]%made_app.
    cbn [made fst snd] in Hlast. destruct Hlast as [Hlast _].
    pose proof (actEither_forked this _ _ actions _ Hf Hrun) as Hf'.
    set (child := (createChildContainer this s).2) in *.
    set (s' := actEither this child actions (createChildContainer this s).1) in *.
    assert (∀ key, graphOf (world s) this !! key = None ↔
                   graphMapOf (world s) this !! key = None) as Hnone.
    { intros key. rewrite graphOf_lookup.
      by destruct (graphMapOf (world s) this !! key). }
    assert (∀ key, is_Some (graphOf (world s) this !! key) ↔
                   is_Some (graphMapOf (world s) this !! key)) as Hsome.
    { intros key. rewrite graphOf_lookup.
      destruct (graphMapOf (world s) this !! key); cbn; split; intros [? ?];
        by eauto. }
    destruct onChild.
    + destruct (act_frame child this _ a s' (forked_sym _ _ _ _ Hf') Hlast)
        as (_ & Hr & Hh & Hobjs & Hown & Hshared).
      split; [exact Hr|]. split; [exact Hh|].
      split; [rewrite Hh; exact Hobjs|].
      split; [intros key Hkey; by apply Hown, Hnone|].
      intros key Hkey. symmetry. by apply Hshared, Hsome.
    + destruct (act_frame this child _ a s' Hf' Hlast)
        as (_ & Hr & Hh & Hobjs & Hown & Hshared).
      split; [exact Hr|]. split; [exact Hh|].
      split; [rewrite Hh; exact Hobjs|].
      split; [intros key Hkey; by apply Hown, Hnone|].
      intros key Hkey. by apply Hshared, Hsome.
  - intros m1 m2 key r1 r2 Hw1 Hw2.
    set (s0 := mutate this m1 s).
    assert (allocated (world s0) this) as Halloc0 by (by apply mutate_allocated).
    destruct (createChildContainer_forked this s0 Halloc0) as (_ & _ & Hthis0 & Hf0).
    set (child := (createChildContainer this s0).2) in *.
    set (s1 := (createChildContainer this s0).1) in *.
    assert (registrationsOf (world (mutate child m2 s1)) this !! key = Some r1)
      as Hparent_key.
    { destruct (act_frame child this _ (Call m2) s1 (forked_sym _ _ _ _ Hf0) I)
        as (_ & Hr & _).
      cbn [act] in Hr. rewrite Hr.
      apply (f_equal v_registrations) in Hthis0. cbn [view v_registrations] in Hthis0.
      rewrite Hthis0. unfold s0. rewrite (register_written _ _ _ _ _ Hw1).
      apply lookup_insert_eq. }
    assert (registrationsOf (world (mutate child m2 s1)) child !! key = Some r2)
      as Hchild_key.
    { rewrite (register_written _ _ _ _ _ Hw2). apply lookup_insert_eq. }
    pose proof (getRegistration_Own _ _ _ _ Hparent_key) as Hp.
    pose proof (getRegistration_Own _ _ _ _ Hchild_key) as Hc.
    split; [unfold resolveSync; cbn [normalizeKey]; by rewrite Hp|].
    split; [unfold resolve; cbn [normalizeKey]; by rewrite Hp|].
    split; [unfold resolveSync; cbn [normalizeKey]; by rewrite Hc|].
    split; [unfold resolve; cbn [normalizeKey]; by rewrite Hc|].
    intros a b Hkey -> ->.
    destruct (resolve_plain_instance this key a _ Hkey Hparent_key) as [-> ->].
    destruct (resolve_plain_instance child key b _ Hkey Hchild_key) as [-> ->].
    done.
Qed.

End ChildContainer.

(** *** On the concrete caller *)

(** The copy is shallow.  [Foo], which needs a [Bar], is registered and
    the container forked.  When the parent then registers a [Foo] that
    needs a [Baz], the edge goes into the array that the child holds
    too: the child's graph changes, and a [Baz] that needs a [Foo], which
    the child could register before, is now refused as a cycle.
    Likewise an interception that the parent has committed with
    [sync()] before the fork: when its [async()] is called afterwards,
    the handler config that the child holds says [isAsync] as well. *)
Lemma child_shares_edge_arrays :
  let child := (createChildContainer Example.container Example.withFooType).2 in
  let s1 := (createChildContainer Example.container Example.withFooType).1 in
  let s2 := mutate Example.container (RegisterType Example.FooBaz SigNone) s1 in
  let i := (intercept Example.container (MValue (VStr "go")) [1] Example.start).2 in
  let s3 :=
    (sync i (intercept Example.container (MValue (VStr "go")) [1] Example.start).1).1 in
  let child' := (createChildContainer Example.container s3).2 in
  let s4 := (createChildContainer Example.container s3).1 in
  let s5 := (async i s4).1 in
  graphOf (world s1) child !! "Foo" = Some ["Bar"] ∧
  graphOf (world s2) child !! "Foo" = Some ["Bar"; "Baz"] ∧
  view (world s2) child ≠ view (world s1) child ∧
  (registerType child Example.BazFoo SigNone s1).2 = Return child ∧
  (registerType child Example.BazFoo SigNone s2).2 =
    Throw (VErr (CyclicDependencyError "Foo" "Baz")) ∧
  ic_container i = Example.container ∧
  lastHandlerConfig (world s4) child' =
    Some (mkHandlerConfig [1] (ByName "go") (Some false)) ∧
  lastHandlerConfig (world s5) child' =
    Some (mkHandlerConfig [1] (ByName "go") (Some true)) ∧
  view (world s5) child' ≠ view (world s4) child'.
Proof.
  cbv zeta.
  split; [vm_compute; reflexivity|]. split; [vm_compute; reflexivity|].
  split.
  { intros H. apply (f_equal (fun v => v_graph v !! "Foo")) in H.
    vm_compute in H. discriminate H. }
  split; [vm_compute; reflexivity|]. split; [vm_compute; reflexivity|].
  split; [vm_compute; reflexivity|].
  split; [vm_compute; reflexivity|]. split; [vm_compute; reflexivity|].
  intros H. apply (f_equal v_handlerConfigs) in H.
  vm_compute in H. discriminate H.
Qed.

(** [foo] is registered under ['X'] in a container that has [Foo]
    registered, which is then forked; the child registers [other] under
    ['X'].  And, forked as it is, the parent registers a [Foo] that needs
    a [Baz]. *)
Lemma child_container_isolated_witness :
  let m1 := RegisterInstance Example.foo (SigPositional (Some "X") None []) in
  let m2 := RegisterInstance Example.other (SigPositional (Some "X") None []) in
  let s := Example.withFooType in
  let s0 := mutate Example.container m1 s in
  let child0 := (createChildContainer Example.container s0).2 in
  let s2 := mutate child0 m2 (createChildContainer Example.container s0).1 in
  let child := (createChildContainer Example.container s).2 in
  let s1 := (createChildContainer Example.container s).1 in
  let a := Call (RegisterType Example.FooBaz SigNone) in
  allocated (world s) Example.container ∧
  plain (world s) Example.container ∧
  written m1 = Some ("X", InstanceReg "X" Transient [] Example.foo) ∧
  written m2 = Some ("X", InstanceReg "X" Transient [] Example.other) ∧
  "X" ≠ EmptyString ∧
  made Example.container child ([] ++ [(false, a)]) s1 ∧
  is_Some (graphOf (world s) Example.container !! "Foo") ∧
  (resolveSync Example.env Example.container (KeyStr "X") s2).2 = Return Example.foo ∧
  (resolveSync Example.env child0 (KeyStr "X") s2).2 = Return Example.other ∧
  registrationsOf (world (act Example.container a s1)) child =
    registrationsOf (world s1) child ∧
  graphOf (world (act Example.container a s1)) child !! "Foo" =
    graphOf (world (act Example.container a s1)) Example.container !! "Foo".
Proof.
  cbv zeta.
  assert (allocated (world Example.withFooType) Example.container) as Halloc.
  { unfold allocated. repeat split; try (vm_compute; lia).
    vm_compute. apply Forall_nil_2. }
  assert (plain (world Example.withFooType) Example.container) as Hplain
    by (vm_compute; reflexivity).
  assert (written (RegisterInstance Example.foo (SigPositional (Some "X") None [])) =
            Some ("X", InstanceReg "X" Transient [] Example.foo)) as Hw1 by reflexivity.
  assert (written (RegisterInstance Example.other (SigPositional (Some "X") None [])) =
            Some ("X", InstanceReg "X" Transient [] Example.other)) as Hw2 by reflexivity.
  assert ("X" ≠ EmptyString) as Hkey by discriminate.
  assert (made Example.container
            (createChildContainer Example.container Example.withFooType).2
            ([] ++ [(false, Call (RegisterType Example.FooBaz SigNone))])
            (createChildContainer Example.container Example.withFooType).1) as Hmade
    by (cbn [app made snd]; exact (conj I I)).
  assert (is_Some (graphOf (world Example.withFooType) Example.container !! "Foo"))
    as Hfoo by (exists ["Bar"]; vm_compute; reflexivity).
  split; [exact Halloc|]. split; [exact Hplain|].
  split; [exact Hw1|]. split; [exact Hw2|]. split; [exact Hkey|].
  split; [exact Hmade|]. split; [exact Hfoo|].
  destruct (child_container_isolated Example.env Example.container Example.withFooType
              Halloc Hplain) as (_ & _ & _ & Hlater & Hscenario).
  pose proof (Hscenario _ _ _ _ _ Hw1 Hw2) as H.
  cbv zeta in H. destruct H as (_ & _ & _ & _ & Hvalues).
  destruct (Hvalues _ _ Hkey eq_refl eq_refl) as (Hparent & _ & Hchild & _).
  split; [exact Hparent|]. split; [exact Hchild|].
  pose proof (Hlater _ _ _ Hmade) as H. cbv zeta in H.
  destruct H as (Hregs & _ & _ & _ & Hshared).
  split; [exact Hregs|]. exact (Hshared "Foo" Hfoo).
Defined.

(** A second call under a key can throw although the same call on a new
    container returns.  [Bar], which needs a [Foo], is registered; then
    [Foo], which needs a [Bar]: that call throws the cycle error, but has
    written its entry and its edge.  A [Foo] that needs nothing is then
    registered under the same key: the call on its own returns the
    container, but here it throws the cycle error too, for the edge that
    the first [Foo] has left in the graph. *)
Lemma reregistration_throws :
  let first := RegisterType Example.Foo SigNone in
  let second := RegisterType Example.plainFoo SigNone in
  let s0 := mutate Example.container (RegisterType Example.Bar SigNone) Example.start in
  let s1 := mutate Example.container first s0 in
  fst <$> written first = Some "Foo" ∧
  fst <$> written second = Some "Foo" ∧
  registered Example.container second Example.start = Some (Return Example.container) ∧
  registered Example.container second s0 = Some (Return Example.container) ∧
  registered Example.container second s1 =
    Some (Throw (VErr (CyclicDependencyError "Bar" "Foo"))) ∧
  (∃ r2, written second = Some ("Foo", r2) ∧
         registrationsOf (world (mutate Example.container second s1)) Example.container
           !! "Foo" = Some r2).
Proof.
  cbv zeta.
  split; [vm_compute; reflexivity|]. split; [vm_compute; reflexivity|].
  split; [vm_compute; reflexivity|]. split; [vm_compute; reflexivity|].
  split; [vm_compute; reflexivity|].
  eexists. split; [reflexivity|]. vm_compute. reflexivity.
Qed.

(** [foo] is registered, which writes under ['Foo']; then a factory is
    registered under ['Foo'] with a caching lifetime. *)
Lemma reregistration_replaces_witness :
  let first := RegisterInstance Example.foo (Example.options None [0]) in
  let args := SigOptions (mkOptions (Some "Foo") (Some (UserLifetime 0)) None) in
  let second := RegisterFactory 0 args in
  let s2 := mutate Example.container second
              (mutate Example.container first Example.start) in
  written first = Some ("Foo", InstanceReg "Foo" Transient [0] Example.foo) ∧
  written second = Some ("Foo", FactoryReg "Foo" (UserLifetime 0) [] 0) ∧
  signatureOf second = Some args ∧
  registrationsOf (world s2) Example.container !! "Foo" =
    Some (FactoryReg "Foo" (UserLifetime 0) [] 0) ∧
  (resolveSync Example.env Example.container (KeyStr "Foo") s2).2 =
    Return (VObj "Made" 0).
Proof.
  cbv zeta.
  set (first := RegisterInstance Example.foo (Example.options None [0])).
  set (args := SigOptions (mkOptions (Some "Foo") (Some (UserLifetime 0)) None)).
  assert (written first = Some ("Foo", InstanceReg "Foo" Transient [0] Example.foo))
    as Hfirst by reflexivity.
  assert (written (RegisterFactory 0 args) =
            Some ("Foo", FactoryReg "Foo" (UserLifetime 0) [] 0)) as Hsecond
    by reflexivity.
  assert (signatureOf (RegisterFactory 0 args) = Some args) as Hargs by reflexivity.
  split; [exact Hfirst|]. split; [exact Hsecond|]. split; [exact Hargs|].
  pose proof (reregistration_replaces Example.env Example.container _ _ _ _ _ _
                Example.start Hfirst Hsecond Hargs) as H.
  cbv zeta in H. destruct H as (_ & Hkey & _ & _ & _ & _ & _ & Hsync & _).
  split; [exact Hkey|]. rewrite Hsync. vm_compute. reflexivity.
Defined.

(** [container.intercept('go', 1, 2).sync()] on the new container, and
    [.async()] on what the same [intercept] call returned. *)
Lemma intercept_commit_witness :
  let i := (intercept Example.container (MValue (VStr "go")) [1; 2] Example.start).2 in
  let s1 := (intercept Example.container (MValue (VStr "go")) [1; 2] Example.start).1 in
  is_Some (signatureOf (RegisterInstance Example.foo SigNone)) ∧
  handlerConfigs (mkContainer None 7 8 9) ≠ handlerConfigs Example.container ∧
  handlerConfigObjs (world s1) !! ic_handlerConfig i =
    Some (mkHandlerConfig [1; 2] (ByName "go") None) ∧
  handlerConfigsOf
    (world (mutate Example.container (RegisterInstance Example.foo SigNone)
              Example.start)) Example.container =
    handlerConfigsOf (world Example.start) Example.container ∧
  handlerConfigsOf (world s1) Example.container = [] ∧
  (interceptCommit Example.container (MValue (VStr "go")) [1; 2] false Example.start).2 =
    Example.container ∧
  (∃ predicate,
      lastHandlerConfig
        (world (interceptCommit Example.container (MValue (VStr "go")) [1; 2] false
                  Example.start).1) Example.container =
        Some (mkHandlerConfig [1; 2] predicate (Some false)) ∧
      matches Example.env predicate Example.foo "go" = VBool true ∧
      matches Example.env predicate Example.foo "stop" = VBool false) ∧
  handlerConfigsOf
    (world (interceptCommit Example.container (MValue (VStr "go")) [1; 2] false
              Example.start).1) (mkContainer None 7 8 9) =
    handlerConfigsOf (world Example.start) (mkContainer None 7 8 9) ∧
  handlerConfigObjs (world (commit true i s1).1) !! ic_handlerConfig i =
    Some (mkHandlerConfig [1; 2] (ByName "go") (Some true)).
Proof.
  cbv zeta.
  assert (is_Some (signatureOf (RegisterInstance Example.foo SigNone))) as Hm
    by (by eexists).
  assert (handlerConfigs (mkContainer None 7 8 9) ≠ handlerConfigs Example.container)
    as Hne by (vm_compute; discriminate).
  assert (handlerConfigObjs
            (world (intercept Example.container (MValue (VStr "go")) [1; 2]
                      Example.start).1)
            !! ic_handlerConfig
                 (intercept Example.container (MValue (VStr "go")) [1; 2]
                    Example.start).2 =
          Some (mkHandlerConfig [1; 2] (ByName "go") None)) as Hobj
    by (vm_compute; reflexivity).
  split; [exact Hm|]. split; [exact Hne|]. split; [exact Hobj|].
  destruct (intercept_commit Example.env Example.container (MValue (VStr "go")) [1; 2]
              Example.start) as (Hintercept & Hregister & Hcommit & Hlater).
  split; [exact (Hregister _ Example.container Hm)|].
  split; [rewrite Hintercept; vm_compute; reflexivity|].
  pose proof (Hcommit false) as H. cbv zeta in H.
  destruct H as (Hret & _ & (config & _ & predicate & _ & Hlast & Hmatch) & Hother).
  split; [exact Hret|]. split; [|split; [exact (Hother _ Hne)|]].
  - exists predicate. split; [exact Hlast|].
    split; [exact (Hmatch Example.foo "go") | exact (Hmatch Example.foo "stop")].
  - pose proof (Hlater true _ _ Hobj) as H. cbv zeta in H.
    destruct H as (_ & _ & Hasync). exact Hasync.
Defined.

(** * Further properties *)

(** ** Registering and looking up *)

Section Registry.
Context {U : Type} (E : Env U).
Implicit Types (s : St U) (w : World U) (this C : Container).


(** X1.  [new Container(parent)] keeps the parent it is given and holds
    nothing: no registrations, no handler configs, no graph edges.  Its
    registrations object is a new [{}], so a key that is not the name of
    a member of [Object.prototype] is not registered: [isRegistered]
    answers [false], [resolveSync] throws the error naming the key and
    [resolve] hands that error to its callback.  Under the name of such
    a member the lookup finds the member: [isRegistered] answers [true],
    and [resolveSync] and [resolve] throw the [TypeError] of the call on
    its missing [lifetime].  [tryResolveSync] gives [undefined] for
    every key. *)
Theorem new_container_empty (p : option Container) w (events : list Event) key :
  let C := (newContainer p w).2 in
  let s := mkSt (newContainer p w).1 events in
  parent C = p ∧
  registrationsOf (world s) C = ∅ ∧
  handlerConfigsOf (world s) C = [] ∧
  graphOf (world s) C = ∅ ∧
  plain (world s) C ∧
  tryResolveSync E C key s = (s, VUndefined) ∧
  (normalizeKey key ∉ objectPrototype →
     isRegistered C key s = false ∧
     resolveSync E C key s =
       (s, Throw (VErr (UnregisteredKeyError (normalizeKey key)))) ∧
     resolve E C key s =
       (s, Delivered (Some (VErr (UnregisteredKeyError (normalizeKey key))))
             VUndefined)) ∧
  (normalizeKey key ∈ objectPrototype →
     isRegistered C key s = true ∧
     resolveSync E C key s = (s, Throw (VTypeError "fetch")) ∧
     resolve E C key s = (s, Thrown (VTypeError "fetch"))).
Proof.
  cbv zeta.
  destruct (newContainer_effect p w) as (HC & Hr & Hh & Hg & _).
  rewrite HC in *. cbn [world parent].
  set (C := mkContainer p (next w) (S (next w)) (S (S (next w)))) in *.
  assert (registrationsOf (newContainer p w).1 C = ∅) as Hempty
    by (rewrite Hr; by rewrite decide_True).
  assert (∀ k, registrationsOf (newContainer p w).1 C !! k = None) as Hnone
    by (intros k; by rewrite Hempty, lookup_empty).
  split; [done|]. split; [exact Hempty|].
  split; [rewrite Hh; by rewrite decide_True|].
  split.
  { apply map_eq. intros k. rewrite graphOf_lookup, Hg, decide_True by done.
    by rewrite !lookup_empty. }
  split; [apply Hnone|].
  split; [|split].
  - unfold tryResolveSync, resolveSync, getRegistration. cbn [world].
    rewrite Hnone. by case_bool_decide.
  - intros Hkey.
    assert (getRegistration (newContainer p w).1 C (normalizeKey key) = Missing) as Hreg
      by (by apply getRegistration_Missing).
    unfold resolveSync, resolve, isRegistered. cbn [world]. by rewrite Hreg.
  - intros Hkey.
    assert (getRegistration (newContainer p w).1 C (normalizeKey key) = Inherited)
      as Hreg by (by apply getRegistration_Inherited).
    unfold resolveSync, resolve, isRegistered. cbn [world]. by rewrite Hreg.
Qed.


(** [str_or] keeps a key it produced. *)
Lemma str_or_idem key instance :
  str_or (Some (str_or key (getKeyFromInstance instance))) (getKeyFromInstance instance) =
  str_or key (getKeyFromInstance instance).
Proof.
  unfold str_or at 1.
  destruct (String.eqb (str_or key (getKeyFromInstance instance)) EmptyString) eqn:Heq;
    [|done].
  apply String.eqb_eq in Heq. rewrite Heq. unfold str_or in Heq.
  destruct key as [k|]; [|done].
  destruct (String.eqb k EmptyString) eqn:Hk; [done|].
  apply String.eqb_neq in Hk. congruence.
Qed.

(** [resolveSync] and [resolve], in full, of an instance registered with
    the default lifetime and no injections. *)
Lemma resolve_plain_instance_state C k key instance s :
  normalizeKey k = key →
  str_or (Some key) (getKeyFromInstance instance) = key →
  registrationsOf (world s) C !! key = Some (InstanceReg key Transient [] instance) →
  resolveSync E C k s =
    (mkSt (world s) (trace s ++ [EFetch Transient; EStore Transient instance]),
     Return instance) ∧
  resolve E C k s =
    (mkSt (world s) (trace s ++ [EFetch Transient; EStore Transient instance]),
     Delivered None instance).
Proof.
  intros Hk Hor Hreg. pose proof (getRegistration_Own _ _ _ _ Hreg) as Hown.
  unfold resolveSync, resolve. rewrite Hk, Hown.
  unfold resolveRegistrationSync, resolveRegistration, buildSync, build, injectAndReturn.
  cbn [reg_lifetime fetch constructSync construct Transient_fetch truthy].
  unfold injectSync, inject. rewrite Hor. cbn [world log]. rewrite Hown.
  cbn [reg_injections injectEachSync injectEach store Transient_store world].
  unfold log. cbn [trace world]. by rewrite <- !app_assoc.
Qed.

(** X3.  An instance registered with the default lifetime and no injections is
    what [resolveSync] returns and what [resolve] hands to its callback,
    for its key given as a string or as a constructor of that name; the
    key is the one given or, without one, the name of the instance's
    constructor.  The only calls made are [fetch] and [store] of the
    default lifetime. *)
Theorem registerInstance_resolves this instance args s :
  opt_lifetime (resolveSignatureToOptions args) = None →
  default [] (opt_injections (resolveSignatureToOptions args)) = [] →
  let key := str_or (opt_key (resolveSignatureToOptions args))
               (getKeyFromInstance instance) in
  let s1 := (registerInstance this instance args s).1 in
  let s2 := mkSt (world s1)
              (trace s ++ [EFetch Transient; EStore Transient instance]) in
  resolveSync E this (KeyStr key) s1 = (s2, Return instance) ∧
  resolve E this (KeyStr key) s1 = (s2, Delivered None instance) ∧
  (∀ c, ctor_name c = key →
        resolveSync E this (KeyCtor c) s1 = (s2, Return instance) ∧
        resolve E this (KeyCtor c) s1 = (s2, Delivered None instance)).
Proof.
  intros Hlt Hinj. cbv zeta.
  set (key := str_or (opt_key (resolveSignatureToOptions args))
                (getKeyFromInstance instance)).
  set (s1 := (registerInstance this instance args s).1).
  assert (registrationsOf (world s1) this !! key =
            Some (InstanceReg key Transient [] instance)) as Hreg.
  { unfold s1, registerInstance. cbn [fst world on_world].
    rewrite registrationsOf_putRegistration, decide_True by done.
    fold key. rewrite lookup_insert_eq. unfold InstanceRegistration.
    by rewrite Hlt, Hinj. }
  assert (trace s1 = trace s) as Htrace by reflexivity.
  assert (str_or (Some key) (getKeyFromInstance instance) = key) as Hor
    by apply str_or_idem.
  rewrite <- Htrace.
  destruct (resolve_plain_instance_state this (KeyStr key) key instance s1 eq_refl Hor Hreg)
    as [Hs Ha].
  split; [exact Hs|]. split; [exact Ha|].
  intros c Hc. exact (resolve_plain_instance_state this (KeyCtor c) key instance s1 Hc Hor Hreg).
Qed.

(** The extraction fails only for want of a name or on a parameter
    without a type, whose position it reports. *)
Lemma paramTypes_Throw typeName position params e :
  paramTypes typeName position params = Throw e →
  ∃ i, params !! i = Some None ∧
       e = VErr (UnresolvedParameterError (position + i) typeName).
Proof.
  revert position. induction params as [|[t|] params IH]; intros position; simpl.
  - done.
  - destruct (paramTypes typeName (S position) params) eqn:Hrest; [done|].
    intros [= <-]. destruct (IH _ Hrest) as (i & Hi & ->).
    exists (S i). split; [done|]. do 2 f_equal. lia.
  - intros [= <-]. exists 0. split; [done|]. do 2 f_equal. lia.
Qed.

Lemma getTypeInfo_Throw c key e :
  getTypeInfo c key = Throw e →
  (e = VErr MissingKeyError ∧ str_or key (ctor_name c) = EmptyString) ∨
  (∃ i, ctor_params c !! i = Some None ∧
        e = VErr (UnresolvedParameterError (S i) (str_or key (ctor_name c)))).
Proof.
  unfold getTypeInfo.
  destruct (String.eqb _ EmptyString) eqn:Hname.
  - intros [= <-]. left. split; [done|]. by apply String.eqb_eq.
  - destruct (paramTypes _ 1 (ctor_params c)) eqn:Hp; [done|].
    intros [= <-]. right. apply paramTypes_Throw in Hp as (i & Hi & ->). by exists i.
Qed.

(** X4.  The exceptions of registration.  [registerInstance] never throws.
    [registerFactory] throws only its missing-key error and
    [registerType] the errors of the extraction (no name; a parameter,
    whose position is reported, without a type): in these cases the call
    has changed nothing.  The one other exception is the cycle error of
    [registerType], thrown when the entry is already written. *)
Theorem registration_errors this m s e :
  registered this m s = Some (Throw e) →
  (mutate this m s = s ∧ written m = None ∧
   ((∃ factory args, m = RegisterFactory factory args ∧ e = VErr FactoryKeyError) ∨
    (∃ c args, m = RegisterType c args ∧
       (e = VErr MissingKeyError ∨
        ∃ i, ctor_params c !! i = Some None ∧
             e = VErr (UnresolvedParameterError (S i)
                         (str_or (opt_key (resolveSignatureToOptions args))
                            (ctor_name c))))))) ∨
  (∃ c args key r n,
      m = RegisterType c args ∧ written m = Some (key, r) ∧
      e = VErr (CyclicDependencyError n key) ∧
      registrationsOf (world (mutate this m s)) this !! key = Some r).
Proof.
  destruct m as [c args|instance args|factory args|? ?|? ?];
    cbn [registered mutate]; try done.
  - intros [= Hrun].
    destruct (getTypeInfo c (opt_key (resolveSignatureToOptions args)))
      as [typeInfo|e'] eqn:Hti.
    + right.
      assert (written (RegisterType c args) =
                Some (ti_name typeInfo,
                      TypeRegistration (ti_name typeInfo)
                        (opt_lifetime (resolveSignatureToOptions args))
                        (opt_injections (resolveSignatureToOptions args)) typeInfo))
        as Hw by (simpl; by rewrite Hti).
      pose proof (register_written this _ _ _ s Hw) as Hstore. cbn [mutate] in Hstore.
      assert (∃ n, e = VErr (CyclicDependencyError n (ti_name typeInfo))) as (n & ->).
      { revert Hrun. unfold registerType. rewrite Hti, registerType_graph.
        destruct (DepGraph.getChain _ _) as [chain|e'] eqn:Hchain; [done|].
        intros [= <-]. apply DepGraphFacts.getChain_Throw in Hchain as (n & -> & _).
        by exists n. }
      eexists c, args, _, _, n. split; [done|]. split; [exact Hw|]. split; [done|].
      rewrite Hstore. apply lookup_insert_eq.
    + left. revert Hrun. unfold registerType. rewrite Hti. intros [= <-].
      split; [done|]. split; [cbn [written]; by rewrite Hti|].
      right. exists c, args. split; [done|].
      destruct (getTypeInfo_Throw _ _ _ Hti) as [[-> _]|(i & Hi & ->)];
        [by left | right; by exists i].
  - unfold registerFactory. destruct (String.eqb _ _) eqn:Hkey; [|done].
    intros [= <-]. left. split; [done|]. split; [|left; by exists factory, args].
    cbn [written]. by rewrite Hkey.
Qed.

End Registry.

(** ** The injection pipelines *)

Section Injection.
Context {U : Type} (E : Env U).
Implicit Types (s : St U) (w : World U) (this C : Container).

(** X5.  [injectSync] calls the injections of the registration in list order.
    When it returns, each has been called once.  When it throws, the
    exception is the one an injection threw, that injection is the last
    one called, and those after it in the list are not called.  (What an
    injection calls while it runs is recorded inside its own call.) *)
Theorem injectSync_in_order this instance key s registration s' o :
  registrationsOf (world s) this !! str_or key (getKeyFromInstance instance) =
    Some registration →
  injectSync E this instance key s = (s', o) →
  ∃ injected,
    trace s' = (trace s ++ injected)%list ∧
    match o with
    | Return _ =>
        outline <$> injected = injections_of instance (reg_injections registration)
    | Throw e =>
        ∃ pre i post w,
          reg_injections registration = (pre ++ i :: post)%list ∧
          outline <$> injected = injections_of instance (pre ++ [i]) ∧
          (inj_injectSync E i instance this w).2 = Throw e
    end.
Proof.
  intros Hreg. unfold injectSync. rewrite (getRegistration_Own _ _ _ _ Hreg).
  apply injectEachSync_in_order.
Qed.

(** X6.  [inject] starts every injection of the registration once, in list
    order, whether or not one of them has reported an error.  An error it
    hands to its callback is a truthy value that one of them reported.
    Only an injection that throws as it is started ends the loop: the
    exception leaves [inject], and the injections after it are not
    started. *)
Theorem inject_starts_all this instance key s registration s' o :
  registrationsOf (world s) this !! str_or key (getKeyFromInstance instance) =
    Some registration →
  inject E this instance key s = (s', o) →
  ∃ injected,
    trace s' = (trace s ++ injected)%list ∧
    match o with
    | Return r =>
        outline <$> injected = injections_of instance (reg_injections registration) ∧
        (∀ e, r = Some e →
              truthy e = true ∧
              ∃ pre i post w,
                reg_injections registration = (pre ++ i :: post)%list ∧
                (inj_inject E i instance this w).2 = Return e)
    | Throw e =>
        ∃ pre i post w,
          reg_injections registration = (pre ++ i :: post)%list ∧
          outline <$> injected = injections_of instance (pre ++ [i]) ∧
          (inj_inject E i instance this w).2 = Throw e
    end.
Proof.
  intros Hreg. unfold inject. rewrite (getRegistration_Own _ _ _ _ Hreg).
  intros Hrun.
  destruct (injectEach_in_order E _ _ _ _ _ _ _ Hrun) as (injected & Ht & Ho).
  exists injected. split; [exact Ht|]. destruct o as [r|e]; [|exact Ho].
  destruct Ho as (Ho & Herr & _). split; [exact Ho|].
  intros e He. destruct (Herr e He) as [?|(_ & Htruthy & Hex)]; [done|]. by split.
Qed.

(** X7.  Without a key, and with the empty string for one, [injectSync] and
    [inject] go by the name of the instance's constructor.  When the
    container has no registration under the key and the key is not the
    name of a member of [Object.prototype] (and the registrations object
    still has that prototype), [injectSync] throws, and [inject] hands to
    its callback, the error naming the key, and no injection is called.
    When the key is such a name, the lookup finds the member, which has
    no [injections]: [injectSync] throws the [TypeError] of the call of
    [forEach] on it, and [inject] throws the [TypeError] of
    [async.forEach] and does not call back. *)
Theorem inject_key this instance key s :
  let k := str_or key (getKeyFromInstance instance) in
  (key = None ∨ key = Some EmptyString → k = getKeyFromInstance instance) ∧
  injectSync E this instance key s = injectSync E this instance (Some k) s ∧
  inject E this instance key s = inject E this instance (Some k) s ∧
  (registrationsOf (world s) this !! k = None →
   (k ∉ objectPrototype → plain (world s) this →
    injectSync E this instance key s = (s, Throw (VErr (UnregisteredKeyError k))) ∧
    inject E this instance key s = (s, Return (Some (VErr (UnregisteredKeyError k))))) ∧
   (k ∈ objectPrototype →
    injectSync E this instance key s = (s, Throw (VTypeError "forEach")) ∧
    inject E this instance key s = (s, Throw (VTypeError "length")))).
Proof.
  cbv zeta. split; [by intros [->| ->]|].
  unfold injectSync, inject. rewrite str_or_idem.
  split; [done|]. split; [done|]. intros Hnone. split.
  - intros Hkey _.
    assert (getRegistration (world s) this (str_or key (getKeyFromInstance instance)) =
              Missing) as -> by (by apply getRegistration_Missing).
    done.
  - intros Hkey.
    assert (getRegistration (world s) this (str_or key (getKeyFromInstance instance)) =
              Inherited) as -> by (by apply getRegistration_Inherited).
    done.
Qed.

Lemma injectEach_agree this instance injections s :
  Forall (injection_agrees E this instance) injections →
  ∃ s', injectEachSync E this instance injections s = (s', Return tt) ∧
        injectEach E this instance injections None s = (s', Return None).
Proof.
  revert s. induction injections as [|i rest IH]; intros s Hall;
    cbn [injectEachSync injectEach].
  - by exists s.
  - apply Forall_cons in Hall as [Hi Hrest].
    destruct (Hi (world s)) as (r & err & Hsync & Hasync & Herr).
    unfold call. rewrite Hsync, Hasync, Herr.
    destruct (IH (mkSt (world r) (trace s ++ [EInject i instance (trace r)])) Hrest)
      as (s' & -> & ->).
    by exists s'.
Qed.

(** X8.  The two protocols agree wherever neither the construction nor an
    injection makes them differ: on a key that is not registered and is
    not the name of a member of [Object.prototype] (the registrations
    object still having that prototype), on a cache hit, and on a miss
    when the construction yields the same instance in both and every
    injection succeeds in both with the same effect.  They then end in
    the same state and hand over the same instance or error.  On a key
    that is not registered but is the name of a member of
    [Object.prototype] both throw the same [TypeError]: [resolve] does
    not call back. *)
Theorem protocols_agree this key s :
  (registrationsOf (world s) this !! normalizeKey key = None →
   (normalizeKey key ∉ objectPrototype → plain (world s) this →
    ∃ e, resolveSync E this key s = (s, Throw e) ∧
         resolve E this key s = (s, Delivered (Some e) VUndefined)) ∧
   (normalizeKey key ∈ objectPrototype →
    ∃ e, resolveSync E this key s = (s, Throw e) ∧
         resolve E this key s = (s, Thrown e))) ∧
  (∀ registration s1 existing,
      registrationsOf (world s) this !! normalizeKey key = Some registration →
      fetch E (reg_lifetime registration) s = (s1, existing) →
      (truthy existing = true →
       resolveSync E this key s = (s1, Return existing) ∧
       resolve E this key s = (s1, Delivered None existing)) ∧
      (truthy existing = false →
       ∀ s2 err instance registration',
         constructSync E this registration s1 = (s2, Return instance) →
         construct E this registration s1 = (s2, Return (err, instance)) →
         truthy err = false →
         registrationsOf (world s2) this
           !! str_or (Some (normalizeKey key)) (getKeyFromInstance instance) =
           Some registration' →
         Forall (injection_agrees E this instance) (reg_injections registration') →
         ∃ s', resolveSync E this key s = (s', Return instance) ∧
               resolve E this key s = (s', Delivered None instance))).
Proof.
  split.
  - intros Hnone. split.
    + intros Hkey _. eexists. unfold resolveSync, resolve.
      assert (getRegistration (world s) this (normalizeKey key) = Missing) as ->
        by (by apply getRegistration_Missing).
      done.
    + intros Hkey. eexists. unfold resolveSync, resolve.
      assert (getRegistration (world s) this (normalizeKey key) = Inherited) as ->
        by (by apply getRegistration_Inherited).
      done.
  - intros registration s1 existing Hreg Hfetch.
    unfold resolveSync, resolve, resolveRegistrationSync, resolveRegistration.
    rewrite (getRegistration_Own _ _ _ _ Hreg), Hfetch.
    split; [by intros ->|]. intros ->.
    intros s2 err instance registration' Hcs Hc Herr Hreg' Hall.
    unfold buildSync, build, injectAndReturn, injectSync, inject.
    rewrite Hcs, Hc, Herr, (getRegistration_Own _ _ _ _ Hreg').
    destruct (injectEach_agree this instance _ s2 Hall) as (s3 & -> & ->).
    by eexists.
Qed.

End Injection.

(** ** Resolving what was registered *)

Section RegisterResolve.
Context {U : Type} (E : Env U).
Implicit Types (s r : St U) (w : World U) (this C : Container).

(** [resolveSync] and [resolve] of a registration with the default
    lifetime and no injections, from the outcome of its construction. *)
Lemma resolve_defaults this key registration s :
  registrationsOf (world s) this !! key = Some registration →
  reg_lifetime registration = Transient →
  reg_injections registration = [] →
  (∀ s2 o,
      constructSync E this registration (log (EFetch Transient) (world s) s) = (s2, o) →
      match o with
      | Throw e => resolveSync E this (KeyStr key) s = (s2, Throw e)
      | Return instance =>
          str_or (Some key) (getKeyFromInstance instance) = key →
          registrationsOf (world s2) this !! key = Some registration →
          resolveSync E this (KeyStr key) s =
            (log (EStore Transient instance) (world s2) s2, Return instance)
      end) ∧
  (∀ s2 o,
      construct E this registration (log (EFetch Transient) (world s) s) = (s2, o) →
      match o with
      | Throw e => resolve E this (KeyStr key) s = (s2, Thrown e)
      | Return (err, instance) =>
          if truthy err
          then resolve E this (KeyStr key) s = (s2, Delivered (Some err) VUndefined)
          else str_or (Some key) (getKeyFromInstance instance) = key →
               registrationsOf (world s2) this !! key = Some registration →
               resolve E this (KeyStr key) s =
                 (log (EStore Transient instance) (world s2) s2, Delivered None instance)
      end).
Proof.
  intros Hreg Hlt Hinj.
  unfold resolveSync, resolve, resolveRegistrationSync, resolveRegistration.
  cbn [normalizeKey]. rewrite (getRegistration_Own _ _ _ _ Hreg), Hlt.
  cbn [fetch Transient_fetch truthy]. unfold buildSync, build, injectAndReturn.
  split.
  - intros s2 o ->. destruct o as [instance|e]; [|done].
    intros Hor Hreg2. unfold injectSync.
    rewrite Hor, (getRegistration_Own _ _ _ _ Hreg2), Hinj, Hlt. done.
  - intros s2 o ->. destruct o as [[err instance]|e]; [|done].
    destruct (truthy err); [done|].
    intros Hor Hreg2. unfold inject.
    rewrite Hor, (getRegistration_Own _ _ _ _ Hreg2), Hinj, Hlt. done.
Qed.

Lemma str_or_nonempty key fallback :
  key ≠ EmptyString → str_or (Some key) fallback = key.
Proof. intros Hkey. unfold str_or. by apply String.eqb_neq in Hkey as ->. Qed.

(** X9.  A factory registered with the default lifetime and no injections:
    [resolveSync] calls it once, with the container, right after the
    [fetch]; what it throws is thrown on and what it returns is stored
    and returned.  [resolve] hands the error the factory reports to the
    callback as it is, with no instance, and stores nothing; without an
    error it stores and hands over the instance; and what the factory
    throws leaves [resolve], which does not call back.  (The calls the
    factory makes on the container while it runs are recorded inside its
    own call.) *)
Theorem registerFactory_resolves this factory args key s :
  str_or (opt_key (resolveSignatureToOptions args)) EmptyString = key →
  key ≠ EmptyString →
  opt_lifetime (resolveSignatureToOptions args) = None →
  default [] (opt_injections (resolveSignatureToOptions args)) = [] →
  let s1 := (registerFactory this factory args s).1 in
  let called r :=
    mkSt (world r) (trace s ++ [EFetch Transient; EFactory factory (trace r)]) in
  let stored r instance :=
    mkSt (world r) (trace s ++ [EFetch Transient; EFactory factory (trace r);
                                EStore Transient instance]) in
  (registerFactory this factory args s).2 = Return this ∧
  (∀ r e, fac_callSync E factory this (world s1) = (r, Throw e) →
          resolveSync E this (KeyStr key) s1 = (called r, Throw e)) ∧
  (∀ r instance,
      fac_callSync E factory this (world s1) = (r, Return instance) →
      registrationsOf (world r) this !! key = registrationsOf (world s1) this !! key →
      resolveSync E this (KeyStr key) s1 = (stored r instance, Return instance)) ∧
  (∀ r err instance,
      fac_call E factory this (world s1) = (r, Return (err, instance)) →
      truthy err = true →
      resolve E this (KeyStr key) s1 = (called r, Delivered (Some err) VUndefined)) ∧
  (∀ r err instance,
      fac_call E factory this (world s1) = (r, Return (err, instance)) →
      truthy err = false →
      registrationsOf (world r) this !! key = registrationsOf (world s1) this !! key →
      resolve E this (KeyStr key) s1 = (stored r instance, Delivered None instance)) ∧
  (∀ r e, fac_call E factory this (world s1) = (r, Throw e) →
          resolve E this (KeyStr key) s1 = (called r, Thrown e)).
Proof.
  intros Hkey Hne Hlt Hinj. cbv zeta.
  assert (registerFactory this factory args s =
            (on_world (putRegistration this key (FactoryReg key Transient [] factory)) s,
             Return this)) as Hrun.
  { unfold registerFactory. rewrite Hkey.
    apply String.eqb_neq in Hne as ->. unfold FactoryRegistration.
    by rewrite Hlt, Hinj. }
  rewrite Hrun. cbn [fst snd].
  set (s1 := on_world (putRegistration this key (FactoryReg key Transient [] factory)) s).
  assert (registrationsOf (world s1) this !! key =
            Some (FactoryReg key Transient [] factory)) as Hreg.
  { unfold s1. cbn [world on_world].
    rewrite registrationsOf_putRegistration, decide_True by done.
    apply lookup_insert_eq. }
  assert (trace s1 = trace s) as Htrace by reflexivity.
  destruct (resolve_defaults this key _ s1 Hreg eq_refl eq_refl) as [Hsync Hasync].
  cbn [constructSync construct] in Hsync, Hasync.
  unfold call in Hsync, Hasync. cbn [world log trace] in Hsync, Hasync.
  split; [done|]. split; [|split; [|split; [|split]]].
  - intros r e Hcall. rewrite Hcall in Hsync. rewrite (Hsync _ _ eq_refl).
    by rewrite Htrace, <- app_assoc.
  - intros r instance Hcall Hkept. rewrite Hcall in Hsync.
    pose proof (Hsync _ _ eq_refl) as H. cbn beta iota in H. rewrite H.
    + unfold log. cbn [trace world]. by rewrite Htrace, <- !app_assoc.
    + by apply str_or_nonempty.
    + cbn [world]. by rewrite Hkept.
  - intros r err instance Hcall Herr. rewrite Hcall in Hasync.
    pose proof (Hasync _ _ eq_refl) as H. cbn beta iota in H. rewrite Herr in H.
    rewrite H. by rewrite Htrace, <- app_assoc.
  - intros r err instance Hcall Herr Hkept. rewrite Hcall in Hasync.
    pose proof (Hasync _ _ eq_refl) as H. cbn beta iota in H. rewrite Herr in H.
    rewrite H.
    + unfold log. cbn [trace world]. by rewrite Htrace, <- !app_assoc.
    + by apply str_or_nonempty.
    + cbn [world]. by rewrite Hkept.
  - intros r e Hcall. rewrite Hcall in Hasync. rewrite (Hasync _ _ eq_refl).
    by rewrite Htrace, <- app_assoc.
Qed.

(** X10.  A type registered with the default lifetime and no injections, whether
    or not its registration ended in the cycle error: [resolveSync] calls
    the builder once, with the type information extracted at registration
    and the [handlerConfigs] array of the container, right after the
    [fetch]; what the builder throws is thrown on and what it returns is
    stored and returned.  [resolve] does the same through the callback,
    except that what the builder throws leaves [resolve].  (The calls
    the builder makes on the container while it runs, to resolve the
    constructor arguments, are recorded inside its own call.) *)
Theorem registerType_resolves this c args typeInfo s :
  getTypeInfo c (opt_key (resolveSignatureToOptions args)) = Return typeInfo →
  opt_lifetime (resolveSignatureToOptions args) = None →
  default [] (opt_injections (resolveSignatureToOptions args)) = [] →
  let key := ti_name typeInfo in
  let s1 := (registerType this c args s).1 in
  let called r :=
    mkSt (world r) (trace s ++ [EFetch Transient; ENewInstance typeInfo (trace r)]) in
  let stored r instance :=
    mkSt (world r) (trace s ++ [EFetch Transient; ENewInstance typeInfo (trace r);
                                EStore Transient instance]) in
  key ≠ EmptyString ∧
  (∀ r e, newInstanceSync E this typeInfo (handlerConfigs this) (world s1) = (r, Throw e) →
          resolveSync E this (KeyStr key) s1 = (called r, Throw e)) ∧
  (∀ r instance,
      newInstanceSync E this typeInfo (handlerConfigs this) (world s1) =
        (r, Return instance) →
      registrationsOf (world r) this !! key = registrationsOf (world s1) this !! key →
      resolveSync E this (KeyStr key) s1 = (stored r instance, Return instance)) ∧
  (∀ r err instance,
      newInstance E this typeInfo (handlerConfigs this) (world s1) =
        (r, Return (err, instance)) →
      truthy err = true →
      resolve E this (KeyStr key) s1 = (called r, Delivered (Some err) VUndefined)) ∧
  (∀ r err instance,
      newInstance E this typeInfo (handlerConfigs this) (world s1) =
        (r, Return (err, instance)) →
      truthy err = false →
      registrationsOf (world r) this !! key = registrationsOf (world s1) this !! key →
      resolve E this (KeyStr key) s1 = (stored r instance, Delivered None instance)) ∧
  (∀ r e, newInstance E this typeInfo (handlerConfigs this) (world s1) = (r, Throw e) →
          resolve E this (KeyStr key) s1 = (called r, Thrown e)).
Proof.
  intros Hti Hlt Hinj. cbv zeta.
  assert (ti_name typeInfo ≠ EmptyString) as Hne.
  { revert Hti. unfold getTypeInfo.
    destruct (String.eqb _ EmptyString) eqn:Hname; [done|].
    destruct (paramTypes _ 1 _); [|done]. intros [= <-]. simpl.
    by apply String.eqb_neq. }
  set (s1 := (registerType this c args s).1).
  assert (written (RegisterType c args) =
            Some (ti_name typeInfo, TypeReg (ti_name typeInfo) Transient [] typeInfo))
    as Hw.
  { cbn [written]. rewrite Hti. unfold TypeRegistration. by rewrite Hlt, Hinj. }
  assert (registrationsOf (world s1) this !! ti_name typeInfo =
            Some (TypeReg (ti_name typeInfo) Transient [] typeInfo)) as Hreg.
  { unfold s1. change (registerType this c args s).1
      with (mutate this (RegisterType c args) s).
    rewrite (register_written _ _ _ _ _ Hw). apply lookup_insert_eq. }
  assert (trace s1 = trace s) as Htrace.
  { unfold s1. change (registerType this c args s).1
      with (mutate this (RegisterType c args) s).
    by destruct (register_frame this (RegisterType c args) s) as (-> & _);
      [by eexists|]. }
  destruct (resolve_defaults this (ti_name typeInfo) _ s1 Hreg eq_refl eq_refl)
    as [Hsync Hasync].
  cbn [constructSync construct] in Hsync, Hasync.
  unfold call in Hsync, Hasync. cbn [world log trace] in Hsync, Hasync.
  split; [exact Hne|]. split; [|split; [|split; [|split]]].
  - intros r e Hcall. rewrite Hcall in Hsync. rewrite (Hsync _ _ eq_refl).
    by rewrite Htrace, <- app_assoc.
  - intros r instance Hcall Hkept. rewrite Hcall in Hsync.
    pose proof (Hsync _ _ eq_refl) as H. cbn beta iota in H. rewrite H.
    + unfold log. cbn [trace world]. by rewrite Htrace, <- !app_assoc.
    + by apply str_or_nonempty.
    + cbn [world]. by rewrite Hkept.
  - intros r err instance Hcall Herr. rewrite Hcall in Hasync.
    pose proof (Hasync _ _ eq_refl) as H. cbn beta iota in H. rewrite Herr in H.
    rewrite H. by rewrite Htrace, <- app_assoc.
  - intros r err instance Hcall Herr Hkept. rewrite Hcall in Hasync.
    pose proof (Hasync _ _ eq_refl) as H. cbn beta iota in H. rewrite Herr in H.
    rewrite H.
    + unfold log. cbn [trace world]. by rewrite Htrace, <- !app_assoc.
    + by apply str_or_nonempty.
    + cbn [world]. by rewrite Hkept.
  - intros r e Hcall. rewrite Hcall in Hasync. rewrite (Hasync _ _ eq_refl).
    by rewrite Htrace, <- app_assoc.
Qed.

End RegisterResolve.

(** ** The calls a resolution makes *)

Section Calls.
Context {U : Type} (E : Env U).
Implicit Types (s : St U) (w : World U) (this C : Container).

Lemma quiet_construction registration built :
  outline <$> built = construction registration →
  forallb (fun e => negb (is_fetch e || is_store e)) built = true.
Proof.
  intros Hbuilt.
  assert (forallb (fun e => negb (is_fetch e || is_store e)) (outline <$> built) = true)
    as Hquiet by (rewrite Hbuilt; by destruct registration).
  clear Hbuilt. induction built as [|e built IH]; [done|].
  cbn [fmap list_fmap forallb] in *. apply andb_true_iff in Hquiet as [He Hrest].
  rewrite (IH Hrest), andb_true_r. by destruct e.
Qed.

Lemma quiet_injections evs :
  forallb is_inject evs = true →
  forallb (fun e => negb (is_fetch e || is_store e)) evs = true.
Proof.
  rewrite !forallb_forall. intros H x Hx. specialize (H x Hx). by destruct x.
Qed.

(** X11.  The calls [resolveSync] and [resolve] make themselves, each
    recorded with the calls made on the container while it ran.  For a
    key under which the container has no registration they make none.
    Otherwise they call [fetch] of the registration's lifetime once,
    first; after it come calls of the builder, the factory and
    injections only; and [store] is called at most once, last, with the
    instance handed over, and never when the resolution fails.  What a
    builder, a factory or an injection does with the container (a
    builder resolves the constructor arguments, which fetches and stores
    in turn) happens inside its call, between that [fetch] and that
    [store]. *)
Theorem resolve_calls this key s :
  match registrationsOf (world s) this !! normalizeKey key with
  | None =>
      trace (resolveSync E this key s).1 = trace s ∧
      trace (resolve E this key s).1 = trace s
  | Some registration =>
      let lifetime := reg_lifetime registration in
      (∃ mid,
          forallb (fun e => negb (is_fetch e || is_store e)) mid = true ∧
          (trace (resolveSync E this key s).1 = (trace s ++ EFetch lifetime :: mid)%list ∨
           ∃ instance,
             (resolveSync E this key s).2 = Return instance ∧
             trace (resolveSync E this key s).1 =
               (trace s ++ EFetch lifetime :: mid ++ [EStore lifetime instance])%list)) ∧
      (∃ mid,
          forallb (fun e => negb (is_fetch e || is_store e)) mid = true ∧
          (trace (resolve E this key s).1 = (trace s ++ EFetch lifetime :: mid)%list ∨
           ∃ instance,
             (resolve E this key s).2 = Delivered None instance ∧
             trace (resolve E this key s).1 =
               (trace s ++ EFetch lifetime :: mid ++ [EStore lifetime instance])%list))
  end.
Proof.
  unfold resolveSync, resolve, getRegistration.
  destruct (registrationsOf (world s) this !! normalizeKey key) as [registration|];
    [|by case_bool_decide].
  cbv zeta. unfold resolveRegistrationSync, resolveRegistration.
  pose proof (fetch_trace E (reg_lifetime registration) s) as Hf.
  destruct (fetch E (reg_lifetime registration) s) as [s1 existing]. simpl in Hf.
  destruct (truthy existing).
  { split; exists []; (split; [done|]); left; simpl; by rewrite Hf. }
  split.
  - unfold buildSync.
    destruct (constructSync_trace E this registration s1) as (built & Hc & Hbuilt).
    apply quiet_construction in Hbuilt.
    destruct (constructSync E this registration s1) as [s2 [instance|e]]; simpl in Hc.
    + pose proof (injectSync_trace E this instance (Some (normalizeKey key)) s2)
        as (evs & Hi & Hevs).
      destruct (injectSync E this instance (Some (normalizeKey key)) s2)
        as [s3 [[]|e]]; simpl in Hi.
      * exists (built ++ evs)%list. split.
        { rewrite forallb_app, Hbuilt. by apply quiet_injections. }
        right. exists instance. split; [done|]. cbn [fst].
        rewrite store_trace, Hi, Hc, Hf. by rewrite <- !app_assoc.
      * exists (built ++ evs)%list. split.
        { rewrite forallb_app, Hbuilt. by apply quiet_injections. }
        left. cbn [fst]. rewrite Hi, Hc, Hf. by rewrite <- !app_assoc.
    + exists built. split; [exact Hbuilt|].
      left. cbn [fst]. rewrite Hc, Hf. by rewrite <- !app_assoc.
  - unfold build, injectAndReturn.
    destruct (construct_trace E this registration s1) as (built & Hc & Hbuilt).
    apply quiet_construction in Hbuilt.
    destruct (construct E this registration s1) as [s2 [[err instance]|e]]; simpl in Hc.
    + destruct (truthy err).
      * exists built. split; [exact Hbuilt|].
        left. cbn [fst]. rewrite Hc, Hf. by rewrite <- !app_assoc.
      * pose proof (inject_trace E this instance (Some (normalizeKey key)) s2)
          as (evs & Hi & Hevs).
        destruct (inject E this instance (Some (normalizeKey key)) s2)
          as [s3 [[e|]|e]]; simpl in Hi.
        -- exists (built ++ evs)%list. split.
           { rewrite forallb_app, Hbuilt. by apply quiet_injections. }
           left. cbn [fst]. rewrite Hi, Hc, Hf. by rewrite <- !app_assoc.
        -- exists (built ++ evs)%list. split.
           { rewrite forallb_app, Hbuilt. by apply quiet_injections. }
           right. exists instance. split; [done|]. cbn [fst].
           rewrite store_trace, Hi, Hc, Hf. by rewrite <- !app_assoc.
        -- exists (built ++ evs)%list. split.
           { rewrite forallb_app, Hbuilt. by apply quiet_injections. }
           left. cbn [fst]. rewrite Hi, Hc, Hf. by rewrite <- !app_assoc.
    + exists built. split; [exact Hbuilt|].
      left. cbn [fst]. rewrite Hc, Hf. by rewrite <- !app_assoc.
Qed.

End Calls.

(** ** Sharing *)

Section Sharing.
Context {U : Type} (E : Env U).
Implicit Types (s : St U) (w : World U) (this C : Container).

Lemma commit_effect (b : bool) (i : Interception) s :
  handlerConfigsOf (world (commit b i s).1) (ic_container i) =
    (handlerConfigsOf (world s) (ic_container i) ++ [ic_handlerConfig i])%list ∧
  handlerConfigObjs (world (commit b i s).1) !! ic_handlerConfig i =
    (fun hc => mkHandlerConfig (hc_handlers hc) (hc_matcher hc) (Some b))
      <$> handlerConfigObjs (world s) !! ic_handlerConfig i.
Proof.
  unfold commit. cbn [fst world on_world]. split.
  - rewrite handlerConfigsOf_pushHandlerConfig. by rewrite decide_True.
  - cbn. by rewrite lookup_alter_eq.
Qed.

(** X12.  The two functions that [intercept] returns work on one handler
    config.  Calling one and then the other (or the same again) pushes
    that config twice, and both entries then show [isAsync] as the last
    call set it. *)
Theorem commit_twice this matcher handlers (first second : bool) s :
  let i := (intercept this matcher handlers s).2 in
  let s1 := (intercept this matcher handlers s).1 in
  let s2 := (commit first i s1).1 in
  let s3 := (commit second i s2).1 in
  handlerConfigsOf (world s2) this =
    (handlerConfigsOf (world s) this ++ [ic_handlerConfig i])%list ∧
  handlerConfigsOf (world s3) this =
    (handlerConfigsOf (world s) this ++ [ic_handlerConfig i; ic_handlerConfig i])%list ∧
  ∃ predicate,
    handlerConfigObjs (world s2) !! ic_handlerConfig i =
      Some (mkHandlerConfig handlers predicate (Some first)) ∧
    handlerConfigObjs (world s3) !! ic_handlerConfig i =
      Some (mkHandlerConfig handlers predicate (Some second)).
Proof.
  cbv zeta.
  set (i := (intercept this matcher handlers s).2).
  set (s1 := (intercept this matcher handlers s).1).
  assert (ic_container i = this) as Hthis by reflexivity.
  assert (handlerConfigsOf (world s1) this = handlerConfigsOf (world s) this) as H1
    by reflexivity.
  assert (∃ predicate, handlerConfigObjs (world s1) !! ic_handlerConfig i =
                         Some (mkHandlerConfig handlers predicate None))
    as (predicate & Hobj).
  { eexists. unfold s1, i, intercept. cbn. by rewrite lookup_insert_eq. }
  destruct (commit_effect first i s1) as [Hl2 Ho2].
  destruct (commit_effect second i (commit first i s1).1) as [Hl3 Ho3].
  rewrite Hthis in Hl2, Hl3.
  split; [by rewrite Hl2, H1|]. split.
  { rewrite Hl3, Hl2, H1. by rewrite <- app_assoc. }
  exists predicate. rewrite Ho3, Ho2, Hobj. by split.
Qed.


End Sharing.

(** ** The edges of the graph *)

Section GraphEdges.
Context {U : Type}.
Implicit Types (s : St U) (w : World U) (this C : Container).

(** [registerType], once the extraction has succeeded: the graph it
    leaves and what it returns or throws. *)
Lemma registerType_validated this c args typeInfo s :
  getTypeInfo c (opt_key (resolveSignatureToOptions args)) = Return typeInfo →
  graphOf (world (registerType this c args s).1) this =
    fold_left (fun m arg => DepGraph.add (ti_name typeInfo) arg m) (ti_args typeInfo)
      (graphOf (world s) this) ∧
  (registerType this c args s).2 =
    match DepGraph.getChain (graphOf (world (registerType this c args s).1) this)
            (ti_name typeInfo) with
    | Return _ => Return this
    | Throw e => Throw e
    end.
Proof.
  intros Hti. unfold registerType. rewrite Hti.
  match goal with |- context [fold_left ?f ?l ?s0] => set (s2 := fold_left f l s0) end.
  assert (graphOf (world s2) this =
            fold_left (fun m arg => DepGraph.add (ti_name typeInfo) arg m)
              (ti_args typeInfo) (graphOf (world s) this)) as Hg
    by apply registerType_graph.
  destruct (DepGraph.getChain (graphOf (world s2) this) (ti_name typeInfo)) eqn:Hchain;
    cbn [fst snd]; rewrite Hchain; by split.
Qed.

(** The graph of [this] after a call on [this]. *)
Lemma mutate_graphOf this m s :
  graphOf (world (mutate this m s)) this =
    match m with
    | RegisterType c args =>
        match getTypeInfo c (opt_key (resolveSignatureToOptions args)) with
        | Return typeInfo =>
            fold_left (fun m arg => DepGraph.add (ti_name typeInfo) arg m)
              (ti_args typeInfo) (graphOf (world s) this)
        | Throw _ => graphOf (world s) this
        end
    | _ => graphOf (world s) this
    end.
Proof.
  destruct m as [c args|instance args|factory args|matcher handlers|matcher handlers];
    cbn [mutate]; try done.
  - destruct (getTypeInfo c (opt_key (resolveSignatureToOptions args)))
      as [typeInfo|e] eqn:Hti.
    + by destruct (registerType_validated this c args typeInfo s Hti) as [-> _].
    + unfold registerType. by rewrite Hti.
  - unfold registerFactory. by destruct (String.eqb _ _).
Qed.

(** X14.  No call on a container removes an edge of its graph, and the only
    edges a call adds are those of [registerType]: one from the key of
    the type to each type its constructor names.  [registerInstance],
    [registerFactory], [intercept] and a [registerType] whose extraction
    fails leave the edges as they were. *)
Theorem graph_edges this m s a b :
  DepGraph.edge (graphOf (world (mutate this m s)) this) a b ↔
  DepGraph.edge (graphOf (world s) this) a b ∨
  ∃ c args typeInfo,
    m = RegisterType c args ∧
    getTypeInfo c (opt_key (resolveSignatureToOptions args)) = Return typeInfo ∧
    a = ti_name typeInfo ∧ b ∈ ti_args typeInfo.
Proof.
  rewrite mutate_graphOf.
  destruct m as [c args|instance args|factory args|matcher handlers|matcher handlers];
    try (split; [by left|]; intros [?|(? & ? & ? & ? & _)]; done).
  destruct (getTypeInfo c (opt_key (resolveSignatureToOptions args)))
    as [typeInfo|e] eqn:Hti.
  - rewrite DepGraphFacts.edge_add_all.
    split; intros [Hold|Hnew]; [by left| |by left|].
    + right. by exists c, args, typeInfo.
    + destruct Hnew as (c' & args' & typeInfo' & [= <- <-] & Hti' & -> & Hb).
      rewrite Hti in Hti'. injection Hti' as <-. by right.
  - split; [by left|].
    intros [?|(c' & args' & typeInfo' & [= <- <-] & Hti' & _)]; [done|congruence].
Qed.

Lemma mutate_keeps_edges this m s a b :
  DepGraph.edge (graphOf (world s) this) a b →
  DepGraph.edge (graphOf (world (mutate this m s)) this) a b.
Proof.
  rewrite mutate_graphOf.
  destruct m as [c args|instance args|factory args|matcher handlers|matcher handlers];
    try done.
  destruct (getTypeInfo c (opt_key (resolveSignatureToOptions args))); [|done].
  intros Hold. apply DepGraphFacts.edge_add_all. by left.
Qed.

Lemma mutateAll_keeps_edges this ms s a b :
  DepGraph.edge (graphOf (world s) this) a b →
  DepGraph.edge (graphOf (world (mutateAll this ms s)) this) a b.
Proof.
  unfold mutateAll. revert s. induction ms as [|m ms IH]; intros s; simpl; [done|].
  intros Hold. by apply IH, mutate_keeps_edges.
Qed.

(** X15.  Edges outlive the registration they came from.  Once a type has been
    registered whose constructor names the key [d], a later
    [registerType] of a type under [d] whose constructor names the first
    type's key throws the cycle error, whatever was registered in between:
    registering the first key again, with a type that no longer names
    [d], does not take the old edge away. *)
Theorem edges_outlive_registration this c1 args1 typeInfo1 ms c2 args2 typeInfo2 s :
  getTypeInfo c1 (opt_key (resolveSignatureToOptions args1)) = Return typeInfo1 →
  getTypeInfo c2 (opt_key (resolveSignatureToOptions args2)) = Return typeInfo2 →
  ti_name typeInfo2 ∈ ti_args typeInfo1 →
  ti_name typeInfo1 ∈ ti_args typeInfo2 →
  let s' := mutateAll this (RegisterType c1 args1 :: ms) s in
  ∃ n, (registerType this c2 args2 s').2 =
         Throw (VErr (CyclicDependencyError n (ti_name typeInfo2))).
Proof.
  intros Hti1 Hti2 Hd Hk. cbv zeta.
  set (s' := mutateAll this (RegisterType c1 args1 :: ms) s).
  assert (DepGraph.edge (graphOf (world s') this) (ti_name typeInfo1) (ti_name typeInfo2))
    as Hold.
  { unfold s'. change (mutateAll this (RegisterType c1 args1 :: ms) s)
      with (mutateAll this ms (mutate this (RegisterType c1 args1) s)).
    apply mutateAll_keeps_edges. cbn [mutate].
    destruct (registerType_validated this c1 args1 typeInfo1 s Hti1) as [-> _].
    apply DepGraphFacts.edge_add_all. by right. }
  destruct (registerType_validated this c2 args2 typeInfo2 s' Hti2) as [Hg ->].
  rewrite Hg.
  match goal with |- context [DepGraph.getChain ?g _] =>
    assert (tc (DepGraph.edge g) (ti_name typeInfo2) (ti_name typeInfo2)) as Hcycle end.
  { eapply tc_l; [apply DepGraphFacts.edge_add_all; right; split; [done|exact Hk]|].
    apply tc_once, DepGraphFacts.edge_add_all. by left. }
  apply DepGraphFacts.getChain_cyclic in Hcycle as (n & -> & _). by exists n.
Qed.

End GraphEdges.

(** ** What a fork shares with its parent *)

Section SharedHandlerConfigs.
Context {U : Type}.
Implicit Types (s : St U) (w : World U) (this C : Container).

Lemma commit_handlerConfigsOf (b : bool) (i : Interception) s C :
  handlerConfigsOf (world (commit b i s).1) C =
    if decide (handlerConfigs C = handlerConfigs (ic_container i))
    then (handlerConfigsOf (world s) (ic_container i) ++ [ic_handlerConfig i])%list
    else handlerConfigsOf (world s) C.
Proof.
  unfold commit. cbn [fst world on_world].
  by rewrite handlerConfigsOf_pushHandlerConfig.
Qed.

Lemma commit_handlerConfigObjs (b : bool) (i : Interception) s :
  handlerConfigObjs (world (commit b i s).1) !! ic_handlerConfig i =
    (fun hc => mkHandlerConfig (hc_handlers hc) (hc_matcher hc) (Some b))
      <$> handlerConfigObjs (world s) !! ic_handlerConfig i.
Proof. unfold commit. cbn. by rewrite lookup_alter_eq. Qed.

Lemma commit_next (b : bool) (i : Interception) s :
  next (world (commit b i s).1) = next (world s).
Proof. reflexivity. Qed.

(** X16.  The handler configs a child gets are its parent's objects, not copies.
    When the parent's interception is committed, the container forked, and
    one of the two functions of that interception called again, the
    child's list stays as the fork left it (only the parent's grows), but
    the entry the child holds shows [isAsync] as that last call set it. *)
Theorem child_shares_handler_configs this matcher handlers (first second : bool) s :
  allocated (world s) this →
  let i := (intercept this matcher handlers s).2 in
  let s1 := (intercept this matcher handlers s).1 in
  let s2 := (commit first i s1).1 in
  let child := (createChildContainer this s2).2 in
  let s3 := (createChildContainer this s2).1 in
  let s4 := (commit second i s3).1 in
  handlerConfigsOf (world s3) child =
    (handlerConfigsOf (world s) this ++ [ic_handlerConfig i])%list ∧
  handlerConfigsOf (world s4) child = handlerConfigsOf (world s3) child ∧
  handlerConfigsOf (world s4) this =
    (handlerConfigsOf (world s) this ++ [ic_handlerConfig i; ic_handlerConfig i])%list ∧
  ∃ predicate,
    lastHandlerConfig (world s3) child =
      Some (mkHandlerConfig handlers predicate (Some first)) ∧
    lastHandlerConfig (world s4) child =
      Some (mkHandlerConfig handlers predicate (Some second)).
Proof.
  intros (Hr & Hh & Hg & _). cbv zeta.
  set (i := (intercept this matcher handlers s).2).
  set (s1 := (intercept this matcher handlers s).1).
  set (s2 := (commit first i s1).1).
  assert (ic_container i = this) as Hthis by reflexivity.
  assert (next (world s2) = S (next (world s))) as Hnext by reflexivity.
  assert (handlerConfigsOf (world s2) this =
            (handlerConfigsOf (world s) this ++ [ic_handlerConfig i])%list) as Hl2.
  { unfold s2. rewrite commit_handlerConfigsOf, Hthis. by rewrite decide_True. }
  assert (∃ predicate, handlerConfigObjs (world s1) !! ic_handlerConfig i =
                         Some (mkHandlerConfig handlers predicate None))
    as (predicate & Hobj).
  { eexists. unfold s1, i, intercept. cbn. by rewrite lookup_insert_eq. }
  assert (handlerConfigObjs (world s2) !! ic_handlerConfig i =
            Some (mkHandlerConfig handlers predicate (Some first))) as Ho2.
  { unfold s2. by rewrite commit_handlerConfigObjs, Hobj. }
  destruct (createChildContainer_effect this s2) as (Hchild & _ & Hhs & _ & Hos & _);
    [rewrite Hnext; lia..|].
  set (child := (createChildContainer this s2).2) in *.
  set (s3 := (createChildContainer this s2).1) in *.
  assert (handlerConfigs child ≠ handlerConfigs this) as Hne.
  { rewrite Hchild. cbn [handlerConfigs]. rewrite Hnext. lia. }
  assert (handlerConfigsOf (world s3) child =
            (handlerConfigsOf (world s) this ++ [ic_handlerConfig i])%list) as Hl3.
  { rewrite Hhs, decide_True, Hl2; [done|]. by rewrite Hchild. }
  assert (handlerConfigsOf (world (commit second i s3).1) child =
            handlerConfigsOf (world s3) child) as Hl4.
  { rewrite commit_handlerConfigsOf, Hthis. by rewrite decide_False. }
  split; [exact Hl3|]. split; [exact Hl4|]. split.
  { rewrite commit_handlerConfigsOf, Hthis, decide_True by done.
    rewrite Hhs, decide_False by done. rewrite Hl2. by rewrite <- app_assoc. }
  exists predicate. unfold lastHandlerConfig. rewrite Hl4, Hl3, last_snoc.
  cbn [mbind option_bind]. rewrite commit_handlerConfigObjs, Hos, Ho2. by split.
Qed.

End SharedHandlerConfigs.

(** ** What a resolution writes *)

Section Frame.
Context {U : Type} (E : Env U) (R : relation (World U)).
Context (R_refl : Reflexive R) (R_trans : Transitive R).
Context (R_respected : respects E R).
Implicit Types (s : St U) (this : Container) (registration : Registration).

Lemma fetch_respects l s : R (world s) (world (fetch E l s).1).
Proof.
  destruct R_respected as (Hfetch & _). unfold fetch. destruct l as [|n]; [done|].
  specialize (Hfetch n (world s)). by destruct (lt_fetch E n (world s)).
Qed.

Lemma store_respects l instance s : R (world s) (world (store E l instance s)).
Proof.
  destruct R_respected as (_ & Hstore & _). destruct l as [|n]; [done|]. apply Hstore.
Qed.

Lemma injectEachSync_respects this instance injections s :
  R (world s) (world (injectEachSync E this instance injections s).1).
Proof.
  destruct R_respected as (_ & _ & Hinject & _).
  revert s. induction injections as [|i rest IH]; intros s; cbn [injectEachSync];
    [done|].
  specialize (Hinject i instance this (world s)). unfold call.
  destruct (inj_injectSync E i instance this (world s)) as [r [[]|e]];
    cbn [fst] in Hinject.
  - etrans; [exact Hinject|].
    apply (IH (mkSt (world r) (trace s ++ [EInject i instance (trace r)]))).
  - exact Hinject.
Qed.

Lemma injectEach_respects this instance injections reported s :
  R (world s) (world (injectEach E this instance injections reported s).1).
Proof.
  destruct R_respected as (_ & _ & _ & Hinject & _).
  revert reported s. induction injections as [|i rest IH]; intros reported s;
    cbn [injectEach]; [done|].
  specialize (Hinject i instance this (world s)). unfold call.
  destruct (inj_inject E i instance this (world s)) as [r [err|e]]; cbn [fst] in Hinject.
  - etrans; [exact Hinject|].
    apply (IH _ (mkSt (world r) (trace s ++ [EInject i instance (trace r)]))).
  - exact Hinject.
Qed.

Lemma injectSync_respects this instance key s :
  R (world s) (world (injectSync E this instance key s).1).
Proof.
  unfold injectSync. destruct (getRegistration _ _ _); [|done|done].
  apply injectEachSync_respects.
Qed.

Lemma inject_respects this instance key s :
  R (world s) (world (inject E this instance key s).1).
Proof.
  unfold inject. destruct (getRegistration _ _ _); [|done|done].
  apply injectEach_respects.
Qed.

Lemma constructSync_respects this registration s :
  R (world s) (world (constructSync E this registration s).1).
Proof.
  destruct R_respected as (_ & _ & _ & _ & Hfactory & _ & Hnew & _).
  destruct registration as [name l injections typeInfo|name l injections instance
                           |name l injections factory]; cbn [constructSync];
    unfold call; [|done|].
  - specialize (Hnew this typeInfo (handlerConfigs this) (world s)).
    by destruct (newInstanceSync E this typeInfo (handlerConfigs this) (world s)).
  - specialize (Hfactory factory this (world s)).
    by destruct (fac_callSync E factory this (world s)).
Qed.

Lemma construct_respects this registration s :
  R (world s) (world (construct E this registration s).1).
Proof.
  destruct R_respected as (_ & _ & _ & _ & _ & Hfactory & _ & Hnew).
  destruct registration as [name l injections typeInfo|name l injections instance
                           |name l injections factory]; cbn [construct];
    unfold call; [|done|].
  - specialize (Hnew this typeInfo (handlerConfigs this) (world s)).
    by destruct (newInstance E this typeInfo (handlerConfigs this) (world s)).
  - specialize (Hfactory factory this (world s)).
    by destruct (fac_call E factory this (world s)).
Qed.

Lemma resolveSync_respects this key s :
  R (world s) (world (resolveSync E this key s).1).
Proof.
  unfold resolveSync.
  destruct (getRegistration _ _ _) as [registration| |]; [|done|done].
  unfold resolveRegistrationSync.
  pose proof (fetch_respects (reg_lifetime registration) s) as Hfetch.
  destruct (fetch E (reg_lifetime registration) s) as [s1 existing]. cbn [fst] in Hfetch.
  destruct (truthy existing); [exact Hfetch|].
  etrans; [exact Hfetch|]. unfold buildSync.
  pose proof (constructSync_respects this registration s1) as Hconstruct.
  destruct (constructSync E this registration s1) as [s2 [instance|e]];
    cbn [fst] in Hconstruct; [|exact Hconstruct].
  etrans; [exact Hconstruct|].
  pose proof (injectSync_respects this instance (Some (normalizeKey key)) s2) as Hinject.
  destruct (injectSync E this instance (Some (normalizeKey key)) s2) as [s3 [[]|e]];
    cbn [fst] in Hinject; [|exact Hinject].
  etrans; [exact Hinject|]. apply store_respects.
Qed.

Lemma resolve_respects this key s :
  R (world s) (world (resolve E this key s).1).
Proof.
  unfold resolve.
  destruct (getRegistration _ _ _) as [registration| |]; [|done|done].
  unfold resolveRegistration.
  pose proof (fetch_respects (reg_lifetime registration) s) as Hfetch.
  destruct (fetch E (reg_lifetime registration) s) as [s1 existing]. cbn [fst] in Hfetch.
  destruct (truthy existing); [exact Hfetch|].
  etrans; [exact Hfetch|]. unfold build.
  pose proof (construct_respects this registration s1) as Hconstruct.
  destruct (construct E this registration s1) as [s2 [[err instance]|e]];
    cbn [fst] in Hconstruct; [|exact Hconstruct].
  unfold injectAndReturn. destruct (truthy err); [exact Hconstruct|].
  etrans; [exact Hconstruct|].
  pose proof (inject_respects this instance (Some (normalizeKey key)) s2) as Hinject.
  destruct (inject E this instance (Some (normalizeKey key)) s2) as [s3 [[e|]|e]];
    cbn [fst] in Hinject; [exact Hinject| |exact Hinject].
  etrans; [exact Hinject|]. apply store_respects.
Qed.

End Frame.

Section WritesNothing.
Context {U : Type} (E : Env U).
Implicit Types (s : St U) (this : Container).

(** X17.  Resolution and injection write to the store only through the
    caller's objects and the builder.  Whatever the calls into those
    preserve, step by step (with what they do on the container while
    they run), every [resolve], [resolveSync], [tryResolveSync],
    [inject] and [injectSync] preserves: for any reflexive and
    transitive relation on stores that each such call respects, the
    store after is related to the store before, whether the call returns
    or throws. *)
Theorem resolution_writes_nothing (R : relation (World U)) this key instance k s :
  Reflexive R → Transitive R → respects E R →
  R (world s) (world (resolveSync E this key s).1) ∧
  R (world s) (world (resolve E this key s).1) ∧
  R (world s) (world (tryResolveSync E this key s).1) ∧
  R (world s) (world (injectSync E this instance k s).1) ∧
  R (world s) (world (inject E this instance k s).1).
Proof.
  intros Hrefl Htrans Hrespects.
  split; [by apply resolveSync_respects|]. split; [by apply resolve_respects|].
  split; [|split; [by apply injectSync_respects|by apply inject_respects]].
  unfold tryResolveSync.
  pose proof (resolveSync_respects E R Hrefl Htrans Hrespects this key s) as H.
  by destruct (resolveSync E this key s) as [s' [v|e]].
Qed.

End WritesNothing.

(** ** On the concrete caller *)


(** [container.registerInstance(foo)], then a resolution of ['Foo'] and
    of [Foo]. *)
Lemma registerInstance_resolves_witness :
  let s1 := (registerInstance Example.container Example.foo SigNone Example.start).1 in
  opt_lifetime (resolveSignatureToOptions SigNone) = None ∧
  default [] (opt_injections (resolveSignatureToOptions SigNone)) = [] ∧
  ctor_name Example.Foo = "Foo" ∧
  (resolveSync Example.env Example.container (KeyStr "Foo") s1).2 = Return Example.foo ∧
  (resolve Example.env Example.container (KeyCtor Example.Foo) s1).2 =
    Delivered None Example.foo.
Proof.
  cbv zeta.
  assert (opt_lifetime (resolveSignatureToOptions SigNone) = None) as Hl by reflexivity.
  assert (default [] (opt_injections (resolveSignatureToOptions SigNone)) = [])
    as Hi by reflexivity.
  assert (ctor_name Example.Foo = "Foo") as Hname by reflexivity.
  split; [exact Hl|]. split; [exact Hi|]. split; [exact Hname|].
  pose proof (registerInstance_resolves Example.env Example.container Example.foo
                SigNone Example.start Hl Hi) as H.
  cbv zeta in H. destruct H as (Hsync & _ & Hctor).
  destruct (Hctor Example.Foo Hname) as [_ Hasync].
  split.
  - exact (f_equal snd Hsync).
  - exact (f_equal snd Hasync).
Defined.

(** [container.registerFactory(f)] without a key. *)
Lemma registration_errors_witness :
  let m := RegisterFactory 0 SigNone in
  registered Example.container m Example.start = Some (Throw (VErr FactoryKeyError)) ∧
  mutate Example.container m Example.start = Example.start.
Proof.
  cbv zeta.
  assert (registered Example.container (RegisterFactory 0 SigNone) Example.start =
            Some (Throw (VErr FactoryKeyError))) as Hthrow by reflexivity.
  split; [exact Hthrow|].
  destruct (registration_errors Example.container (RegisterFactory 0 SigNone)
              Example.start _ Hthrow) as [(Hsame & _)|(c & args & key & r & n & Hm & _)].
  - exact Hsame.
  - discriminate Hm.
Defined.

(** [foo] is registered with two injections that succeed. *)
Lemma injectSync_in_order_witness :
  let s := Example.withFoo None [0; 0] in
  registrationsOf (world s) Example.container
    !! str_or None (getKeyFromInstance Example.foo) =
    Some (Example.fooRegistration None [0; 0]) ∧
  (injectSync Example.env Example.container Example.foo None s).2 = Return tt ∧
  ∃ injected,
    trace (injectSync Example.env Example.container Example.foo None s).1 =
      (trace s ++ injected)%list ∧
    outline <$> injected = [EInject 0 Example.foo []; EInject 0 Example.foo []].
Proof.
  cbv zeta.
  set (s := Example.withFoo None [0; 0]).
  assert (registrationsOf (world s) Example.container
            !! str_or None (getKeyFromInstance Example.foo) =
            Some (Example.fooRegistration None [0; 0])) as Hreg
    by (vm_compute; reflexivity).
  assert (injectSync Example.env Example.container Example.foo None s =
            ((injectSync Example.env Example.container Example.foo None s).1, Return tt))
    as Hrun by (vm_compute; reflexivity).
  split; [exact Hreg|]. split; [vm_compute; reflexivity|].
  exact (injectSync_in_order Example.env Example.container Example.foo None s _ _ _
           Hreg Hrun).
Defined.

(** [foo] is registered with an injection that fails and one that
    succeeds: both are started, and the failure is reported. *)
Lemma inject_starts_all_witness :
  let s := Example.withFoo None [1; 0] in
  registrationsOf (world s) Example.container
    !! str_or None (getKeyFromInstance Example.foo) =
    Some (Example.fooRegistration None [1; 0]) ∧
  (inject Example.env Example.container Example.foo None s).2 =
    Return (Some (VStr "fail")) ∧
  ∃ injected,
    trace (inject Example.env Example.container Example.foo None s).1 =
      (trace s ++ injected)%list ∧
    outline <$> injected = [EInject 1 Example.foo []; EInject 0 Example.foo []].
Proof.
  cbv zeta.
  set (s := Example.withFoo None [1; 0]).
  assert (registrationsOf (world s) Example.container
            !! str_or None (getKeyFromInstance Example.foo) =
            Some (Example.fooRegistration None [1; 0])) as Hreg
    by (vm_compute; reflexivity).
  assert (inject Example.env Example.container Example.foo None s =
            ((inject Example.env Example.container Example.foo None s).1,
             Return (Some (VStr "fail")))) as Hrun by (vm_compute; reflexivity).
  split; [exact Hreg|]. split; [vm_compute; reflexivity|].
  destruct (inject_starts_all Example.env Example.container Example.foo None s _ _ _
              Hreg Hrun) as (injected & Htrace & Hall & _).
  exists injected. exact (conj Htrace Hall).
Defined.

(** [container.injectSync(foo)] on the new container, where nothing is
    registered, and [container.injectSync(foo, 'toString')]. *)
Lemma inject_key_witness :
  registrationsOf (world Example.start) Example.container
    !! str_or None (getKeyFromInstance Example.foo) = None ∧
  (str_or None (getKeyFromInstance Example.foo) ∉ objectPrototype) ∧
  plain (world Example.start) Example.container ∧
  registrationsOf (world Example.start) Example.container
    !! str_or (Some "toString") (getKeyFromInstance Example.foo) = None ∧
  str_or (Some "toString") (getKeyFromInstance Example.foo) ∈ objectPrototype ∧
  str_or None (getKeyFromInstance Example.foo) = getKeyFromInstance Example.foo ∧
  injectSync Example.env Example.container Example.foo None Example.start =
    (Example.start, Throw (VErr (UnregisteredKeyError "Foo"))) ∧
  inject Example.env Example.container Example.foo None Example.start =
    (Example.start, Return (Some (VErr (UnregisteredKeyError "Foo")))) ∧
  injectSync Example.env Example.container Example.foo (Some "toString") Example.start =
    (Example.start, Throw (VTypeError "forEach")) ∧
  inject Example.env Example.container Example.foo (Some "toString") Example.start =
    (Example.start, Throw (VTypeError "length")).
Proof.
  assert (registrationsOf (world Example.start) Example.container
            !! str_or None (getKeyFromInstance Example.foo) = None) as Hnone
    by (vm_compute; reflexivity).
  assert (str_or None (getKeyFromInstance Example.foo) ∉ objectPrototype) as Hout
    by (apply (bool_decide_unpack _); vm_compute; exact I).
  assert (plain (world Example.start) Example.container) as Hplain
    by (vm_compute; reflexivity).
  assert (registrationsOf (world Example.start) Example.container
            !! str_or (Some "toString") (getKeyFromInstance Example.foo) = None)
    as Hnone' by (vm_compute; reflexivity).
  assert (str_or (Some "toString") (getKeyFromInstance Example.foo) ∈ objectPrototype)
    as Hin by (apply (bool_decide_unpack _); vm_compute; exact I).
  split; [exact Hnone|]. split; [exact Hout|]. split; [exact Hplain|].
  split; [exact Hnone'|]. split; [exact Hin|].
  pose proof (inject_key Example.env Example.container Example.foo None Example.start)
    as H.
  cbv zeta in H. destruct H as (Hkey & _ & _ & Habsent).
  split; [exact (Hkey (or_introl eq_refl))|].
  destruct (proj1 (Habsent Hnone) Hout Hplain) as [Hsync Hasync].
  split; [exact Hsync|]. split; [exact Hasync|].
  pose proof (inject_key Example.env Example.container Example.foo (Some "toString")
                Example.start) as H.
  cbv zeta in H. destruct H as (_ & _ & _ & Habsent').
  exact (proj2 (Habsent' Hnone') Hin).
Defined.

(** [foo] is registered with an injection that succeeds in both
    protocols; ['Bar'] is not registered, and neither is ['valueOf']. *)
Lemma protocols_agree_witness :
  let s := Example.withFoo None [0] in
  registrationsOf (world s) Example.container !! normalizeKey (KeyStr "Bar") = None ∧
  (normalizeKey (KeyStr "Bar") ∉ objectPrototype) ∧
  plain (world s) Example.container ∧
  registrationsOf (world s) Example.container !! normalizeKey (KeyStr "valueOf") = None ∧
  normalizeKey (KeyStr "valueOf") ∈ objectPrototype ∧
  registrationsOf (world s) Example.container !! normalizeKey (KeyStr "Foo") =
    Some (Example.fooRegistration None [0]) ∧
  Forall (injection_agrees Example.env Example.container Example.foo) [0] ∧
  (∃ e, resolveSync Example.env Example.container (KeyStr "Bar") s = (s, Throw e) ∧
        resolve Example.env Example.container (KeyStr "Bar") s =
          (s, Delivered (Some e) VUndefined)) ∧
  (∃ e, resolveSync Example.env Example.container (KeyStr "valueOf") s = (s, Throw e) ∧
        resolve Example.env Example.container (KeyStr "valueOf") s = (s, Thrown e)) ∧
  (∃ s', resolveSync Example.env Example.container (KeyStr "Foo") s =
           (s', Return Example.foo) ∧
         resolve Example.env Example.container (KeyStr "Foo") s =
           (s', Delivered None Example.foo)).
Proof.
  cbv zeta.
  set (s := Example.withFoo None [0]).
  assert (registrationsOf (world s) Example.container !! normalizeKey (KeyStr "Bar") = None)
    as Hbar by (vm_compute; reflexivity).
  assert (normalizeKey (KeyStr "Bar") ∉ objectPrototype) as Hout
    by (apply (bool_decide_unpack _); vm_compute; exact I).
  assert (plain (world s) Example.container) as Hplain by (vm_compute; reflexivity).
  assert (registrationsOf (world s) Example.container
            !! normalizeKey (KeyStr "valueOf") = None)
    as Hvalue by (vm_compute; reflexivity).
  assert (normalizeKey (KeyStr "valueOf") ∈ objectPrototype) as Hin
    by (apply (bool_decide_unpack _); vm_compute; exact I).
  assert (registrationsOf (world s) Example.container !! normalizeKey (KeyStr "Foo") =
            Some (Example.fooRegistration None [0])) as Hfoo
    by (vm_compute; reflexivity).
  assert (Forall (injection_agrees Example.env Example.container Example.foo) [0])
    as Hagree.
  { apply Forall_cons_2; [|apply Forall_nil_2].
    intros w. eexists _, _. split; [reflexivity|]. split; reflexivity. }
  split; [exact Hbar|]. split; [exact Hout|]. split; [exact Hplain|].
  split; [exact Hvalue|]. split; [exact Hin|].
  split; [exact Hfoo|]. split; [exact Hagree|].
  destruct (protocols_agree Example.env Example.container (KeyStr "Bar") s)
    as [Hunregistered _].
  destruct (protocols_agree Example.env Example.container (KeyStr "valueOf") s)
    as [Hinherited _].
  destruct (protocols_agree Example.env Example.container (KeyStr "Foo") s)
    as [_ Hregistered].
  split; [exact (proj1 (Hunregistered Hbar) Hout Hplain)|].
  split; [exact (proj2 (Hinherited Hvalue) Hin)|].
  assert (fetch Example.env (reg_lifetime (Example.fooRegistration None [0])) s =
            ((fetch Example.env Transient s).1, VUndefined)) as Hfetch
    by (vm_compute; reflexivity).
  destruct (Hregistered _ _ _ Hfoo Hfetch) as [_ Hmiss].
  apply (Hmiss eq_refl (fetch Example.env Transient s).1 VNull Example.foo
           (Example.fooRegistration None [0])).
  - vm_compute; reflexivity.
  - vm_compute; reflexivity.
  - reflexivity.
  - vm_compute; reflexivity.
  - exact Hagree.
Defined.

(** [container.registerFactory(f, { key: 'made' })], then a resolution of
    ['made']. *)
Lemma registerFactory_resolves_witness :
  let args := SigOptions (mkOptions (Some "made") None None) in
  let s1 := Example.withFactory 0 in
  str_or (opt_key (resolveSignatureToOptions args)) EmptyString = "made" ∧
  "made" ≠ EmptyString ∧
  opt_lifetime (resolveSignatureToOptions args) = None ∧
  default [] (opt_injections (resolveSignatureToOptions args)) = [] ∧
  fac_callSync Example.env 0 Example.container (world s1) =
    (mkSt (world s1) [], Return (VObj "Made" 0)) ∧
  (registerFactory Example.container 0 args Example.start).2 = Return Example.container ∧
  (resolveSync Example.env Example.container (KeyStr "made") s1).2 =
    Return (VObj "Made" 0).
Proof.
  cbv zeta.
  set (args := SigOptions (mkOptions (Some "made") None None)).
  assert (str_or (opt_key (resolveSignatureToOptions args)) EmptyString = "made")
    as Hkey by reflexivity.
  assert ("made" ≠ EmptyString) as Hne by discriminate.
  assert (opt_lifetime (resolveSignatureToOptions args) = None) as Hl by reflexivity.
  assert (default [] (opt_injections (resolveSignatureToOptions args)) = [])
    as Hi by reflexivity.
  assert (fac_callSync Example.env 0 Example.container (world (Example.withFactory 0)) =
            (mkSt (world (Example.withFactory 0)) [], Return (VObj "Made" 0))) as Hcall
    by reflexivity.
  split; [exact Hkey|]. split; [exact Hne|]. split; [exact Hl|]. split; [exact Hi|].
  split; [exact Hcall|].
  pose proof (registerFactory_resolves Example.env Example.container 0 args "made"
                Example.start Hkey Hne Hl Hi) as H.
  cbv zeta in H. destruct H as (Hreturn & _ & Hsync & _).
  split; [exact Hreturn|].
  exact (f_equal snd (Hsync _ _ Hcall eq_refl)).
Defined.

(** [container.registerType(Foo)], then a resolution of ['Foo']. *)
Lemma registerType_resolves_witness :
  let typeInfo := TypeInfo "Foo" ["Bar"] Example.Foo in
  let s1 := Example.withFooType in
  getTypeInfo Example.Foo (opt_key (resolveSignatureToOptions SigNone)) = Return typeInfo ∧
  opt_lifetime (resolveSignatureToOptions SigNone) = None ∧
  default [] (opt_injections (resolveSignatureToOptions SigNone)) = [] ∧
  newInstanceSync Example.env Example.container typeInfo
    (handlerConfigs Example.container) (world s1) =
    (mkSt (world s1) [], Return (VObj "Foo" 0)) ∧
  (resolveSync Example.env Example.container (KeyStr "Foo") s1).2 = Return (VObj "Foo" 0).
Proof.
  cbv zeta.
  set (typeInfo := TypeInfo "Foo" ["Bar"] Example.Foo).
  assert (getTypeInfo Example.Foo (opt_key (resolveSignatureToOptions SigNone)) =
            Return typeInfo) as Hti by reflexivity.
  assert (opt_lifetime (resolveSignatureToOptions SigNone) = None) as Hl by reflexivity.
  assert (default [] (opt_injections (resolveSignatureToOptions SigNone)) = [])
    as Hi by reflexivity.
  assert (newInstanceSync Example.env Example.container typeInfo
            (handlerConfigs Example.container) (world Example.withFooType) =
            (mkSt (world Example.withFooType) [], Return (VObj "Foo" 0))) as Hnew
    by reflexivity.
  split; [exact Hti|]. split; [exact Hl|]. split; [exact Hi|]. split; [exact Hnew|].
  pose proof (registerType_resolves Example.env Example.container Example.Foo SigNone
                typeInfo Example.start Hti Hl Hi) as H.
  cbv zeta in H. destruct H as (_ & _ & Hsync & _).
  exact (f_equal snd (Hsync _ _ Hnew eq_refl)).
Defined.


(** [Foo], which depends on [Bar], is registered; then [foo] is registered
    under ['Foo'], replacing it; then [Bar], which depends on [Foo]. *)
Lemma edges_outlive_registration_witness :
  let ms := [RegisterType Example.Foo SigNone; RegisterInstance Example.foo SigNone] in
  let s' := mutateAll Example.container ms Example.start in
  getTypeInfo Example.Foo (opt_key (resolveSignatureToOptions SigNone)) =
    Return (TypeInfo "Foo" ["Bar"] Example.Foo) ∧
  getTypeInfo Example.Bar (opt_key (resolveSignatureToOptions SigNone)) =
    Return (TypeInfo "Bar" ["Foo"] Example.Bar) ∧
  "Bar" ∈@{list string} ["Bar"] ∧
  "Foo" ∈@{list string} ["Foo"] ∧
  registrationsOf (world s') Example.container !! "Foo" =
    Some (InstanceReg "Foo" Transient [] Example.foo) ∧
  ∃ n, (registerType Example.container Example.Bar SigNone s').2 =
         Throw (VErr (CyclicDependencyError n "Bar")).
Proof.
  cbv zeta.
  assert (getTypeInfo Example.Foo (opt_key (resolveSignatureToOptions SigNone)) =
            Return (TypeInfo "Foo" ["Bar"] Example.Foo)) as Hti1 by reflexivity.
  assert (getTypeInfo Example.Bar (opt_key (resolveSignatureToOptions SigNone)) =
            Return (TypeInfo "Bar" ["Foo"] Example.Bar)) as Hti2 by reflexivity.
  assert ("Bar" ∈@{list string} ["Bar"]) as Hd by apply list_elem_of_here.
  assert ("Foo" ∈@{list string} ["Foo"]) as Hk by apply list_elem_of_here.
  split; [exact Hti1|]. split; [exact Hti2|]. split; [exact Hd|]. split; [exact Hk|].
  split; [vm_compute; reflexivity|].
  exact (edges_outlive_registration Example.container Example.Foo SigNone _
           [RegisterInstance Example.foo SigNone] Example.Bar SigNone _
           Example.start Hti1 Hti2 Hd Hk).
Defined.

(** The new container intercepts every call with one handler, commits it
    with [.sync()], is forked, and the same interception is then committed
    with [.async()]. *)
Lemma child_shares_handler_configs_witness :
  let i := (intercept Example.container (MValue (VBool true)) [7] Example.start).2 in
  let s1 := (intercept Example.container (MValue (VBool true)) [7] Example.start).1 in
  let s2 := (commit false i s1).1 in
  let child := (createChildContainer Example.container s2).2 in
  let s3 := (createChildContainer Example.container s2).1 in
  let s4 := (commit true i s3).1 in
  allocated (world Example.start) Example.container ∧
  handlerConfigsOf (world s4) child = handlerConfigsOf (world s3) child ∧
  ∃ predicate,
    lastHandlerConfig (world s3) child =
      Some (mkHandlerConfig [7] predicate (Some false)) ∧
    lastHandlerConfig (world s4) child =
      Some (mkHandlerConfig [7] predicate (Some true)).
Proof.
  cbv zeta.
  assert (allocated (world Example.start) Example.container) as Halloc.
  { unfold allocated. repeat split; try (vm_compute; lia).
    vm_compute. apply Forall_nil_2. }
  split; [exact Halloc|].
  pose proof (child_shares_handler_configs Example.container (MValue (VBool true)) [7]
                false true Example.start Halloc) as H.
  cbv zeta in H. destruct H as (_ & Hsame & _ & Hlast).
  exact (conj Hsame Hlast).
Defined.

(** The caller's objects of the example write only to the caller's own
    state, so a resolution of ['Foo'], registered with a caching lifetime
    and two injections, leaves the container holding what it held. *)
Lemma resolution_writes_nothing_witness :
  let s := Example.withFoo (Some (UserLifetime 0)) [0; 1] in
  Reflexive (unchanged (U := Example.state) Example.container) ∧
  Transitive (unchanged (U := Example.state) Example.container) ∧
  respects Example.env (unchanged Example.container) ∧
  view (world (resolveSync Example.env Example.container (KeyStr "Foo") s).1)
    Example.container = view (world s) Example.container ∧
  view (world (resolve Example.env Example.container (KeyStr "Foo") s).1)
    Example.container = view (world s) Example.container.
Proof.
  cbv zeta.
  assert (Reflexive (unchanged (U := Example.state) Example.container)) as Hrefl
    by (intros w; reflexivity).
  assert (Transitive (unchanged (U := Example.state) Example.container)) as Htrans
    by (intros w1 w2 w3 H12 H23; exact (eq_trans H23 H12)).
  assert (respects Example.env (unchanged Example.container)) as Hrespects
    by (repeat split; intros; reflexivity).
  split; [exact Hrefl|]. split; [exact Htrans|]. split; [exact Hrespects|].
  destruct (resolution_writes_nothing Example.env (unchanged Example.container)
              Example.container (KeyStr "Foo") Example.foo None
              (Example.withFoo (Some (UserLifetime 0)) [0; 1]) Hrefl Htrans Hrespects)
    as (Hsync & Hasync & _).
  exact (conj Hsync Hasync).
Defined.

(** The new container: ['Foo'] is not registered, ['toString'] is found
    on the prototype. *)
Lemma new_container_empty_witness :
  let C := Example.container in
  let s := Example.start in
  (normalizeKey (KeyStr "Foo") ∉ objectPrototype) ∧
  normalizeKey (KeyStr "toString") ∈ objectPrototype ∧
  isRegistered C (KeyStr "Foo") s = false ∧
  resolveSync Example.env C (KeyStr "Foo") s =
    (s, Throw (VErr (UnregisteredKeyError "Foo"))) ∧
  isRegistered C (KeyStr "toString") s = true ∧
  resolveSync Example.env C (KeyStr "toString") s = (s, Throw (VTypeError "fetch")) ∧
  resolve Example.env C (KeyStr "toString") s = (s, Thrown (VTypeError "fetch")) ∧
  tryResolveSync Example.env C (KeyStr "toString") s = (s, VUndefined).
Proof.
  cbv zeta.
  assert (normalizeKey (KeyStr "Foo") ∉ objectPrototype) as Hout
    by (apply (bool_decide_unpack _); vm_compute; exact I).
  assert (normalizeKey (KeyStr "toString") ∈ objectPrototype) as Hin
    by (apply (bool_decide_unpack _); vm_compute; exact I).
  split; [exact Hout|]. split; [exact Hin|].
  pose proof (new_container_empty Example.env None Example.empty [] (KeyStr "Foo")) as H.
  cbv zeta in H. destruct H as (_ & _ & _ & _ & _ & _ & Hmissing & _).
  destruct (Hmissing Hout) as (Hfalse & Hsync & _).
  split; [exact Hfalse|]. split; [exact Hsync|].
  pose proof (new_container_empty Example.env None Example.empty [] (KeyStr "toString"))
    as H.
  cbv zeta in H. destruct H as (_ & _ & _ & _ & _ & Htry & _ & Hinherited).
  destruct (Hinherited Hin) as (Htrue & Hsync' & Hasync').
  split; [exact Htrue|]. split; [exact Hsync'|]. split; [exact Hasync'|]. exact Htry.
Defined.

(** [Top], whose constructor needs a [Leaf], and [Leaf] are registered
    with a caching lifetime each, and the builder resolves the
    constructor arguments through the container.  A resolution of
    ['Top'] then fetches, calls the builder and stores; the fetch, the
    construction and the store of the [Leaf] happen inside the call of
    the builder. *)
Lemma resolve_calls_witness :
  let s := Example.withTop in
  let top := TypeInfo "Top" ["Leaf"] Example.Top in
  let leaf := TypeInfo "Leaf" [] Example.Leaf in
  registrationsOf (world s) Example.container !! normalizeKey (KeyStr "Top") =
    Some (TypeReg "Top" (UserLifetime 1) [] top) ∧
  resolveSync (Example.nesting 1) Example.container (KeyStr "Top") s =
    ((resolveSync (Example.nesting 1) Example.container (KeyStr "Top") s).1,
     Return (VObj "Top" 0)) ∧
  trace (resolveSync (Example.nesting 1) Example.container (KeyStr "Top") s).1 =
    [EFetch (UserLifetime 1);
     ENewInstance top
       [EFetch (UserLifetime 2); ENewInstance leaf [];
        EStore (UserLifetime 2) (VObj "Leaf" 0)];
     EStore (UserLifetime 1) (VObj "Top" 0)] ∧
  ∃ mid,
    forallb (fun e => negb (is_fetch e || is_store e)) mid = true ∧
    (trace (resolveSync (Example.nesting 1) Example.container (KeyStr "Top") s).1 =
       (trace s ++ EFetch (UserLifetime 1) :: mid)%list ∨
     ∃ instance,
       (resolveSync (Example.nesting 1) Example.container (KeyStr "Top") s).2 =
         Return instance ∧
       trace (resolveSync (Example.nesting 1) Example.container (KeyStr "Top") s).1 =
         (trace s ++ EFetch (UserLifetime 1) :: mid
            ++ [EStore (UserLifetime 1) instance])%list).
Proof.
  cbv zeta.
  assert (registrationsOf (world Example.withTop) Example.container
            !! normalizeKey (KeyStr "Top") =
            Some (TypeReg "Top" (UserLifetime 1) [] (TypeInfo "Top" ["Leaf"] Example.Top)))
    as Hreg by (vm_compute; reflexivity).
  split; [exact Hreg|]. split; [vm_compute; reflexivity|].
  split; [vm_compute; reflexivity|].
  pose proof (resolve_calls (Example.nesting 1) Example.container (KeyStr "Top")
                Example.withTop) as H.
  rewrite Hreg in H. cbv zeta in H. exact (proj1 H).
Defined.
